(** * substack-dl: the archive-crawl-and-convert pipeline

    A shallow embedding of [src/substack_dl/main.py].  The Python functions
    of the final (live) definitions are translated one by one:
    [extract_metadata_from_post], [get_all_post_urls],
    [download_images_and_rewrite_paths], [load_download_log],
    [save_to_download_log], [process_single_post] and the per-source loop
    of [cli].

    The libraries the program calls (requests, BeautifulSoup, readability,
    markdownify, slugify, yaml, json, pypandoc, datetime, mimetypes,
    urllib) are collected in a record [Env] of collaborators; the file
    system, the in-memory processed set and the sequence of observable
    effects are threaded through an exception-and-state monad. *)

From Stdlib Require Import Ascii.
From stdpp Require Import gmap strings list fin_maps pretty.

(* ===================================================================== *)
(** * Python values *)
(* ===================================================================== *)

(** What [json.loads] returns, and what the metadata dictionary holds. *)
#[warnings="-register-all"]
Inductive json : Type :=
| JNull
| JBool (b : bool)
| JNum (n : Z)
| JStr (s : string)
| JArr (l : list json)
| JObj (d : list (string * json)).

(** Python truth value of an object. *)
Definition truthy (v : json) : bool :=
  match v with
  | JNull => false
  | JBool b => b
  | JNum n => negb (n =? 0)%Z
  | JStr s => negb (bool_decide (s = ""))
  | JArr l => match l with [] => false | _ => true end
  | JObj d => match d with [] => false | _ => true end
  end.

(** [d.get(k)]: the value at [k], [None] when the key is absent. *)
Fixpoint dict_get (d : list (string * json)) (k : string) : json :=
  match d with
  | [] => JNull
  | (k', v) :: d' => if decide (k' = k) then v else dict_get d' k
  end.

(** [d.get(k, default)]. *)
Fixpoint dict_get_default (d : list (string * json)) (k : string)
    (default : json) : json :=
  match d with
  | [] => default
  | (k', v) :: d' => if decide (k' = k) then v else dict_get_default d' k default
  end.

(* ===================================================================== *)
(** * Strings *)
(* ===================================================================== *)

Module Str.

(** [s.split(sep)] for a one-character separator: never empty. *)
Fixpoint split (sep : ascii) (s : string) : list string :=
  match s with
  | EmptyString => [""]
  | String c s' =>
      if decide (c = sep) then "" :: split sep s'
      else match split sep s' with
           | [] => [String c ""]
           | w :: ws => String c w :: ws
           end
  end.

(** [s.replace(old, new)] for a one-character [old]. *)
Fixpoint replace (old : ascii) (new : string) (s : string) : string :=
  match s with
  | EmptyString => ""
  | String c s' =>
      if decide (c = old) then new +:+ replace old new s'
      else String c (replace old new s')
  end.

(** Characters [str.strip()] removes, within the ASCII range. *)
Definition is_space (c : ascii) : bool :=
  let n := nat_of_ascii c in
  ((9 <=? n) && (n <=? 13)) || ((28 <=? n) && (n <=? 32)).

Fixpoint lstrip (s : string) : string :=
  match s with
  | EmptyString => ""
  | String c s' => if is_space c then lstrip s' else s
  end.

Definition strip (s : string) : string :=
  String.rev (lstrip (String.rev (lstrip s))).

Fixpoint lstrip_char (x : ascii) (s : string) : string :=
  match s with
  | EmptyString => ""
  | String c s' => if decide (c = x) then lstrip_char x s' else s
  end.

(** [s.rstrip(x)] for a one-character [x]. *)
Definition rstrip_char (x : ascii) (s : string) : string :=
  String.rev (lstrip_char x (String.rev s)).

(** [s.startswith(p)]. *)
Fixpoint startswith (p s : string) : bool :=
  match p, s with
  | EmptyString, _ => true
  | String a p', String b s' => bool_decide (a = b) && startswith p' s'
  | String _ _, EmptyString => false
  end.

(** [s[:n]]. *)
Fixpoint take (n : nat) (s : string) : string :=
  match n, s with
  | S n', String c s' => String c (take n' s')
  | _, _ => ""
  end.

Definition lower_char (c : ascii) : ascii :=
  let n := nat_of_ascii c in
  if (65 <=? n) && (n <=? 90) then ascii_of_nat (n + 32) else c.

(** [s.lower()], within the ASCII range. *)
Fixpoint lower (s : string) : string :=
  match s with
  | EmptyString => ""
  | String c s' => String (lower_char c) (lower s')
  end.

(** [l[-1]] of a list of strings that is never empty. *)
Definition last (l : list string) : string := List.last l "".

Definition all_char (x : ascii) (s : string) : bool :=
  bool_decide (lstrip_char x s = "").

End Str.

(** [posixpath.join(a, b)]. *)
Definition path_join (a b : string) : string :=
  if Str.startswith "/" b then b
  else if bool_decide (a = "") || Str.startswith "/" (String.rev a) then a +:+ b
  else a +:+ "/" +:+ b.

(** [posixpath.dirname(p)]: everything up to the last slash, without
    trailing slashes unless it consists of slashes only. *)
Definition path_dirname (p : string) : string :=
  let parts := Str.split "/" p in
  match parts with
  | [] | [_] => ""
  | _ =>
      let n := (String.length p - String.length (Str.last parts))%nat in
      let head := Str.take n p in
      if Str.all_char "/" head then head else Str.rstrip_char "/" head
  end.

(* ===================================================================== *)
(** * Exceptions, effects, and the world *)
(* ===================================================================== *)

Inductive exn : Type :=
| HTTPError (status : Z)          (* requests.exceptions.HTTPError *)
| ConnectionError                 (* any other RequestException *)
| JSONDecodeError
| ValueError
| TypeError
| AttributeError
| OSError
| PandocFailure (missing_binary : bool)  (* raised by pypandoc.convert_file *)
| RuntimeError.                   (* any other Exception of a collaborator *)

Definition is_request_exception (e : exn) : bool :=
  match e with
  | HTTPError _ | ConnectionError => true
  | _ => false
  end.

Inductive level : Type := INFO | WARNING | ERROR.

(** What the program does to the outside, in order. *)
Inductive event : Type :=
| EvGetArchive (url : string)
| EvGetPost (url : string)
| EvGetImage (url : string)
| EvMkdir (path : string)
| EvWrite (path : string)
| EvRemove (path : string)
| EvPandoc (input fmt output : string)
| EvSleep
| EvLog (lvl : level).

#[global] Instance json_inhabited : Inhabited json := populate JNull.
#[global] Instance level_eq_dec : EqDecision level.
Proof. solve_decision. Defined.
#[global] Instance event_eq_dec : EqDecision event.
Proof. solve_decision. Defined.
#[global] Instance exn_eq_dec : EqDecision exn.
Proof. solve_decision. Defined.

(** A file holds text, or a JSON document written by [json.dump] (the
    serialisation of the documents the program writes is taken to be
    lossless: [json.load] gives the document back). *)
Inductive content : Type :=
| Text (s : string)
| Json (j : json).

Inductive node : Type :=
| Dir
| File (c : content).

(** The world: the file tree, the live [processed_urls_set] object shared
    between [cli], [process_single_post] and [save_to_download_log], and
    the effects so far (most recent last). *)
Record state : Type := mkState {
  fs : gmap string node;
  processed_urls_set : gset string;
  trace : list event
}.

Inductive result (A : Type) : Type :=
| Ok (a : A)
| Raise (e : exn).
Arguments Ok {A} a.
Arguments Raise {A} e.

Definition M (A : Type) : Type := state → result A * state.

Definition ret {A} (a : A) : M A := λ st, (Ok a, st).

Definition raise {A} (e : exn) : M A := λ st, (Raise e, st).

Definition bind {A B} (m : M A) (k : A → M B) : M B :=
  λ st, match m st with
        | (Ok a, st') => k a st'
        | (Raise e, st') => (Raise e, st')
        end.

(** [try: body except Exception as e: handler e]. *)
Definition try_except {A} (body : M A) (handler : exn → M A) : M A :=
  λ st, match body st with
        | (Ok a, st') => (Ok a, st')
        | (Raise e, st') => handler e st'
        end.

(** Lift the outcome of a collaborator. *)
Definition lift {A} (r : result A) : M A := λ st, (r, st).

Declare Scope py_scope.
Delimit Scope py_scope with py.
Notation "'let*' x ':=' m 'in' k" := (bind m (λ x, k))
  (at level 10, x pattern, m at level 100, k at level 200) : py_scope.
Notation "m '>>' k" := (bind m (λ _, k))
  (at level 100, k at level 200, right associativity) : py_scope.
Open Scope py_scope.

Definition emit (ev : event) : M unit :=
  λ st, (Ok tt, mkState (fs st) (processed_urls_set st) (trace st ++ [ev])).

Definition logging (lvl : level) : M unit := emit (EvLog lvl).

Definition sleep : M unit := emit EvSleep.

Definition get_fs : M (gmap string node) := λ st, (Ok (fs st), st).

Definition put_fs (f : gmap string node) : M unit :=
  λ st, (Ok tt, mkState f (processed_urls_set st) (trace st)).

Definition get_set : M (gset string) := λ st, (Ok (processed_urls_set st), st).

Definition put_set (s : gset string) : M unit :=
  λ st, (Ok tt, mkState (fs st) s (trace st)).

Definition is_file (f : gmap string node) (p : string) : bool :=
  match f !! p with Some (File _) => true | _ => false end.

(** [os.path.exists(p)]. *)
Definition path_exists (p : string) : M bool :=
  let* f := get_fs in ret (bool_decide (is_Some (f !! p))).

(* ===================================================================== *)
(** * Collaborators *)
(* ===================================================================== *)

(** A calendar date, as far as [strftime] looks at a [datetime]. *)
Record date : Type := mkDate { year : nat; month : nat; day : nat }.

Definition pad2 (n : nat) : string :=
  if (n <? 10)%nat then "0" +:+ pretty n else pretty n.

Definition pad4 (n : nat) : string :=
  if (n <? 10)%nat then "000" +:+ pretty n
  else if (n <? 100)%nat then "00" +:+ pretty n
  else if (n <? 1000)%nat then "0" +:+ pretty n
  else pretty n.

(** [d.strftime('%Y-%m-%d')] and [d.strftime('%Y%m%d')]. *)
Definition strftime_dashed (d : date) : string :=
  pad4 (year d) +:+ "-" +:+ pad2 (month d) +:+ "-" +:+ pad2 (day d).

Definition strftime_compact (d : date) : string :=
  pad4 (year d) +:+ pad2 (month d) +:+ pad2 (day d).

(** The answer to an image request: the declared content type and the
    bytes. *)
Record response : Type := mkResponse {
  content_type : option string;
  body : string
}.

(** The [href] attributes the two selector layers of the archive walker
    find on a page ([None]: an anchor without [href]). *)
Record archive_page : Type := mkArchivePage {
  primary_links : list (option string);
  fallback_links : list (option string)
}.

(** The meta elements the extractor looks for. *)
Inductive meta_selector : Type :=
| MetaArticleAuthorName      (* property='article:author_name' *)
| MetaNameAuthor             (* name='author' *)
| MetaArticlePublishedTime   (* property='article:published_time' *)
| MetaOgPublishedTime        (* property='og:published_time' *)
| MetaCxensePublishTime.     (* name='cXenseParse:recs:publishtime' *)

(** An [img] element: its [src] attribute and its other attributes (two
    tags are equal for [list.index] when both agree). *)
Record img_tag : Type := mkImg {
  img_src : option string;
  img_attrs : string
}.

#[global] Instance img_tag_eq_dec : EqDecision img_tag.
Proof. solve_decision. Defined.

Record Env : Type := mkEnv {
  (* requests: [get] followed by [raise_for_status] *)
  http_get_archive : string → result archive_page;
  http_get_post : string → result string;
  http_get_image : string → result response;
  (* urllib.parse *)
  urljoin : string → string → string;
  (* same netloc as the source, and "/p/" in the path *)
  is_post_link : string → string → bool;
  (* urlparse(u).netloc *)
  url_netloc : string → result string;
  (* os.path.basename(urlparse(u).path) *)
  url_basename : string → string;
  splitext : string → string * string;
  guess_extension : string → option string;
  (* BeautifulSoup *)
  soup_json_ld : string → option (option string);
  soup_meta : string → meta_selector → option (option string);
  soup_article_tags : string → list (option string);
  soup_images : string → list img_tag;
  soup_str : string → list img_tag → string;
  (* json, yaml *)
  json_loads : string → option json;
  json_dumps : json → string;
  yaml_dump : json → string;
  (* datetime *)
  fromisoformat : string → option date;
  strptime_long : string → option date;      (* '%A, %B %d, %Y' *)
  now : date;
  (* readability, markdownify, slugify *)
  doc_title : string → result string;
  doc_summary : string → result string;
  markdownify : string → string;
  slugify : string → string;
  (* str() inside an f-string *)
  py_str : json → string;
  (* pypandoc: the converted document, or the exception *)
  pandoc : string → string → result string;
  (* the operating system: may this path be written / created? *)
  write_ok : string → bool;
  mkdir_ok : string → bool
}.

Record metadata : Type := mkMeta {
  title : json;
  author : json;
  published_date : json;
  tags : list string;
  url : string
}.

Definition metadata_dict (m : metadata) : json :=
  JObj [("title", title m); ("author", author m);
        ("published_date", published_date m);
        ("tags", JArr (JStr <$> tags m)); ("url", JStr (url m))].

(** How one turn of a loop ends. *)
Inductive step (A : Type) : Type :=
| Continue (a : A)
| Break.
Arguments Continue {A} a.
Arguments Break {A}.

Section Program.

Variable E : Env.

(* ===================================================================== *)
(** * File system *)
(* ===================================================================== *)

(** [os.makedirs(p, exist_ok=True)], as far as [p] itself goes: the
    directories above [p] are taken to be there (the call makes the
    missing ones as well). *)
Definition makedirs (p : string) : M unit :=
  let* f := get_fs in
  match f !! p with
  | Some Dir => ret tt
  | Some (File _) => raise OSError
  | None =>
      if mkdir_ok E p then put_fs (<[p := Dir]> f) >> emit (EvMkdir p)
      else raise OSError
  end.

(** [with open(p, 'w') as f: f.write(c)]. *)
Definition write_file (p : string) (c : content) : M unit :=
  let* f := get_fs in
  match f !! p with
  | Some Dir => raise OSError
  | _ =>
      if write_ok E p then put_fs (<[p := File c]> f) >> emit (EvWrite p)
      else raise OSError
  end.

(** [os.remove(p)]: an existing regular file is always removed. *)
Definition remove (p : string) : M unit :=
  let* f := get_fs in
  match f !! p with
  | Some (File _) => put_fs (delete p f) >> emit (EvRemove p)
  | _ => raise OSError
  end.

(* ===================================================================== *)
(** * Incremental log  (main.py 537-554) *)
(* ===================================================================== *)

(** [json.load(f)] on a file that holds text.  A file whose bytes do
    not decode, on which the call raises [UnicodeDecodeError], is outside
    the model. *)
Definition json_load (c : content) : M json :=
  match c with
  | Json j => ret j
  | Text s =>
      match json_loads E s with
      | Some j => ret j
      | None => raise JSONDecodeError
      end
  end.

Definition hashable (v : json) : bool :=
  match v with
  | JArr _ | JObj _ => false
  | _ => true
  end.

Definition str_members (l : list json) : gset string :=
  list_to_set (omap (λ v, match v with JStr s => Some s | _ => None end) l).

Fixpoint chars (s : string) : list string :=
  match s with
  | EmptyString => []
  | String c s' => String c "" :: chars s'
  end.

(** [set(v)], as far as membership of strings goes (the numbers, booleans
    and [None] a list may hold are never equal to a URL). *)
Definition set_of (v : json) : result (gset string) :=
  match v with
  | JArr l => if forallb hashable l then Ok (str_members l) else Raise TypeError
  | JStr s => Ok (list_to_set (chars s))
  | JObj d => Ok (list_to_set (d.*1))
  | _ => Raise TypeError
  end.

Definition load_download_log (log_file_path : string) : M (gset string) :=
  let* ex := path_exists log_file_path in
  if ex : bool then
    let* f := get_fs in
    match f !! log_file_path with
    | Some (File c) =>
        try_except
          (let* data := json_load c in
           match data with
           | JObj d => lift (set_of (dict_get_default d "processed_urls" (JArr [])))
           | _ => raise AttributeError
           end)
          (λ e, match e with
                | JSONDecodeError => logging WARNING >> ret ∅
                | _ => raise e
                end)
    | _ => raise OSError
    end
  else ret ∅.

Definition log_document (s : gset string) : json :=
  JObj [("processed_urls", JArr (JStr <$> elements s))].

Definition save_to_download_log (log_file_path url : string) : M unit :=
  let* s := get_set in
  put_set ({[url]} ∪ s) >>
  makedirs (path_dirname log_file_path) >>
  let* s' := get_set in
  write_file log_file_path (Json (log_document s')).


(* ===================================================================== *)
(** * Metadata extractor  (main.py 120-209) *)
(* ===================================================================== *)

Definition nonempty (s : string) : bool := negb (bool_decide (s = "")).

Definition is_article (item : json) : bool :=
  match item with
  | JObj d =>
      match dict_get d "@type" with
      | JStr t => bool_decide (t = "NewsArticle") || bool_decide (t = "Article")
      | _ => false
      end
  | _ => false
  end.

(** Lines 140-152: the dictionary the fields are read from. *)
Definition select_json_ld (json_data_list : json) : list (string * json) :=
  match json_data_list with
  | JArr l =>
      let processed_json_data :=
        match List.find is_article l with
        | Some (JObj item) => item
        | _ => []
        end in
      match processed_json_data, l with
      | [], JObj first :: _ => first
      | _, _ => processed_json_data
      end
  | JObj d => d
  | _ => []
  end.

(** Lines 155-168. *)
Definition apply_json_ld (json_data : list (string * json)) (m : metadata)
    : metadata :=
  match json_data with
  | [] => m
  | _ =>
      let author' :=
        match dict_get json_data "author" with
        | JObj author_data => dict_get author_data "name"
        | JArr (JObj first :: _) => dict_get first "name"
        | _ => author m
        end in
      let tags' :=
        match dict_get json_data "keywords" with
        | JStr keywords =>
            List.filter nonempty (Str.strip <$> Str.split "," keywords)
        | JArr keywords =>
            omap (λ tag, match tag with
                         | JStr s => if nonempty (Str.strip s) then Some s else None
                         | _ => None
                         end) keywords
        | _ => tags m
        end in
      mkMeta (dict_get json_data "headline") author'
             (dict_get json_data "datePublished") tags' (url m)
  end.

(** [soup.find(a) or soup.find(b) or ...]: a found tag is always true. *)
Fixpoint first_meta (post_html : string) (sels : list meta_selector)
    : option (option string) :=
  match sels with
  | [] => None
  | sel :: sels' =>
      match soup_meta E post_html sel with
      | Some tag => Some tag
      | None => first_meta post_html sels'
      end
  end.

(** [tag and tag.get('content')], when true. *)
Definition meta_content (tag : option (option string)) : option string :=
  match tag with
  | Some (Some c) => if nonempty c then Some c else None
  | _ => None
  end.

(** Lines 187-197: normalise a meta date to YYYY-MM-DD, or keep it. *)
Definition normalise_meta_date (raw : string) : M string :=
  match fromisoformat E (Str.replace "Z" "+00:00" raw) with
  | Some dt_obj => ret (strftime_dashed dt_obj)
  | None =>
      match strptime_long E raw with
      | Some dt_obj => ret (strftime_dashed dt_obj)
      | None => logging WARNING >> ret raw
      end
  end.

(** [json.loads(json_ld_script.string)]: a script tag without a single
    string child has [.string] None, which [json.loads] rejects. *)
Definition parse_json_ld (script : option string) : result json :=
  match script with
  | Some s =>
      match json_loads E s with
      | Some v => Ok v
      | None => Raise JSONDecodeError
      end
  | None => Raise TypeError
  end.

Definition extract_metadata_from_post (post_html post_url : string)
    : M metadata :=
  let metadata0 := mkMeta JNull JNull JNull [] post_url in
  (* JSON-LD, lines 135-172 *)
  let* m1 :=
    match soup_json_ld E post_html with
    | Some script =>
        try_except
          (let* json_data_list := lift (parse_json_ld script) in
           ret (apply_json_ld (select_json_ld json_data_list) metadata0))
          (λ e, logging WARNING >> ret metadata0)
    | None => ret metadata0
    end in
  (* author fallback, lines 175-179 *)
  let m2 :=
    if truthy (author m1) then m1
    else match meta_content
                 (first_meta post_html [MetaArticleAuthorName; MetaNameAuthor]) with
         | Some c => mkMeta (title m1) (JStr c) (published_date m1) (tags m1) (url m1)
         | None => m1
         end in
  (* date fallback, lines 181-197 *)
  let* m3 :=
    if truthy (published_date m2) then ret m2
    else match meta_content
                 (first_meta post_html
                    [MetaArticlePublishedTime; MetaOgPublishedTime;
                     MetaCxensePublishTime]) with
         | Some c =>
             let* d := normalise_meta_date c in
             ret (mkMeta (title m2) (author m2) (JStr d) (tags m2) (url m2))
         | None => ret m2
         end in
  (* tags fallback and clean-up, lines 200-206 *)
  let tags4 :=
    match tags m3 with
    | [] =>
        match soup_article_tags E post_html with
        | [] => []
        | tags_meta => omap (λ t, meta_content (Some t)) tags_meta
        end
    | ts => ts
    end in
  ret (mkMeta (title m3) (author m3) (published_date m3)
              (List.filter nonempty tags4) (url m3)).

(* ===================================================================== *)
(** * Archive walker  (main.py 212-271) *)
(* ===================================================================== *)

(** Lines 234-242: the post URLs among the links of one page. *)
Definition page_urls (substack_url : string) (links_on_page : list (option string))
    : gset string :=
  list_to_set
    (omap (λ href,
             match href with
             | Some h =>
                 if nonempty h then
                   let full_url := urljoin E substack_url h in
                   if is_post_link E substack_url full_url
                   then Some (hd "" (Str.split "?" full_url))
                   else None
                 else None
             | None => None
             end) links_on_page).

(** Lines 227-229: the narrow selector, else the broad one. *)
Definition links_of (soup : archive_page) : list (option string) :=
  match primary_links soup with
  | [] => fallback_links soup
  | ls => ls
  end.

Definition archive_url (substack_url : string) (page : nat) : string :=
  substack_url +:+ "/archive?page=" +:+ pretty page.

(** One turn of the [while True] loop: the body of the [try] and its
    handlers.  [Continue all'] goes on with page + 1. *)
Definition archive_page_step (substack_url : string) (page : nat)
    (all_post_urls : gset string) : M (step (gset string)) :=
  let url := archive_url substack_url page in
  try_except
    (logging INFO >>
     emit (EvGetArchive url) >>
     let* soup := lift (http_get_archive E url) in
     let links_on_page := links_of soup in
     match links_on_page with
     | [] => logging INFO >> ret Break
     | _ =>
         let current_page_urls := page_urls substack_url links_on_page in
         if decide (current_page_urls = ∅) then logging INFO >> ret Break
         else
           let new_urls := current_page_urls ∖ all_post_urls in
           if decide (new_urls = ∅) then logging INFO >> ret Break
           else
             logging INFO >> sleep >> ret (Continue (all_post_urls ∪ new_urls))
     end)
    (λ e, match e with
          | HTTPError status =>
              (if decide (status = 404%Z) then logging INFO else logging ERROR)
              >> ret Break
          | _ => logging ERROR >> ret Break
          end).

(** The loop itself.  Python's [while True] has no bound; [fuel] bounds
    the number of pages and [None] means it ran out. *)
Fixpoint walk_archive (fuel : nat) (substack_url : string) (page : nat)
    (all_post_urls : gset string) : M (option (gset string)) :=
  match fuel with
  | O => ret None
  | S fuel' =>
      let* s := archive_page_step substack_url page all_post_urls in
      match s with
      | Break => ret (Some all_post_urls)
      | Continue all' => walk_archive fuel' substack_url (S page) all'
      end
  end.

Definition get_all_post_urls (fuel : nat) (substack_url : string)
    : M (option (list string)) :=
  let* r := walk_archive fuel substack_url 1 ∅ in
  ret (elements <$> r).

(* ===================================================================== *)
(** * Asset localizer  (main.py 274-355) *)
(* ===================================================================== *)

(** Lines 330-334: [while os.path.exists(local_image_path)].  [fuel]
    bounds the number of turns; [unique_name] below passes more fuel than
    the directory tree has entries, which is always enough. *)
Fixpoint unique_name_loop (fuel : nat) (f : gmap string node)
    (save_dir safe_filename_base image_ext local_image_filename : string)
    (counter : nat) : option string :=
  match fuel with
  | O => None
  | S fuel' =>
      if bool_decide (is_Some (f !! path_join save_dir local_image_filename))
      then unique_name_loop fuel' f save_dir safe_filename_base image_ext
             (safe_filename_base +:+ "_" +:+ pretty counter +:+ image_ext)
             (S counter)
      else Some local_image_filename
  end.

Definition unique_name (save_dir safe_filename_base image_ext : string)
    : M string :=
  let* f := get_fs in
  match unique_name_loop (S (S (size f))) f save_dir safe_filename_base
          image_ext (safe_filename_base +:+ image_ext) 1 with
  | Some name => ret name
  | None => raise RuntimeError
  end.

(** [images_found.index(img_tag)]. *)
Definition index_of (img : img_tag) (images_found : list img_tag) : nat :=
  match list_find (λ t, t = img) images_found with
  | Some (i, _) => i
  | None => 0
  end.

(** Lines 315-324: the extension of the local file. *)
Definition image_ext_of (img_url : string) (img_response : response) : string :=
  let ext_from_url := (splitext E (url_basename E img_url)).2 in
  let ext_from_content_type :=
    match content_type img_response with
    | Some ct => if nonempty ct then guess_extension E ct else None
    | None => None
    end in
  let image_ext :=
    if nonempty ext_from_url then ext_from_url
    else match ext_from_content_type with
         | Some e => if nonempty e then e else ".jpg"
         | None => ".jpg"
         end in
  if Str.startswith "." image_ext then image_ext else "." +:+ image_ext.

(** Line 326: the base name of the local file. *)
Definition safe_filename_base_of (img_url : string)
    (images_found : list img_tag) (tag : img_tag) : string :=
  let filename_base := (splitext E (url_basename E img_url)).1 in
  if nonempty filename_base then slugify E filename_base
  else "image_" +:+ pretty (index_of tag images_found).

(** Lines 300-353: the body of the loop for one tag; the result is the
    tag as it stands afterwards. *)
Definition localize_image (base_url save_dir_for_post_assets post_slug
    assets_dir_name_param : string) (images_found : list img_tag)
    (tag : img_tag) : M img_tag :=
  match img_src tag with
  | None => ret tag
  | Some original_src =>
      if negb (nonempty original_src) then ret tag
      else
        try_except
          (let img_url := urljoin E base_url original_src in
           if Str.startswith "data:" img_url then logging INFO >> ret tag
           else
             logging INFO >>
             emit (EvGetImage img_url) >>
             let* img_response := lift (http_get_image E img_url) in
             let image_ext := image_ext_of img_url img_response in
             let safe_filename_base :=
               safe_filename_base_of img_url images_found tag in
             let* local_image_filename :=
               unique_name save_dir_for_post_assets safe_filename_base image_ext in
             let local_image_path :=
               path_join save_dir_for_post_assets local_image_filename in
             write_file local_image_path (Text (body img_response)) >>
             let relative_image_path :=
               path_join (path_join assets_dir_name_param post_slug)
                         local_image_filename in
             logging INFO >>
             ret (mkImg (Some relative_image_path) (img_attrs tag)))
          (λ e, logging WARNING >> ret tag)
  end.

(** The [for img_tag in images_found] loop: [done] are the tags already
    visited (rewritten in place), [todo] the ones still to visit. *)
Fixpoint localize_loop (base_url save_dir_for_post_assets post_slug
    assets_dir_name_param : string) (done todo : list img_tag)
    : M (list img_tag) :=
  match todo with
  | [] => ret done
  | tag :: todo' =>
      let* tag' :=
        localize_image base_url save_dir_for_post_assets post_slug
          assets_dir_name_param (done ++ todo) tag in
      localize_loop base_url save_dir_for_post_assets post_slug
        assets_dir_name_param (done ++ [tag']) todo'
  end.

Definition download_images_and_rewrite_paths (post_html_content base_url
    save_dir_for_post_assets post_slug assets_dir_name_param : string)
    : M string :=
  let images_found := soup_images E post_html_content in
  match images_found with
  | [] => ret post_html_content
  | _ =>
      makedirs save_dir_for_post_assets >>
      let* images := localize_loop base_url save_dir_for_post_assets post_slug
                       assets_dir_name_param [] images_found in
      ret (soup_str E post_html_content images)
  end.

(* ===================================================================== *)
(** * Post processing  (main.py 559-738) *)
(* ===================================================================== *)

Definition nl : string := String "010"%char "".
Definition dq : string := String "034"%char "".

(** A value inside an f-string. *)
Definition fstr (v : json) : string :=
  match v with
  | JStr s => s
  | _ => py_str E v
  end.

(** [slugify(v)]: python-slugify decodes anything that is not a [str]. *)
Definition slugify_value (v : json) : M string :=
  match v with
  | JStr s => ret (slugify E s)
  | _ => raise TypeError
  end.

(** [len(v)]. *)
Definition py_len (v : json) : M nat :=
  match v with
  | JStr s => ret (String.length s)
  | JArr l => ret (length l)
  | JObj d => ret (length d)
  | _ => raise TypeError
  end.

Definition is_str (v : json) (s : string) : bool :=
  match v with
  | JStr s' => bool_decide (s' = s)
  | _ => false
  end.

Definition with_title (m : metadata) (t : json) : metadata :=
  mkMeta t (author m) (published_date m) (tags m) (url m).

(** Lines 582-591. *)
Definition resolve_title (url : string) (m : metadata) (content_title : string)
    : M metadata :=
  let* t :=
    if negb (truthy (title m)) then ret (JStr content_title)
    else if negb (nonempty content_title) && truthy (title m) then ret (title m)
    else if nonempty content_title && truthy (title m) then
      let* n := py_len (title m) in
      if (n <? String.length content_title)%nat then ret (JStr content_title)
      else ret (title m)
    else ret (title m) in
  if negb (truthy t) then
    logging WARNING >> ret (with_title m (JStr "Untitled Post"))
  else ret (with_title m t).

(** Lines 603-612.  The key "published_date" is always present, so
    [metadata.get] never takes its default; [None.split] is an
    [AttributeError], which [except ValueError] does not catch. *)
Definition filename_date_prefix (m : metadata) : M string :=
  let date_prefix := published_date m in
  try_except
    (match date_prefix with
     | JStr s =>
         match fromisoformat E (hd "" (Str.split "T" s)) with
         | Some date_obj_for_filename => ret (strftime_compact date_obj_for_filename)
         | None => raise ValueError
         end
     | _ => raise AttributeError
     end)
    (λ e, match e with
          | ValueError =>
              match date_prefix with
              | JStr s =>
                  if (length (Str.split "-" s) =? 3)%nat
                  then ret (Str.replace "-" "" s)
                  else logging WARNING >> ret (strftime_compact (now E))
              | _ => raise AttributeError
              end
          | _ => raise e
          end).

(** [pypandoc.convert_file(input, fmt, outputfile=output, ...)]. *)
Definition convert_file (input fmt output : string) : M unit :=
  emit (EvPandoc input fmt output) >>
  let* f := get_fs in
  match f !! input with
  | Some (File (Text src)) =>
      let* out := lift (pandoc E src fmt) in
      match f !! output with
      | Some Dir => raise (PandocFailure false)
      | _ =>
          if write_ok E output
          then put_fs (<[output := File (Text out)]> f) >> emit (EvWrite output)
          else raise (PandocFailure false)
      end
  | _ => raise (PandocFailure false)
  end.

(** Lines 653-665 (indentation of the template left out). *)
Definition pandoc_document (m : metadata) (content_html_summary : string)
    : string :=
  nl +:+ "<html>" +:+ nl +:+ "<head>" +:+ nl +:+
  "<title>" +:+ fstr (title m) +:+ "</title>" +:+ nl +:+
  "<meta name=" +:+ dq +:+ "author" +:+ dq +:+ " content="
    +:+ dq +:+ fstr (author m) +:+ dq +:+ ">" +:+ nl +:+
  "<meta name=" +:+ dq +:+ "date" +:+ dq +:+ " content="
    +:+ dq +:+ fstr (published_date m) +:+ dq +:+ ">" +:+ nl +:+
  "</head>" +:+ nl +:+ "<body>" +:+ nl +:+
  "<h1>" +:+ fstr (title m) +:+ "</h1>" +:+ nl +:+
  content_html_summary +:+ nl +:+ "</body>" +:+ nl +:+ "</html>" +:+ nl.

Definition temp_html_path_of (output_dir formatted_date_prefix clean_slug : string)
    : string :=
  path_join output_dir (formatted_date_prefix +:+ "_" +:+ clean_slug +:+ "_temp.html").

(** Lines 639-717: one pdf/epub render, the [try] and its handler. *)
Definition render_pandoc (m : metadata) (content_html_summary output_dir
    formatted_date_prefix clean_slug fmt filepath : string) : M unit :=
  let temp_html_path :=
    temp_html_path_of output_dir formatted_date_prefix clean_slug in
  try_except
    (let full_html_for_pandoc := pandoc_document m content_html_summary in
     write_file temp_html_path (Text full_html_for_pandoc) >>
     convert_file temp_html_path fmt filepath >>
     logging INFO >>
     let* ex := path_exists temp_html_path in
     if nonempty temp_html_path && ex then remove temp_html_path else ret tt)
    (λ e,
       logging ERROR >>
       (match e with
        | PandocFailure true => logging ERROR
        | _ => ret tt
        end) >>
       let* ex := path_exists temp_html_path in
       if nonempty temp_html_path && ex then remove temp_html_path else ret tt).

(** Lines 617-726: the body of [for fmt in formats_to_save]. *)
Definition render_format (m : metadata) (content_html_summary output_dir
    formatted_date_prefix clean_slug : string) (fmt : string) : M unit :=
  let filename := formatted_date_prefix +:+ "_" +:+ clean_slug +:+ "." +:+ fmt in
  let filepath := path_join output_dir filename in
  makedirs (path_dirname filepath) >>
  if decide (fmt = "md") then
    let body_content := markdownify E content_html_summary in
    let frontmatter_str := yaml_dump E (metadata_dict m) in
    let final_content :=
      "---" +:+ nl +:+ frontmatter_str +:+ "---" +:+ nl +:+ nl +:+
      "# " +:+ fstr (title m) +:+ nl +:+ nl +:+ body_content in
    write_file filepath (Text final_content) >> logging INFO
  else if decide (fmt = "html") then
    let meta_html_comment :=
      "<!--" +:+ nl +:+ yaml_dump E (metadata_dict m) +:+ "-->" +:+ nl in
    let final_content :=
      meta_html_comment +:+ "<h1>" +:+ fstr (title m) +:+ "</h1>" +:+ nl +:+
      content_html_summary in
    write_file filepath (Text final_content) >> logging INFO
  else if decide (fmt = "json") then
    let json_data :=
      JObj [("metadata", metadata_dict m);
            ("content_html", JStr content_html_summary)] in
    let final_content := json_dumps E json_data in
    write_file filepath (Text final_content) >> logging INFO
  else if decide (fmt = "pdf" ∨ fmt = "epub") then
    makedirs (path_dirname filepath) >>
    render_pandoc m content_html_summary output_dir formatted_date_prefix
      clean_slug fmt filepath
  else logging WARNING.

Fixpoint for_each {A} (f : A → M unit) (l : list A) : M unit :=
  match l with
  | [] => ret tt
  | a :: l' => f a >> for_each f l'
  end.

(** Lines 572-601: fetch, metadata, title, content, image localization.
    The result is the metadata, the content fragment and the URL slug. *)
Definition prepare_post (url output_dir : string) (download_images_flag : bool)
    (config_assets_dir_name : string) : M (metadata * string * string) :=
  let url_slug := Str.take 100 (Str.last (Str.split "/" url)) in
  logging INFO >>
  emit (EvGetPost url) >>
  let* post_html_content := lift (http_get_post E url) in
  let* metadata := extract_metadata_from_post post_html_content url in
  let* content_title := lift (doc_title E post_html_content) in
  let* metadata := resolve_title url metadata content_title in
  let* content_html_summary := lift (doc_summary E post_html_content) in
  let* post_assets_slug :=
    if truthy (title metadata) && negb (is_str (title metadata) "Untitled Post")
    then slugify_value (title metadata) else ret url_slug in
  let post_assets_slug :=
    if nonempty post_assets_slug then post_assets_slug
    else "post_" +:+ url_slug in
  let* content_html_summary :=
    if download_images_flag then
      let post_specific_assets_dir :=
        path_join (path_join output_dir config_assets_dir_name) post_assets_slug in
      download_images_and_rewrite_paths content_html_summary url
        post_specific_assets_dir post_assets_slug config_assets_dir_name
    else ret content_html_summary in
  ret (metadata, content_html_summary, url_slug).

(** Lines 603-726: the file name parts, then one render per format. *)
Definition render_post (metadata : metadata) (content_html_summary url_slug
    output_dir : string) (formats_to_save : list string) : M unit :=
  let* formatted_date_prefix := filename_date_prefix metadata in
  let* clean_slug :=
    if truthy (title metadata) then slugify_value (title metadata)
    else ret url_slug in
  for_each (render_format metadata content_html_summary output_dir
              formatted_date_prefix clean_slug) formats_to_save.

(** Lines 572-732: the body of the outer [try]. *)
Definition process_post_body (url output_dir : string)
    (formats_to_save : list string) (download_images_flag : bool)
    (config_assets_dir_name : string) (incremental_flag : bool)
    (download_log_path : string) : M bool :=
  let* (metadata, content_html_summary, url_slug) :=
    prepare_post url output_dir download_images_flag config_assets_dir_name in
  render_post metadata content_html_summary url_slug output_dir formats_to_save >>
  sleep >>
  (if incremental_flag then save_to_download_log download_log_path url
   else ret tt) >>
  ret true.

Definition process_single_post (url output_dir : string)
    (formats_to_save : list string) (download_images_flag : bool)
    (config_assets_dir_name : string) (incremental_flag : bool)
    (download_log_path : string) : M bool :=
  let* processed := get_set in
  if incremental_flag && bool_decide (url ∈ processed) then
    logging INFO >> ret true
  else
    try_except
      (process_post_body url output_dir formats_to_save download_images_flag
         config_assets_dir_name incremental_flag download_log_path)
      (λ e, logging ERROR >> ret false).

(* ===================================================================== *)
(** * Run orchestrator  (main.py 741-838) *)
(* ===================================================================== *)

(** The parsed command line, as far as [cli] reads it (the delay only
    sets the length of the sleeps). *)
Record args : Type := mkArgs {
  substack_urls : list string;
  formats : string;
  output_dir : string;
  download_images : bool;
  incremental : bool;
  assets_dir_name : string
}.

Record counts : Type := mkCounts {
  successful_downloads : nat;
  skipped_downloads : nat;
  failed_downloads : nat
}.

(** Lines 809-833: [for i, url in enumerate(all_post_urls)]. *)
Fixpoint process_posts (a : args) (formats_to_save : list string)
    (current_output_dir download_log_file : string)
    (all_post_urls : list string) (c : counts) : M counts :=
  match all_post_urls with
  | [] => ret c
  | url :: rest =>
      logging INFO >>
      let* processed := get_set in
      if incremental a && bool_decide (url ∈ processed) then
        logging INFO >>
        process_posts a formats_to_save current_output_dir download_log_file rest
          (mkCounts (successful_downloads c) (S (skipped_downloads c))
                    (failed_downloads c))
      else
        let* success :=
          process_single_post url current_output_dir formats_to_save
            (download_images a) (assets_dir_name a) (incremental a)
            download_log_file in
        process_posts a formats_to_save current_output_dir download_log_file rest
          (if success : bool
           then mkCounts (S (successful_downloads c)) (skipped_downloads c)
                         (failed_downloads c)
           else mkCounts (successful_downloads c) (skipped_downloads c)
                         (S (failed_downloads c)))
  end.

Definition no_counts : counts := mkCounts 0 0 0.

(** Lines 790-796: a fresh set, replaced by the loaded one. *)
Definition open_log (a : args) (current_output_dir : string) : M string :=
  put_set ∅ >>
  if incremental a then
    logging INFO >>
    let download_log_file := path_join current_output_dir ".download_log.json" in
    let* loaded := load_download_log download_log_file in
    put_set loaded >>
    logging INFO >>
    ret download_log_file
  else ret "".

(** Lines 798-836: discovery and the loop over the posts of one source.
    [None]: the archive walk ran out of fuel. *)
Definition crawl_substack (fuel : nat) (a : args) (formats_to_save : list string)
    (current_output_dir download_log_file normalized_url : string)
    : M (option counts) :=
  let* found := get_all_post_urls fuel normalized_url in
  match found with
  | None => ret None
  | Some all_post_urls =>
      logging INFO >>
      match all_post_urls with
      | [] => logging INFO >> ret (Some no_counts)
      | _ =>
          let* c := process_posts a formats_to_save current_output_dir
                      download_log_file all_post_urls no_counts in
          logging INFO >> logging INFO >> ret (Some c)
      end
  end.

(** Lines 771-779: one directory per source when there are several. *)
Definition substack_output_dir (a : args) (substack_idx : nat)
    (current_substack_url : string) : M string :=
  if (1 <? length (substack_urls a))%nat then
    try_except
      (let* substack_domain := lift (url_netloc E current_substack_url) in
       let substack_slug :=
         if nonempty substack_domain then slugify E substack_domain
         else "substack_" +:+ pretty (substack_idx + 1)%nat in
       ret (path_join (output_dir a) substack_slug))
      (λ e, logging WARNING >>
            ret (path_join (output_dir a)
                   ("substack_" +:+ pretty (substack_idx + 1)%nat)))
  else ret (output_dir a).

(** Lines 762-836: the body of [for substack_idx, current_substack_url]. *)
Definition process_substack (fuel : nat) (a : args) (formats_to_save : list string)
    (substack_idx : nat) (current_substack_url : string) : M (option counts) :=
  if negb (nonempty current_substack_url) then
    logging WARNING >> ret (Some no_counts)
  else
    (if (0 <? substack_idx)%nat then logging INFO else ret tt) >>
    logging INFO >>
    let* current_output_dir :=
      substack_output_dir a substack_idx current_substack_url in
    makedirs current_output_dir >>
    let normalized_url := Str.rstrip_char "/" current_substack_url +:+ "/" in
    logging INFO >> logging INFO >> logging INFO >> logging INFO >>
    let* download_log_file := open_log a current_output_dir in
    crawl_substack fuel a formats_to_save current_output_dir download_log_file
      normalized_url.

Fixpoint cli_loop (fuel : nat) (a : args) (formats_to_save : list string)
    (substack_idx : nat) (urls : list string) : M (option (list counts)) :=
  match urls with
  | [] => ret (Some [])
  | current_substack_url :: rest =>
      let* r := process_substack fuel a formats_to_save substack_idx
                  current_substack_url in
      match r with
      | None => ret None
      | Some c =>
          let* rs := cli_loop fuel a formats_to_save (S substack_idx) rest in
          ret (cons c <$> rs)
      end
  end.

Definition cli (fuel : nat) (a : args) : M (option (list counts)) :=
  logging INFO >> logging INFO >>
  let formats_to_save :=
    (λ f, Str.lower (Str.strip f)) <$> Str.split "," (formats a) in
  let* r := cli_loop fuel a formats_to_save 0 (substack_urls a) in
  logging INFO >> ret r.

End Program.

(* ===================================================================== *)
(** * A small concrete world, for running the program *)
(* ===================================================================== *)

Module Demo.

Definition site : string := "https://s.test".

Definition join_url (base href : string) : string :=
  if Str.startswith "http" href || Str.startswith "data:" href then href
  else site +:+ href.

Definition parse_date (s : string) : option date :=
  if bool_decide (s = "2023-01-01") || Str.startswith "2023-01-01T" s
  then Some (mkDate 2023 1 1) else None.

(** The part of a file name before and after its last dot. *)
Definition split_ext (name : string) : string * string :=
  match reverse (Str.split "." name) with
  | [] | [_] => (name, "")
  | ext :: _ =>
      (Str.take (String.length name - String.length ext - 1) name, "." +:+ ext)
  end.

Definition basename (u : string) : string := Str.last (Str.split "/" u).

(** A world is fixed by what the network answers, what the pages hold,
    what pandoc does and which paths can be written. *)
Definition env
    (archive : string → result archive_page)
    (posts : string → result string)
    (images : string → result response)
    (json_ld : string → option (option string))
    (loads : string → option json)
    (meta : string → meta_selector → option (option string))
    (imgs : string → list img_tag)
    (converter : string → string → result string)
    (writable : string → bool) : Env :=
  {| http_get_archive := archive;
     http_get_post := posts;
     http_get_image := images;
     urljoin := join_url;
     is_post_link := λ _ u, Str.startswith "https://s.test/p/" u;
     url_netloc := λ _, Ok "s.test";
     url_basename := basename;
     splitext := split_ext;
     guess_extension := λ _, Some ".png";
     soup_json_ld := json_ld;
     soup_meta := meta;
     soup_article_tags := λ _, [];
     soup_images := imgs;
     soup_str := λ html _, html;
     json_loads := loads;
     json_dumps := λ _, "{}";
     yaml_dump := λ _, "";
     fromisoformat := parse_date;
     strptime_long := λ _, None;
     now := mkDate 2026 11 3;
     doc_title := λ _, Ok "Post";
     doc_summary := λ html, Ok html;
     markdownify := λ s, s;
     slugify := Str.lower;
     py_str := λ _, "None";
     pandoc := converter;
     write_ok := writable;
     mkdir_ok := λ _, true |}.

Definition st0 : state := mkState ∅ ∅ [].

(** An archive of one page that lists the posts a and b; page 2 repeats
    page 1. *)
Definition archive_ab (u : string) : result archive_page :=
  Ok (mkArchivePage [Some "/p/a"; Some "/p/b?utm=1"; None] []).

Definition no_json_ld (html : string) : option (option string) := None.
Definition no_meta (html : string) (sel : meta_selector)
    : option (option string) := None.
Definition dated_meta (html : string) (sel : meta_selector)
    : option (option string) :=
  match sel with
  | MetaArticlePublishedTime => Some (Some "2023-01-01T12:00:00.000Z")
  | _ => None
  end.
Definition no_imgs (html : string) : list img_tag := [].
Definition pandoc_ok (src fmt : string) : result string := Ok "binary".
Definition pandoc_fails (src fmt : string) : result string :=
  Raise (PandocFailure false).
Definition all_posts (u : string) : result string := Ok "<p>text</p>".
Definition no_images (u : string) : result response := Raise (HTTPError 404).
Definition always (p : string) : bool := true.

End Demo.

(* ===================================================================== *)
(** * Vocabulary of the statements *)
(* ===================================================================== *)

(** The state with some more effects recorded. *)
Definition add_events (st : state) (evs : list event) : state :=
  mkState (fs st) (processed_urls_set st) (trace st ++ evs).

(** A computation keeps the relation [R] between the state it starts in
    and the state it ends in, whatever it returns or raises. *)
Definition preserves (R : relation state) {A} (m : M A) : Prop :=
  ∀ st r st', m st = (r, st') → R st st'.

(** The kinds of steps a relation may or may not tolerate: an effect
    other than the request for a post, the request for a post, a change of
    the file tree, a change of the processed set. *)
Definition not_post_fetch (ev : event) : Prop :=
  match ev with
  | EvGetPost _ => False
  | _ => True
  end.

Class EmitFrame (R : relation state) : Prop :=
  emit_frame : ∀ st ev, not_post_fetch ev → R st (add_events st [ev]).

Class PostFrame (R : relation state) : Prop :=
  post_frame : ∀ st u, R st (add_events st [EvGetPost u]).

Class FsFrame (R : relation state) : Prop := {
  fs_frame_file : ∀ st p c,
    fs st !! p ≠ Some Dir →
    R st (mkState (<[p := File c]> (fs st)) (processed_urls_set st) (trace st));
  fs_frame_dir : ∀ st p,
    fs st !! p = None →
    R st (mkState (<[p := Dir]> (fs st)) (processed_urls_set st) (trace st));
  fs_frame_delete : ∀ st p c,
    fs st !! p = Some (File c) →
    R st (mkState (delete p (fs st)) (processed_urls_set st) (trace st))
}.

Class SetFrame (R : relation state) : Prop :=
  set_frame : ∀ st s, R st (mkState (fs st) s (trace st)).

(** ... or only the addition of a URL to the processed set. *)
Class GrowFrame (R : relation state) : Prop :=
  grow_frame : ∀ st u,
    R st (mkState (fs st) ({[u]} ∪ processed_urls_set st) (trace st)).

(** Effects are only ever added. *)
Definition trace_extends : relation state :=
  λ st st', ∃ evs, trace st' = trace st ++ evs.

(** A directory stays a directory. *)
Definition keeps_dirs : relation state :=
  λ st st', ∀ d, fs st !! d = Some Dir → fs st' !! d = Some Dir.

(** The live processed set is not touched. *)
Definition same_set : relation state :=
  λ st st', processed_urls_set st' = processed_urls_set st.

(** The file tree is not touched. *)
Definition same_fs : relation state :=
  λ st st', fs st' = fs st.

(** The live processed set only grows. *)
Definition set_grows : relation state :=
  λ st st', processed_urls_set st ⊆ processed_urls_set st'.

(** No post is requested. *)
Definition no_post_fetched : relation state :=
  λ st st', ∃ evs, trace st' = trace st ++ evs ∧ Forall not_post_fetch evs.

Module DemoLog.
Import Demo.
Definition world : Env :=
  env archive_ab all_posts no_images no_json_ld (λ _, None) dated_meta
      no_imgs pandoc_ok always.
Definition log_path : string := "out/.download_log.json".
(** A log file that is not JSON. *)
Definition garbled : state :=
  mkState {[ log_path := File (Text "not json at all") ]} ∅ [].
End DemoLog.

(** The structured-data block of the specification's example. *)
Definition example_block : json :=
  JObj [("headline", JStr "T");
        ("author", JObj [("name", JStr "A")]);
        ("datePublished", JStr "2023-01-01T12:00:00Z");
        ("keywords", JStr "x, y")].

Module DemoMeta.
Import Demo.
Definition json_ld (html : string) : option (option string) :=
  Some (Some "structured-data").
Definition loads (s : string) : option json :=
  if decide (s = "structured-data") then Some example_block else None.
(** A page whose only metadata is the example block. *)
Definition world : Env :=
  env archive_ab all_posts no_images json_ld loads no_meta no_imgs
      pandoc_ok always.
End DemoMeta.

Module DemoAssets.
Import Demo.
(** A fragment whose only image is an inline data URI. *)
Definition inline_img (html : string) : list img_tag :=
  [mkImg (Some "data:image/png;base64,AAAA") "alt=x"].
Definition world : Env :=
  env archive_ab all_posts no_images no_json_ld (λ _, None) dated_meta
      inline_img pandoc_ok always.
Definition dest_dir : string := "out/assets/post".
Definition after : state :=
  (download_images_and_rewrite_paths world "<p><img></p>"
     "https://s.test/p/a" dest_dir "post" "assets" st0).2.
End DemoAssets.


(** The names the collision loop of the localizer tries, in order:
    name.ext, name_1.ext, name_2.ext, ... *)
Definition candidate (base ext : string) (k : nat) : string :=
  match k with
  | O => base +:+ ext
  | S _ => base +:+ "_" +:+ pretty k +:+ ext
  end.

Module DemoCollision.
Import Demo.
(** A fragment with two images whose file names differ only in case. *)
Definition tag1 : img_tag := mkImg (Some "https://cdn.test/a/photo.png") "alt=1".
Definition tag2 : img_tag := mkImg (Some "https://cdn.test/b/Photo.png") "alt=2".
Definition two_imgs (html : string) : list img_tag := [tag1; tag2].
Definition fetch_image (u : string) : result response :=
  if decide (u = "https://cdn.test/a/photo.png")
  then Ok (mkResponse (Some "image/png") "first")
  else Ok (mkResponse None "second").
Definition world : Env :=
  env archive_ab all_posts fetch_image no_json_ld (λ _, None) dated_meta
      two_imgs pandoc_ok always.
Definition dest_dir : string := "out/assets/post".
(** The world once the destination directory is there. *)
Definition st1 : state :=
  mkState {[ dest_dir := Dir ]} ∅ [EvMkdir dest_dir].
End DemoCollision.

(** The dictionary the extractor reads the structured-data fields from;
    empty when the page has no block or the block does not parse. *)
Definition json_ld_fields (E : Env) (html : string) : list (string * json) :=
  match soup_json_ld E html with
  | Some script =>
      match parse_json_ld E script with
      | Ok v => select_json_ld v
      | Raise _ => []
      end
  | None => []
  end.

(** The meta elements a published date is taken from (main.py 182-184). *)
Definition date_selectors : list meta_selector :=
  [MetaArticlePublishedTime; MetaOgPublishedTime; MetaCxensePublishTime].

(** The post is not skipped by the incremental check (main.py 567). *)
Definition not_skipped (incremental_flag : bool) (url : string) (st : state)
    : Prop :=
  incremental_flag && bool_decide (url ∈ processed_urls_set st) = false.

Definition count_failed (c : counts) : counts :=
  mkCounts (successful_downloads c) (skipped_downloads c)
           (S (failed_downloads c)).

Definition count_successful (c : counts) : counts :=
  mkCounts (S (successful_downloads c)) (skipped_downloads c)
           (failed_downloads c).

Definition count_skipped (c : counts) : counts :=
  mkCounts (successful_downloads c) (S (skipped_downloads c))
           (failed_downloads c).

Module DemoUndated.
Import Demo.
(** Posts whose pages carry no published date anywhere. *)
Definition world : Env :=
  env archive_ab all_posts no_images no_json_ld (λ _, None) no_meta no_imgs
      pandoc_ok always.
Definition run : args := mkArgs [site] "md,json" "out" false true "assets".
End DemoUndated.

(** How many URLs the orchestrator has accounted for. *)
Definition total (c : counts) : nat :=
  successful_downloads c + skipped_downloads c + failed_downloads c.

(** The formats whose payload the program writes itself (main.py 723). *)
Definition written_directly (fmt : string) : Prop :=
  fmt ∈ ["md"; "html"; "json"].

(** [{prefix}_{slug}.{fmt}] under the output directory (main.py 617-618). *)
Definition output_path (output_dir prefix slug fmt : string) : string :=
  path_join output_dir (prefix +:+ "_" +:+ slug +:+ "." +:+ fmt).

Module DemoOffline.
Import Demo.
(** Every post request fails. *)
Definition no_posts (u : string) : result string := Raise ConnectionError.
Definition world : Env :=
  env archive_ab no_posts no_images no_json_ld (λ _, None) dated_meta no_imgs
      pandoc_ok always.
Definition run : args := mkArgs [site] "md" "out" false true "assets".
End DemoOffline.

Module DemoNoPandoc.
Import Demo.
(** Dated posts, and a converter that always fails. *)
Definition world : Env :=
  env archive_ab all_posts no_images no_json_ld (λ _, None) dated_meta no_imgs
      pandoc_fails always.
Definition run : args := mkArgs [site] "pdf" "out" false true "assets".
Definition url : string := "https://s.test/p/a".
Definition log_path : string := "out/.download_log.json".
(** One post processed with pdf as the only format. *)
Definition outcome : result bool * state :=
  process_single_post world url "out" ["pdf"] false "assets" true log_path st0.
End DemoNoPandoc.

(** A computation that neither reads nor changes the world: from every
    state it returns the same result, and all it does is record the same
    effects, none of them the request for a post. *)
Definition oblivious {A} (m : M A) : Prop :=
  ∃ r evs, Forall not_post_fetch evs ∧ ∀ st, m st = (r, add_events st evs).

(** What [load_download_log] makes of the file tree [f]: the result and
    the effects (a warning, or none). *)
Definition load_view (E : Env) (p : string) (f : gmap string node)
    : result (gset string) * list event :=
  match f !! p with
  | Some (File c) =>
      match match c with
            | Json j => Some j
            | Text s => json_loads E s
            end with
      | Some (JObj d) =>
          (set_of (dict_get_default d "processed_urls" (JArr [])), [])
      | Some _ => (Raise AttributeError, [])
      | None => (Ok ∅, [EvLog WARNING])
      end
  | Some Dir => (Raise OSError, [])
  | None => (Ok ∅, [])
  end.

(** In the file tree [f], the log file at [p] loads as the set [s]. *)
Definition loads_as (E : Env) (p : string) (f : gmap string node)
    (s : gset string) : Prop :=
  (load_view E p f).1 = Ok s.

(** The second state has the file tree of the first and no post was
    requested on the way (the live set may differ). *)
Definition quietly : relation state :=
  λ st st', fs st' = fs st ∧ no_post_fetched st st'.

(** The log file of a source (main.py 794). *)
Definition log_file_of (current_output_dir : string) : string :=
  path_join current_output_dir ".download_log.json".

Module DemoRerun.
Import Demo.
(** The state a first run over [DemoLog.world] ends in. *)
Definition run : args := mkArgs [site] "md" "out" false true "assets".
Definition first : result (option counts) * state :=
  process_substack DemoLog.world 3 run ["md"] 0 site st0.
(** The same for a source none of whose posts can be fetched, and the
    second run that follows it. *)
Definition offline_first : state :=
  (process_substack DemoOffline.world 3 run ["md"] 0 site st0).2.
Definition offline_second : result (option counts) * state :=
  process_substack DemoOffline.world 3 run ["md"] 0 site
    (mkState (fs offline_first) (processed_urls_set offline_first) []).
End DemoRerun.

(* ===================================================================== *)
(** * Configuration loader  (main.py 18-39) *)
(* ===================================================================== *)

(** [d[k] = v] on a dictionary that keeps its insertion order. *)
Fixpoint dict_set (d : list (string * json)) (k : string) (v : json)
    : list (string * json) :=
  match d with
  | [] => [(k, v)]
  | (k', v') :: d' =>
      if decide (k' = k) then (k', v) :: d' else (k', v') :: dict_set d' k v
  end.

(** [{**a, **b}]. *)
Definition dict_merge (a b : list (string * json)) : list (string * json) :=
  foldl (λ acc kv, dict_set acc kv.1 kv.2) a b.

Definition DEFAULT_CONFIG : list (string * json) :=
  [("substack_urls", JArr []);
   ("formats", JArr [JStr "md"; JStr "json"]);
   ("output_dir", JStr "substack_posts");
   ("download_images", JBool true);
   ("incremental", JBool false);
   ("delay", JNum 1);
   ("assets_dir_name", JStr "assets")].

(** What [yaml.safe_load] does with an open file: it returns the
    document, raises a [yaml.YAMLError], or raises something else (reading
    bytes that do not decode is a [UnicodeDecodeError]).  A mapping is
    taken to have string keys. *)
Inductive yaml_outcome : Type :=
| YamlDoc (user_config : json)
| YamlError
| YamlRaises (e : exn).

Section Config.

Variable yaml_safe_load : content → yaml_outcome.

(** [config_path] is [None] when no path is given.  Only a
    [yaml.YAMLError] is handled: unpacking a value that is not a mapping
    is a [TypeError], and that and any other exception of the loader
    leave the function. *)
Definition load_config (config_path : option string)
    : M (list (string * json)) :=
  match config_path with
  | Some p =>
      let* ex := path_exists p in
      if nonempty p && ex then
        let* f := get_fs in
        match f !! p with
        | Some (File c) =>
            match yaml_safe_load c with
            | YamlDoc user_config =>
                if truthy user_config then
                  match user_config with
                  | JObj d => ret (dict_merge DEFAULT_CONFIG d)
                  | _ => raise TypeError
                  end
                else ret DEFAULT_CONFIG
            | YamlError => logging ERROR >> ret DEFAULT_CONFIG
            | YamlRaises e => raise e
            end
        | _ => raise OSError
        end
      else ret DEFAULT_CONFIG
  | None => ret DEFAULT_CONFIG
  end.

End Config.

(* ===================================================================== *)
(** * The feed script  (src/main.py) *)
(* ===================================================================== *)

Module Feed.

(** Line 23: [title.replace(" ", "_").replace("/", "-").strip()[:100]]. *)
Definition slug (title : string) : string :=
  Str.take 100 (Str.strip (Str.replace "/" "-" (Str.replace " " "_" title))).

(** Line 40: [os.path.join(SAVE_DIR, f"{slug}.{ext}")]. *)
Definition filepath (save_dir title ext : string) : string :=
  path_join save_dir (slug title +:+ "." +:+ ext).

End Feed.

(* ===================================================================== *)
(** * More vocabulary *)
(* ===================================================================== *)

(** The character [c] occurs in [s]. *)
Fixpoint has_char (c : ascii) (s : string) : bool :=
  match s with
  | EmptyString => false
  | String c' s' => bool_decide (c' = c) || has_char c s'
  end.

(** The post URLs of archive page [k]; none when the request fails. *)
Definition page_set (E : Env) (substack_url : string) (k : nat) : gset string :=
  match http_get_archive E (archive_url substack_url k) with
  | Ok pg => page_urls E substack_url (links_of pg)
  | Raise _ => ∅
  end.

(** The post URLs of the [n] archive pages from page [k] on. *)
Fixpoint pages_from (E : Env) (substack_url : string) (k n : nat)
    : gset string :=
  match n with
  | O => ∅
  | S n' => page_set E substack_url k ∪ pages_from E substack_url (S k) n'
  end.

(** The level the archive walker reports a failed request at
    (main.py 258-269). *)
Definition archive_failure_level (e : exn) : level :=
  match e with
  | HTTPError status => if decide (status = 404%Z) then INFO else ERROR
  | _ => ERROR
  end.

(** No path that is there is lost or changed. *)
Definition fs_grows : relation state :=
  λ st st', fs st ⊆ fs st'.

(** Only paths in [P] are created, changed or removed. *)
Definition touches_only (P : string → Prop) : relation state :=
  λ st st', ∀ p, ¬ P p → fs st' !! p = fs st !! p.

(** The paths one render of a format may touch once the directory of
    the output file is there: the output file and the temporary HTML
    file. *)
Definition render_paths (output_dir prefix slug fmt : string) (p : string)
    : Prop :=
  p = output_path output_dir prefix slug fmt
  ∨ p = temp_html_path_of output_dir prefix slug.

(** A path of the shape of the temporary HTML file of some post. *)
Definition is_temp_html (p : string) : Prop :=
  ∃ output_dir prefix slug, p = temp_html_path_of output_dir prefix slug.

(** Apart from temporary HTML files, what is there stays there (files
    may be rewritten). *)
Definition keeps_paths : relation state :=
  λ st st', ∀ p, ¬ is_temp_html p → is_Some (fs st !! p) → is_Some (fs st' !! p).

(** The effects of a pdf/epub render whose conversion raises [e]. *)
Definition failed_render_events (temp fmt filepath : string) (e : exn)
    : list event :=
  [EvWrite temp; EvPandoc temp fmt filepath; EvLog ERROR]
  ++ match e with
     | PandocFailure true => [EvLog ERROR]
     | _ => []
     end
  ++ [EvRemove temp].

(** The posts requested, in order. *)
Definition post_requests (evs : list event) : list string :=
  omap (λ ev, match ev with EvGetPost u => Some u | _ => None end) evs.

Module DemoPlain.
Import Demo.
(** A run without the incremental log. *)
Definition run : args := mkArgs [site] "md" "out" false false "assets".
(** A tree that holds a file of the user's next to the output directory. *)
Definition st_notes : state :=
  mkState {[ "out" := Dir; "notes" := File (Text "mine") ]} ∅ [].
End DemoPlain.

Module DemoSeen.
Import Demo.
(** The first of the two posts is in the processed set already. *)
Definition st_seen : state :=
  mkState {[ "out" := Dir ]} {[ "https://s.test/p/a" ]} [].
End DemoSeen.

Module DemoConfig.
Import Demo.
Definition parse (c : content) : yaml_outcome :=
  match c with
  | Text "formats: [pdf]" => YamlDoc (JObj [("formats", JArr [JStr "pdf"])])
  | Text "- a" => YamlDoc (JArr [JStr "a"])
  | Text "" => YamlDoc JNull
  | _ => YamlError
  end.
Definition st_config : state :=
  mkState {[ "config.yaml" := File (Text "formats: [pdf]") ]} ∅ [].
Definition st_list : state :=
  mkState {[ "config.yaml" := File (Text "- a") ]} ∅ [].
Definition st_garbled : state :=
  mkState {[ "config.yaml" := File (Text ": :") ]} ∅ [].
End DemoConfig.

Module DemoReadOnly.
Import Demo.
(** Everything can be written but the log file. *)
Definition world : Env :=
  env archive_ab all_posts no_images no_json_ld (λ _, None) dated_meta no_imgs
      pandoc_ok (λ p, bool_decide (p ≠ "out/.download_log.json")).
Definition st_out : state := mkState {[ "out" := Dir ]} ∅ [].
End DemoReadOnly.

Module DemoMissing.
Import Demo.
(** A source whose archive answers 404. *)
Definition world : Env :=
  env (λ _, Raise (HTTPError 404)) all_posts no_images no_json_ld (λ _, None)
      dated_meta no_imgs pandoc_ok always.
End DemoMissing.

Module DemoOccupied.
Import Demo.
(** The asset directory of a post, with a file of the name the first
    image would get. *)
Definition st_taken : state :=
  mkState {[ "out/assets/post" := Dir;
             "out/assets/post/photo.png" := File (Text "kept") ]} ∅ [].
End DemoOccupied.

Module DemoSibling.
Import Demo.
(** A page without structured data whose published-time meta element
    holds the timestamp of the example block. *)
Definition stamped_meta (html : string) (sel : meta_selector)
    : option (option string) :=
  match sel with
  | MetaArticlePublishedTime => Some (Some "2023-01-01T12:00:00Z")
  | _ => None
  end.
Definition world : Env :=
  env archive_ab all_posts no_images no_json_ld (λ _, None) stamped_meta
      no_imgs pandoc_ok always.
End DemoSibling.

Module DemoShape.
Import Demo.
(** A log file that holds a JSON list instead of an object. *)
Definition loads (s : string) : option json :=
  if decide (s = "[]") then Some (JArr []) else None.
Definition world : Env :=
  env archive_ab all_posts no_images no_json_ld loads dated_meta no_imgs
      pandoc_ok always.
Definition listed : state :=
  mkState {[ "out/.download_log.json" := File (Text "[]") ]} ∅ [].
(** The same log inside its output directory. *)
Definition st_run : state :=
  mkState {[ "out" := Dir; "out/.download_log.json" := File (Text "[]") ]}
    ∅ [].
End DemoShape.

(* ===================================================================== *)
(** * Reasoning about strings and paths *)
(* ===================================================================== *)

Lemma app_cons c s t : String c s +:+ t = String c (s +:+ t).
Proof. reflexivity. Qed.

Lemma app_nil_l t : "" +:+ t = t.
Proof. reflexivity. Qed.

Lemma length_app s t :
  String.length (s +:+ t) = String.length s + String.length t.
Proof.
  induction s as [|c s IH]; [done|].
  rewrite app_cons. simpl. by rewrite IH.
Qed.

Lemma app_inj_r s1 s2 t : s1 +:+ t = s2 +:+ t → s1 = s2.
Proof.
  revert s2. induction s1 as [|c s1 IH]; intros [|c2 s2] H; [done| | |].
  - apply (f_equal String.length) in H.
    rewrite app_nil_l, app_cons in H. simpl in H. rewrite length_app in H. lia.
  - apply (f_equal String.length) in H.
    rewrite app_nil_l, app_cons in H. simpl in H. rewrite length_app in H. lia.
  - rewrite !app_cons in H. injection H as -> H. f_equal. by apply IH.
Qed.

Lemma nonempty_length s : nonempty s = true ↔ 0 < String.length s.
Proof.
  unfold nonempty. destruct s as [|c s].
  - split; [done | simpl; lia].
  - rewrite bool_decide_eq_false_2 by done. simpl. split; [lia | done].
Qed.

Lemma path_join_length a b :
  String.length b ≤ String.length (path_join a b).
Proof.
  unfold path_join. repeat case_match; rewrite ?length_app; lia.
Qed.

Lemma temp_html_path_nonempty o p s :
  nonempty (temp_html_path_of o p s) = true.
Proof.
  apply nonempty_length. unfold temp_html_path_of.
  eapply Nat.lt_le_trans; [| apply path_join_length].
  rewrite !length_app. simpl. lia.
Qed.

(* ===================================================================== *)
(** * Reasoning about the monad *)
(* ===================================================================== *)

Lemma add_events_nil st : add_events st [] = st.
Proof. destruct st. unfold add_events. simpl. by rewrite app_nil_r. Qed.

Lemma add_events_app st e1 e2 :
  add_events (add_events st e1) e2 = add_events st (e1 ++ e2).
Proof. unfold add_events. simpl. by rewrite app_assoc. Qed.

Ltac unfold_monad :=
  unfold path_exists, logging, sleep in *;
  unfold bind, ret, raise, lift, try_except, emit,
    get_fs, put_fs, get_set, put_set in *.

(** Take a run apart: case analysis on every match it went through. *)
Ltac run_inv H :=
  unfold_monad; simpl in H;
  repeat (case_match; simpl in *; simplify_eq; try done).

Lemma bind_inv {A B} (m : M A) (k : A → M B) st r st' :
  bind m k st = (r, st') →
  (∃ a st1, m st = (Ok a, st1) ∧ k a st1 = (r, st')) ∨
  (∃ e, m st = (Raise e, st') ∧ r = Raise e).
Proof.
  unfold bind. destruct (m st) as [[a|e] st1]; intros H.
  - left. eauto.
  - right. simplify_eq. eauto.
Qed.

Lemma bind_ok_inv {A B} (m : M A) (k : A → M B) st b st' :
  bind m k st = (Ok b, st') →
  ∃ a st1, m st = (Ok a, st1) ∧ k a st1 = (Ok b, st').
Proof.
  intros H. apply bind_inv in H as [H | (e & _ & ?)]; [done | discriminate].
Qed.

Lemma try_except_inv {A} (m : M A) (h : exn → M A) st r st' :
  try_except m h st = (r, st') →
  (∃ a, m st = (Ok a, st') ∧ r = Ok a) ∨
  (∃ e st1, m st = (Raise e, st1) ∧ h e st1 = (r, st')).
Proof.
  unfold try_except. destruct (m st) as [[a|e] st1]; intros H.
  - left. simplify_eq. eauto.
  - right. eauto.
Qed.

(** ** Relations every step of a computation keeps *)

Lemma preserves_run (R : relation state) {A} (m : M A) st r st' :
  preserves R m → m st = (r, st') → R st st'.
Proof. intros Hm Hrun. by eapply Hm. Qed.

Section Preserves.

Context (R : relation state) `{!PreOrder R}.

Lemma preserves_ret {A} (a : A) : preserves R (ret a).
Proof. intros st r st' H. unfold ret in H. simplify_eq. reflexivity. Qed.

Lemma preserves_raise {A} e : preserves R (@raise A e).
Proof. intros st r st' H. unfold raise in H. simplify_eq. reflexivity. Qed.

Lemma preserves_lift {A} (x : result A) : preserves R (lift x).
Proof. intros st r st' H. unfold lift in H. simplify_eq. reflexivity. Qed.

Lemma preserves_get_fs : preserves R get_fs.
Proof. intros st r st' H. unfold get_fs in H. simplify_eq. reflexivity. Qed.

Lemma preserves_get_set : preserves R get_set.
Proof. intros st r st' H. unfold get_set in H. simplify_eq. reflexivity. Qed.

Lemma preserves_path_exists p : preserves R (path_exists p).
Proof. intros st r st' H. unfold_monad. simpl in H. simplify_eq. reflexivity. Qed.

Lemma preserves_bind {A B} (m : M A) (k : A → M B) :
  preserves R m → (∀ a, preserves R (k a)) → preserves R (bind m k).
Proof.
  intros Hm Hk st r st' H.
  apply bind_inv in H as [(a & st1 & H1 & H2) | (e & H1 & _)].
  - etrans; [eapply Hm | eapply Hk]; eauto.
  - eapply Hm; eauto.
Qed.

Lemma preserves_try_except {A} (m : M A) (h : exn → M A) :
  preserves R m → (∀ e, preserves R (h e)) → preserves R (try_except m h).
Proof.
  intros Hm Hh st r st' H.
  apply try_except_inv in H as [(a & H1 & _) | (e & st1 & H1 & H2)].
  - eapply Hm; eauto.
  - etrans; [eapply Hm | eapply Hh]; eauto.
Qed.

Lemma preserves_for_each {A} (f : A → M unit) l :
  (∀ a, preserves R (f a)) → preserves R (for_each f l).
Proof.
  intros Hf. induction l as [|a l IH]; simpl.
  - apply preserves_ret.
  - apply preserves_bind; [apply Hf | intros _; apply IH].
Qed.

End Preserves.

Create HintDb pres discriminated.

#[global] Hint Resolve preserves_ret preserves_raise preserves_lift
  preserves_get_fs preserves_get_set preserves_path_exists : pres.

(** One step of a proof that a composite computation keeps a relation. *)
Ltac pres_step :=
  lazymatch goal with
  | |- preserves _ (bind _ _) =>
      refine (preserves_bind _ _ _ _ _); [| intros ?]
  | |- preserves _ (try_except _ _) =>
      refine (preserves_try_except _ _ _ _ _); [| intros ?]
  | |- preserves _ (for_each _ _) =>
      refine (preserves_for_each _ _ _ _); intros ?
  | |- preserves _ (if ?b then _ else _) => destruct b
  | |- preserves _ (match ?x with _ => _ end) => destruct x
  | |- preserves _ (let _ := _ in _) => cbv zeta
  end.

Ltac pres_auto :=
  repeat first [ solve [eauto with pres typeclass_instances] | pres_step ].

Section Frames.

Context (E : Env) (R : relation state) `{!PreOrder R}.

Lemma emit_frame_mk `{!EmitFrame R} f s t ev :
  not_post_fetch ev → R (mkState f s t) (mkState f s (t ++ [ev])).
Proof. apply (emit_frame (mkState f s t) ev). Qed.

Lemma preserves_emit `{!EmitFrame R} ev :
  not_post_fetch ev → preserves R (emit ev).
Proof.
  intros Hev st r st' H. unfold emit in H. simplify_eq.
  by apply (emit_frame st ev).
Qed.

Lemma preserves_emit_post `{!PostFrame R} u : preserves R (emit (EvGetPost u)).
Proof.
  intros st r st' H. unfold emit in H. simplify_eq. apply (post_frame st u).
Qed.

Lemma preserves_logging `{!EmitFrame R} lvl : preserves R (logging lvl).
Proof. by apply preserves_emit. Qed.

Lemma preserves_sleep `{!EmitFrame R} : preserves R sleep.
Proof. by apply preserves_emit. Qed.

Lemma preserves_put_set `{!SetFrame R} s : preserves R (put_set s).
Proof. intros st r st' H. unfold put_set in H. simplify_eq. apply set_frame. Qed.

Context `{!EmitFrame R} `{!FsFrame R}.

Lemma preserves_makedirs p : preserves R (makedirs E p).
Proof.
  intros st r st' H. unfold makedirs in H. run_inv H.
  etrans; [by apply fs_frame_dir | by apply emit_frame_mk].
Qed.

Lemma preserves_write_file p c : preserves R (write_file E p c).
Proof.
  intros st r st' H. unfold write_file in H. run_inv H.
  - etrans; [apply fs_frame_file | by apply emit_frame_mk]. congruence.
  - etrans; [apply fs_frame_file | by apply emit_frame_mk]. congruence.
Qed.

Lemma preserves_remove p : preserves R (remove p).
Proof.
  intros st r st' H. unfold remove in H. run_inv H.
  etrans; [by eapply fs_frame_delete | by apply emit_frame_mk].
Qed.

Lemma preserves_convert_file i f o : preserves R (convert_file E i f o).
Proof.
  intros st r st' H. unfold convert_file in H. run_inv H.
  all: etrans; [by apply (emit_frame st (EvPandoc i f o)) |].
  all: unfold add_events.
  all: first [ reflexivity
             | etrans; [apply fs_frame_file | by apply emit_frame_mk];
               simpl; congruence ].
Qed.

End Frames.

#[global] Hint Resolve preserves_emit preserves_emit_post preserves_logging
  preserves_sleep preserves_put_set preserves_makedirs preserves_write_file
  preserves_remove preserves_convert_file : pres.
#[global] Hint Extern 0 (not_post_fetch _) => exact I : pres.

(** ** Every function of the program keeps such a relation *)

Section ProgramFrames.

Context (E : Env) (R : relation state) `{!PreOrder R} `{!EmitFrame R}.

Lemma preserves_normalise_meta_date raw :
  preserves R (normalise_meta_date E raw).
Proof. unfold normalise_meta_date. pres_auto. Qed.

Lemma preserves_extract_metadata html u :
  preserves R (extract_metadata_from_post E html u).
Proof.
  unfold extract_metadata_from_post.
  pose proof preserves_normalise_meta_date. pres_auto.
Qed.

Lemma preserves_resolve_title u m t : preserves R (resolve_title u m t).
Proof. unfold resolve_title, py_len. pres_auto. Qed.

Lemma preserves_slugify_value v : preserves R (slugify_value E v).
Proof. unfold slugify_value. pres_auto. Qed.

Lemma preserves_filename_date_prefix m :
  preserves R (filename_date_prefix E m).
Proof. unfold filename_date_prefix. pres_auto. Qed.

Lemma preserves_unique_name d b x : preserves R (unique_name d b x).
Proof. unfold unique_name. pres_auto. Qed.

Lemma preserves_json_load c : preserves R (json_load E c).
Proof. unfold json_load. pres_auto. Qed.

Lemma preserves_load_download_log p : preserves R (load_download_log E p).
Proof.
  unfold load_download_log. pose proof preserves_json_load. pres_auto.
Qed.

Lemma preserves_archive_page_step u p all :
  preserves R (archive_page_step E u p all).
Proof. unfold archive_page_step. pres_auto. Qed.

Lemma preserves_walk_archive fuel u p all :
  preserves R (walk_archive E fuel u p all).
Proof.
  revert p all. induction fuel as [|fuel IH]; intros p all; simpl.
  - pres_auto.
  - pose proof preserves_archive_page_step. pres_auto.
Qed.

Lemma preserves_get_all_post_urls fuel u :
  preserves R (get_all_post_urls E fuel u).
Proof. unfold get_all_post_urls. pose proof preserves_walk_archive. pres_auto. Qed.

Context `{!FsFrame R}.

Lemma preserves_localize_image b d s a imgs tag :
  preserves R (localize_image E b d s a imgs tag).
Proof.
  unfold localize_image. pose proof preserves_unique_name. pres_auto.
Qed.

Lemma preserves_localize_loop b d s a done todo :
  preserves R (localize_loop E b d s a done todo).
Proof.
  revert done. induction todo as [|tag todo IH]; intros done; simpl.
  - pres_auto.
  - pose proof preserves_localize_image. pres_auto.
Qed.

Lemma preserves_download_images html b d s a :
  preserves R (download_images_and_rewrite_paths E html b d s a).
Proof.
  unfold download_images_and_rewrite_paths.
  pose proof preserves_localize_loop. pres_auto.
Qed.

Context `{!PostFrame R}.

Lemma preserves_prepare_post u o flag a :
  preserves R (prepare_post E u o flag a).
Proof.
  unfold prepare_post.
  pose proof preserves_extract_metadata. pose proof preserves_resolve_title.
  pose proof preserves_slugify_value. pose proof preserves_download_images.
  pres_auto.
Qed.

Lemma preserves_save_to_download_log `{!GrowFrame R} p u :
  preserves R (save_to_download_log E p u).
Proof.
  intros st r st' H. unfold save_to_download_log in H.
  unfold bind at 1 in H. unfold get_set at 1 in H.
  unfold bind at 1 in H. unfold put_set at 1 in H.
  etrans; [apply (grow_frame st u) |].
  eapply preserves_run; [| exact H]. pres_auto.
Qed.

Lemma preserves_render_pandoc m html o p s fmt path :
  preserves R (render_pandoc E m html o p s fmt path).
Proof. unfold render_pandoc. pres_auto. Qed.

Lemma preserves_render_format m html o p s fmt :
  preserves R (render_format E m html o p s fmt).
Proof. unfold render_format. pose proof preserves_render_pandoc. pres_auto. Qed.

Lemma preserves_render_post m html slug o fmts :
  preserves R (render_post E m html slug o fmts).
Proof.
  unfold render_post.
  pose proof preserves_filename_date_prefix. pose proof preserves_slugify_value.
  pose proof preserves_render_format. pres_auto.
Qed.

Context `{!GrowFrame R}.

Lemma preserves_process_post_body u o fmts flag a inc logp :
  preserves R (process_post_body E u o fmts flag a inc logp).
Proof.
  unfold process_post_body.
  pose proof preserves_prepare_post. pose proof preserves_render_post.
  pose proof preserves_save_to_download_log. pres_auto.
Qed.

Lemma preserves_process_single_post u o fmts flag a inc logp :
  preserves R (process_single_post E u o fmts flag a inc logp).
Proof.
  unfold process_single_post. pose proof preserves_process_post_body. pres_auto.
Qed.

Lemma preserves_process_posts a fmts o logp urls c :
  preserves R (process_posts E a fmts o logp urls c).
Proof.
  revert c. induction urls as [|u urls IH]; intros c; simpl.
  - pres_auto.
  - pose proof preserves_process_single_post. pres_auto.
Qed.

Lemma preserves_open_log `{!SetFrame R} a d : preserves R (open_log E a d).
Proof.
  unfold open_log. pose proof preserves_load_download_log. pres_auto.
Qed.

Lemma preserves_crawl_substack fuel a fmts d logp u :
  preserves R (crawl_substack E fuel a fmts d logp u).
Proof.
  unfold crawl_substack.
  pose proof preserves_get_all_post_urls. pose proof preserves_process_posts.
  pres_auto.
Qed.

End ProgramFrames.

(** ** The relations used below *)

#[global] Instance trace_extends_po : PreOrder trace_extends.
Proof.
  split.
  - intros st. exists []. by rewrite app_nil_r.
  - intros a b c [e1 H1] [e2 H2]. exists (e1 ++ e2).
    by rewrite H2, H1, app_assoc.
Qed.
#[global] Instance trace_extends_emit : EmitFrame trace_extends.
Proof. intros st ev _. by exists [ev]. Qed.
#[global] Instance trace_extends_post : PostFrame trace_extends.
Proof. intros st u. by exists [EvGetPost u]. Qed.
#[global] Instance trace_extends_fs : FsFrame trace_extends.
Proof. split; intros; exists []; simpl; by rewrite app_nil_r. Qed.
#[global] Instance trace_extends_set : SetFrame trace_extends.
Proof. intros st s. exists []. simpl. by rewrite app_nil_r. Qed.

#[global] Instance trace_extends_grow : GrowFrame trace_extends.
Proof. intros st u. exists []. simpl. by rewrite app_nil_r. Qed.

#[global] Instance keeps_dirs_po : PreOrder keeps_dirs.
Proof. split; unfold keeps_dirs; [by intros st | intros a b c H1 H2 d Hd; eauto]. Qed.
#[global] Instance keeps_dirs_emit : EmitFrame keeps_dirs.
Proof. by intros st ev _ d Hd. Qed.
#[global] Instance keeps_dirs_post : PostFrame keeps_dirs.
Proof. by intros st u d Hd. Qed.
#[global] Instance keeps_dirs_fs : FsFrame keeps_dirs.
Proof.
  split; intros st p; intros; intros d Hd; simpl.
  - rewrite lookup_insert_ne; [done | congruence].
  - rewrite lookup_insert_ne; [done | congruence].
  - rewrite lookup_delete_ne; [done | congruence].
Qed.
#[global] Instance keeps_dirs_set : SetFrame keeps_dirs.
Proof. by intros st s d Hd. Qed.

#[global] Instance keeps_dirs_grow : GrowFrame keeps_dirs.
Proof. by intros st u d Hd. Qed.

#[global] Instance same_set_po : PreOrder same_set.
Proof. split; unfold same_set; [done | intros a b c H1 H2; congruence]. Qed.
#[global] Instance same_set_emit : EmitFrame same_set.
Proof. by intros st ev _. Qed.
#[global] Instance same_set_post : PostFrame same_set.
Proof. by intros st u. Qed.
#[global] Instance same_set_fs : FsFrame same_set.
Proof. by split. Qed.

#[global] Instance same_fs_po : PreOrder same_fs.
Proof. split; unfold same_fs; [done | intros a b c H1 H2; congruence]. Qed.
#[global] Instance same_fs_emit : EmitFrame same_fs.
Proof. by intros st ev _. Qed.
#[global] Instance same_fs_post : PostFrame same_fs.
Proof. by intros st u. Qed.
#[global] Instance same_fs_set : SetFrame same_fs.
Proof. by intros st s. Qed.

#[global] Instance same_fs_grow : GrowFrame same_fs.
Proof. by intros st u. Qed.

#[global] Instance set_grows_po : PreOrder set_grows.
Proof.
  split; unfold set_grows.
  - intros st. reflexivity.
  - intros a b c H1 H2. by etrans.
Qed.
#[global] Instance set_grows_emit : EmitFrame set_grows.
Proof. intros st ev _. unfold set_grows. reflexivity. Qed.
#[global] Instance set_grows_post : PostFrame set_grows.
Proof. intros st u. unfold set_grows. reflexivity. Qed.
#[global] Instance set_grows_fs : FsFrame set_grows.
Proof. split; intros; unfold set_grows; reflexivity. Qed.
#[global] Instance set_grows_grow : GrowFrame set_grows.
Proof. intros st u. unfold set_grows. simpl. set_solver. Qed.

#[global] Instance no_post_fetched_po : PreOrder no_post_fetched.
Proof.
  split.
  - intros st. exists []. by rewrite app_nil_r.
  - intros a b c (e1 & H1 & F1) (e2 & H2 & F2). exists (e1 ++ e2).
    split; [by rewrite H2, H1, app_assoc | by apply Forall_app].
Qed.
#[global] Instance no_post_fetched_emit : EmitFrame no_post_fetched.
Proof. intros st ev Hev. exists [ev]. split; [done | by constructor]. Qed.
#[global] Instance no_post_fetched_fs : FsFrame no_post_fetched.
Proof. split; intros; exists []; simpl; by rewrite app_nil_r. Qed.
#[global] Instance no_post_fetched_set : SetFrame no_post_fetched.
Proof. intros st s. exists []. simpl. by rewrite app_nil_r. Qed.

(* ===================================================================== *)
(** * Incremental log: a file that is absent or is not JSON *)
(* ===================================================================== *)

(** X27.  The two cases [load_download_log] tolerates: it gives the
    empty set when the log file is absent; when the file holds text that
    [json.load] rejects with a [JSONDecodeError] it logs one warning and
    gives the empty set, without raising. *)
Theorem load_download_log_tolerant E log_file_path st :
  (fs st !! log_file_path = None →
   load_download_log E log_file_path st = (Ok ∅, st)) ∧
  (∀ s, fs st !! log_file_path = Some (File (Text s)) →
        json_loads E s = None →
        load_download_log E log_file_path st
        = (Ok ∅, add_events st [EvLog WARNING])).
Proof.
  split.
  - intros Hnone. unfold load_download_log. unfold_monad.
    rewrite Hnone. rewrite bool_decide_eq_false_2; [done |].
    by intros [? ?].
  - intros s Hfile Hbad. unfold load_download_log. unfold_monad.
    rewrite Hfile. rewrite bool_decide_eq_true_2 by eauto.
    rewrite Hfile. simpl. unfold_monad. by rewrite Hbad.
Qed.

Lemma load_download_log_tolerant_witness :
  load_download_log DemoLog.world "absent.json" DemoLog.garbled
  = (Ok ∅, DemoLog.garbled)
  ∧ load_download_log DemoLog.world DemoLog.log_path DemoLog.garbled
    = (Ok ∅, add_events DemoLog.garbled [EvLog WARNING]).
Proof.
  pose proof (load_download_log_tolerant DemoLog.world "absent.json"
                DemoLog.garbled) as [Habsent _].
  pose proof (load_download_log_tolerant DemoLog.world DemoLog.log_path
                DemoLog.garbled) as [_ Hbad].
  split.
  - apply Habsent. reflexivity.
  - apply (Hbad "not json at all"); reflexivity.
Defined.

(* ===================================================================== *)
(** * Post renderer: the temporary document *)
(* ===================================================================== *)

(** Lines 706-707 and 715-716: remove the temporary file if it is there. *)
Lemma cleanup_removes t st r st' :
  nonempty t = true →
  (let* ex := path_exists t in
   if nonempty t && ex then remove t else ret tt) st = (r, st') →
  is_file (fs st') t = false.
Proof.
  intros Ht H. rewrite Ht in H. unfold remove, is_file in *.
  unfold_monad. simpl in H.
  destruct (fs st !! t) as [[|c]|] eqn:Hl; simpl in H; rewrite ?Hl in H;
    simplify_eq; simpl; by rewrite ?Hl, ?lookup_delete_eq.
Qed.

(** C8: after a pdf or epub render attempt no file is left at the path
    of the temporary HTML document, whether the conversion succeeded or
    raised. *)
Theorem temp_html_removed E m html output_dir prefix slug fmt filepath st :
  is_file
    (fs (render_pandoc E m html output_dir prefix slug fmt filepath st).2)
    (temp_html_path_of output_dir prefix slug) = false.
Proof.
  pose proof (temp_html_path_nonempty output_dir prefix slug) as Hne.
  destruct (render_pandoc E m html output_dir prefix slug fmt filepath st)
    as [r st'] eqn:Hrun.
  simpl. unfold render_pandoc in Hrun.
  apply try_except_inv in Hrun as [(a & Hbody & _) | (e & st1 & _ & Hh)].
  - apply bind_ok_inv in Hbody as (? & s1 & _ & Hbody).
    apply bind_ok_inv in Hbody as (? & s2 & _ & Hbody).
    apply bind_ok_inv in Hbody as (? & s3 & _ & Hbody).
    by eapply cleanup_removes.
  - apply bind_inv in Hh as [(? & s1 & _ & Hh) | (? & Hh & _)];
      [| by unfold_monad].
    apply bind_inv in Hh as [(? & s2 & _ & Hh) | (? & Hh & _)].
    + by eapply cleanup_removes.
    + destruct e as [| | | | | | |[]|]; by unfold_monad.
Qed.

(* ===================================================================== *)
(** * Metadata extractor: the structured-data example *)
(* ===================================================================== *)

(** C2, as the code has it: for a page whose JSON-LD block is the example
    block, the extractor gives title "T", author "A", tags ["x"; "y"] and
    the published date as the block spells it, "2023-01-01T12:00:00Z"; it
    logs nothing. *)
Theorem extract_structured_data E html post_url script st :
  soup_json_ld E html = Some (Some script) →
  json_loads E script = Some example_block →
  extract_metadata_from_post E html post_url st
  = (Ok (mkMeta (JStr "T") (JStr "A") (JStr "2023-01-01T12:00:00Z")
                ["x"; "y"] post_url), st).
Proof.
  intros Hld Hjs.
  unfold extract_metadata_from_post, bind, try_except, lift, parse_json_ld.
  rewrite Hld, Hjs. reflexivity.
Qed.

Lemma extract_structured_data_witness :
  extract_metadata_from_post DemoMeta.world "<html>" "https://s.test/p/a"
    Demo.st0
  = (Ok (mkMeta (JStr "T") (JStr "A") (JStr "2023-01-01T12:00:00Z")
                ["x"; "y"] "https://s.test/p/a"), Demo.st0).
Proof.
  apply (extract_structured_data DemoMeta.world "<html>" "https://s.test/p/a"
           "structured-data"); reflexivity.
Defined.

(** C2 as stated fails: on that page the extractor does not give the
    published date "2023-01-01". *)
Lemma extract_structured_data_date_counterexample :
  ¬ ∃ st',
      extract_metadata_from_post DemoMeta.world "<html>" "https://s.test/p/a"
        Demo.st0
      = (Ok (mkMeta (JStr "T") (JStr "A") (JStr "2023-01-01") ["x"; "y"]
                    "https://s.test/p/a"), st').
Proof.
  intros [st' H]. vm_compute in H. discriminate.
Qed.

(* ===================================================================== *)
(** * Asset localizer: when the directory is created *)
(* ===================================================================== *)

Lemma try_except_ok {A} (m : M A) (h : exn → M A) :
  (∀ e st1, ∃ a st2, h e st1 = (Ok a, st2)) →
  ∀ st, ∃ a st', try_except m h st = (Ok a, st').
Proof.
  intros Hh st. unfold try_except.
  destruct (m st) as [[a|e] st1]; [eauto | apply Hh].
Qed.

Lemma localize_image_ok E b d s a imgs tag st :
  ∃ tag' st', localize_image E b d s a imgs tag st = (Ok tag', st').
Proof.
  unfold localize_image.
  destruct (img_src tag) as [src|]; [| by eexists _, _].
  destruct (negb (nonempty src)); [by eexists _, _ |].
  apply try_except_ok. intros e st1. by eexists _, _.
Qed.

Lemma localize_loop_ok E b d s a done todo st :
  ∃ imgs st', localize_loop E b d s a done todo st = (Ok imgs, st').
Proof.
  revert done st. induction todo as [|tag todo IH]; intros done st; simpl.
  - by eexists _, _.
  - unfold bind at 1.
    destruct (localize_image_ok E b d s a (done ++ tag :: todo) tag st)
      as (tag' & st1 & ->).
    apply IH.
Qed.

(** C9, as the code has it: the destination directory is created exactly
    when the fragment holds at least one [img] element, and then before
    anything else the localizer does (so before the first image write),
    whether or not an image is written afterwards. *)
Theorem asset_directory_created_for_any_img E html base_url dest_dir slug
    assets st :
  (soup_images E html = [] →
   download_images_and_rewrite_paths E html base_url dest_dir slug assets st
   = (Ok html, st)) ∧
  (soup_images E html ≠ [] →
   fs st !! dest_dir = None →
   mkdir_ok E dest_dir = true →
   ∃ html' st' evs,
     download_images_and_rewrite_paths E html base_url dest_dir slug assets st
     = (Ok html', st')
     ∧ trace st' = trace st ++ EvMkdir dest_dir :: evs
     ∧ fs st' !! dest_dir = Some Dir).
Proof.
  unfold download_images_and_rewrite_paths. split.
  - by intros ->.
  - intros Hne Hfree Hmk.
    destruct (soup_images E html) as [|tag tags] eqn:Himgs; [done |].
    set (st1 := mkState (<[dest_dir := Dir]> (fs st)) (processed_urls_set st)
                        (trace st ++ [EvMkdir dest_dir])).
    assert (makedirs E dest_dir st = (Ok tt, st1)) as Hmkdir.
    { unfold makedirs. unfold_monad. simpl. by rewrite Hfree, Hmk. }
    unfold bind at 1. rewrite Hmkdir.
    destruct (localize_loop_ok E base_url dest_dir slug assets [] (tag :: tags)
                st1) as (imgs & st2 & Hloop).
    unfold bind. rewrite Hloop. unfold ret.
    exists (soup_str E html imgs), st2.
    pose proof (preserves_localize_loop E trace_extends _ _ _ _ _ _ _ _ _ Hloop)
      as [evs Hevs].
    pose proof (preserves_localize_loop E keeps_dirs _ _ _ _ _ _ _ _ _ Hloop)
      as Hdirs.
    exists evs. split; [done |]. split.
    + rewrite Hevs. simpl. by rewrite <- app_assoc.
    + apply Hdirs. simpl. by rewrite lookup_insert_eq.
Qed.

Lemma asset_directory_created_for_any_img_witness :
  ∃ html' st' evs,
    download_images_and_rewrite_paths DemoAssets.world "<p><img></p>"
      "https://s.test/p/a" DemoAssets.dest_dir "post" "assets" Demo.st0
    = (Ok html', st')
    ∧ trace st' = trace Demo.st0 ++ EvMkdir DemoAssets.dest_dir :: evs
    ∧ fs st' !! DemoAssets.dest_dir = Some Dir.
Proof.
  apply (asset_directory_created_for_any_img DemoAssets.world "<p><img></p>"
           "https://s.test/p/a" DemoAssets.dest_dir "post" "assets" Demo.st0).
  - discriminate.
  - reflexivity.
  - reflexivity.
Defined.

Lemma demo_assets_trace :
  trace DemoAssets.after = [EvMkdir "out/assets/post"; EvLog INFO].
Proof. vm_compute. reflexivity. Qed.

(** C9 as stated fails: for a fragment whose only image is a data URI the
    directory comes into existence although no file is written. *)
Lemma asset_directory_lazy_counterexample :
  ¬ (fs DemoAssets.after !! DemoAssets.dest_dir = Some Dir →
     ∃ p, EvWrite p ∈ trace DemoAssets.after).
Proof.
  intros H. destruct H as [p Hp]; [vm_compute; reflexivity |].
  rewrite demo_assets_trace in Hp.
  repeat (apply elem_of_cons in Hp as [Hp | Hp]; [discriminate |]).
  by apply elem_of_nil in Hp.
Qed.

(* ===================================================================== *)
(** * Asset localizer: file name collisions *)
(* ===================================================================== *)

Lemma startswith_app c b t :
  Str.startswith (String c "") (b +:+ t)
  = match b with
    | "" => Str.startswith (String c "") t
    | _ => Str.startswith (String c "") b
    end.
Proof.
  destruct b as [|c' b]; [done |].
  rewrite app_cons. simpl. by rewrite !andb_true_r.
Qed.

Lemma path_join_inj d s1 s2 :
  Str.startswith "/" s1 = Str.startswith "/" s2 →
  path_join d s1 = path_join d s2 → s1 = s2.
Proof.
  unfold path_join. intros ->.
  destruct (Str.startswith "/" s2); [done |].
  destruct (_ || _); intros H.
  - by apply String.app_inj in H.
  - apply String.app_inj in H. by apply String.app_inj in H.
Qed.

Lemma candidate_head b x k :
  Str.startswith "/" x = false →
  Str.startswith "/" (candidate b x k) = Str.startswith "/" (candidate b x 0).
Proof.
  intros Hx. destruct k as [|k]; [done |]. unfold candidate.
  rewrite !startswith_app. destruct b; [| done]. by rewrite Hx.
Qed.

Lemma candidate_inj b x j k : candidate b x j = candidate b x k → j = k.
Proof.
  unfold candidate. destruct j as [|j], k as [|k]; intros H; [done | | |].
  - apply String.app_inj in H. apply (f_equal String.length) in H.
    rewrite !length_app in H. simpl in H. lia.
  - apply String.app_inj in H. apply (f_equal String.length) in H.
    rewrite !length_app in H. simpl in H. lia.
  - apply String.app_inj in H. apply String.app_inj in H.
    apply app_inj_r in H. by apply (inj pretty) in H.
Qed.

Lemma candidate_path_inj d b x j k :
  Str.startswith "/" x = false →
  path_join d (candidate b x j) = path_join d (candidate b x k) → j = k.
Proof.
  intros Hx H. apply (candidate_inj b x). apply (path_join_inj d); [| done].
  by rewrite (candidate_head b x j), (candidate_head b x k).
Qed.

Lemma image_ext_no_slash E u r : Str.startswith "/" (image_ext_of E u r) = false.
Proof.
  unfold image_ext_of. cbv zeta.
  match goal with |- context [if Str.startswith "." ?e then _ else _] =>
    generalize e end.
  intros ext. destruct (Str.startswith "." ext) eqn:Hdot; [| done].
  destruct ext as [|c ext]; [done |].
  simpl in *. rewrite andb_true_r in *. apply bool_decide_eq_true in Hdot.
  by subst c.
Qed.

(** The loop stops at the first free candidate, given fuel to reach it. *)
Lemma unique_name_loop_first fuel f d b x k j :
  k ≤ j → j < k + fuel →
  f !! path_join d (candidate b x j) = None →
  (∀ i, k ≤ i < j → is_Some (f !! path_join d (candidate b x i))) →
  unique_name_loop fuel f d b x (candidate b x k) (S k) = Some (candidate b x j).
Proof.
  revert k. induction fuel as [|fuel IH]; intros k Hkj Hfuel Hfree Hbusy.
  - lia.
  - simpl. destruct (decide (k = j)) as [-> | Hne].
    + rewrite bool_decide_eq_false_2; [done |]. rewrite Hfree. by intros [? ?].
    + rewrite bool_decide_eq_true_2 by (apply Hbusy; lia).
      apply (IH (S k)); [lia | lia | done |]. intros i Hi. apply Hbusy. lia.
Qed.

(** Some candidate is free: a directory tree has finitely many entries. *)
Lemma free_candidate_exists (f : gmap string node) d b x :
  Str.startswith "/" x = false →
  ∃ j, j ≤ size f ∧ f !! path_join d (candidate b x j) = None.
Proof.
  intros Hx.
  set (paths := (λ k, path_join d (candidate b x k)) <$> seq 0 (S (size f))).
  destruct (decide (Forall (λ p, is_Some (f !! p)) paths)) as [Hall | Hnot].
  - exfalso.
    assert (NoDup paths) as Hnd.
    { apply NoDup_fmap_2_strong; [| apply NoDup_seq].
      intros j k _ _ H. by apply (candidate_path_inj d b x). }
    assert (list_to_set paths ⊆ dom f) as Hsub.
    { intros p Hp. apply elem_of_list_to_set in Hp. apply elem_of_dom.
      by eapply Forall_forall in Hall. }
    apply subseteq_size in Hsub.
    rewrite size_list_to_set, size_dom in Hsub by done.
    unfold paths in Hsub. rewrite length_fmap, length_seq in Hsub. lia.
  - apply not_Forall_Exists in Hnot; [| apply _].
    apply Exists_exists in Hnot as (p & Hp & Hfree).
    apply list_elem_of_fmap in Hp as (j & -> & Hj).
    apply elem_of_seq in Hj. exists j. split; [lia |].
    simpl in Hfree. by apply eq_None_not_Some.
Qed.

Lemma least_free_candidate (f : gmap string node) d b x n :
  (∃ j, j ≤ n ∧ f !! path_join d (candidate b x j) = None) →
  ∃ j, j ≤ n ∧ f !! path_join d (candidate b x j) = None
       ∧ ∀ i, i < j → is_Some (f !! path_join d (candidate b x i)).
Proof.
  assert (∀ m, (∀ i, i < m → is_Some (f !! path_join d (candidate b x i)))
               ∨ ∃ j, j < m ∧ f !! path_join d (candidate b x j) = None
                      ∧ ∀ i, i < j → is_Some (f !! path_join d (candidate b x i)))
    as Hscan.
  { induction m as [|m [Hbusy | (j & Hj & Hfree & Hleast)]].
    - left. intros i Hi. lia.
    - destruct (f !! path_join d (candidate b x m)) eqn:Hl.
      + left. intros i Hi. destruct (decide (i = m)) as [-> | ?].
        * by rewrite Hl.
        * apply Hbusy. lia.
      + right. exists m. split; [lia | done].
    - right. exists j. split; [lia | done]. }
  intros (j & Hj & Hfree).
  destruct (Hscan (S n)) as [Hbusy | (k & Hk & Hkfree & Hleast)].
  - destruct (Hbusy j) as [? Hsome]; [lia | congruence].
  - exists k. split; [lia | done].
Qed.

(** [unique_name] always returns: the first candidate that is free. *)
Lemma unique_name_spec d b x st :
  Str.startswith "/" x = false →
  ∃ k, unique_name d b x st = (Ok (candidate b x k), st)
       ∧ fs st !! path_join d (candidate b x k) = None
       ∧ ∀ i, i < k → is_Some (fs st !! path_join d (candidate b x i)).
Proof.
  intros Hx.
  destruct (least_free_candidate (fs st) d b x (size (fs st))
              (free_candidate_exists (fs st) d b x Hx)) as (k & Hk & Hfree & Hbusy).
  exists k. split; [| done].
  unfold unique_name. unfold_monad.
  change (b +:+ x) with (candidate b x 0).
  rewrite (unique_name_loop_first _ _ d b x 0 k); [done | lia | lia | done |].
  intros i Hi. apply Hbusy. lia.
Qed.

Lemma unique_name_at d b x st k :
  Str.startswith "/" x = false →
  fs st !! path_join d (candidate b x k) = None →
  (∀ i, i < k → is_Some (fs st !! path_join d (candidate b x i))) →
  unique_name d b x st = (Ok (candidate b x k), st).
Proof.
  intros Hx Hfree Hbusy.
  destruct (unique_name_spec d b x st Hx) as (k' & -> & Hfree' & Hbusy').
  destruct (lt_eq_lt_dec k k') as [[Hlt | ->] | Hgt]; [| done |].
  - destruct (Hbusy' k Hlt) as [? ?]. congruence.
  - destruct (Hbusy k' Hgt) as [? ?]. congruence.
Qed.

(** One image that downloads: it is written under the first free
    candidate name and its reference is rewritten to that name. *)
Lemma localize_image_success E base d slug assets imgs tag src r st k :
  let u := urljoin E base src in
  let name := safe_filename_base_of E u imgs tag in
  let ext := image_ext_of E u r in
  let p := path_join d (candidate name ext k) in
  img_src tag = Some src → nonempty src = true →
  Str.startswith "data:" u = false →
  http_get_image E u = Ok r →
  fs st !! p = None →
  (∀ i, i < k → is_Some (fs st !! path_join d (candidate name ext i))) →
  write_ok E p = true →
  localize_image E base d slug assets imgs tag st
  = (Ok (mkImg (Some (path_join (path_join assets slug) (candidate name ext k)))
               (img_attrs tag)),
     mkState (<[p := File (Text (body r))]> (fs st)) (processed_urls_set st)
             (trace st ++ [EvLog INFO; EvGetImage u; EvWrite p; EvLog INFO])).
Proof.
  intros u name ext p Hsrc Hne Hdata Hget Hfree Hbusy Hw.
  unfold localize_image. rewrite Hsrc, Hne. cbn [negb]. cbv zeta.
  change (urljoin E base src) with u. rewrite Hdata.
  change (safe_filename_base_of E u imgs tag) with name.
  unfold try_except, bind, logging, emit, lift. rewrite Hget.
  change (image_ext_of E u r) with ext.
  rewrite (unique_name_at d name ext _ k);
    [| apply image_ext_no_slash | done | done].
  change (path_join d (candidate name ext k)) with p.
  unfold write_file, bind, get_fs, put_fs, emit, ret. cbn [fs trace processed_urls_set].
  rewrite Hfree, Hw. cbn [fs trace processed_urls_set].
  by rewrite <- !app_assoc.
Qed.

(** C5: two images of one fragment that slugify to the same base name
    with the same extension are written as name.ext and name_1.ext, in
    the order of the fragment; and in general the name chosen is the first
    of name.ext, name_1.ext, name_2.ext, ... that does not exist yet. *)
Theorem collision_gets_numeric_suffix E :
  (∀ html base_url d slug assets st st1 tag1 tag2 src1 src2 r1 r2 name ext,
     let u1 := urljoin E base_url src1 in
     let u2 := urljoin E base_url src2 in
     let p1 := path_join d (name +:+ ext) in
     let p2 := path_join d (name +:+ "_1" +:+ ext) in
     soup_images E html = [tag1; tag2] →
     img_src tag1 = Some src1 → nonempty src1 = true →
     img_src tag2 = Some src2 → nonempty src2 = true →
     Str.startswith "data:" u1 = false →
     Str.startswith "data:" u2 = false →
     http_get_image E u1 = Ok r1 →
     http_get_image E u2 = Ok r2 →
     nonempty (splitext E (url_basename E u1)).1 = true →
     nonempty (splitext E (url_basename E u2)).1 = true →
     slugify E (splitext E (url_basename E u1)).1 = name →
     slugify E (splitext E (url_basename E u2)).1 = name →
     image_ext_of E u1 r1 = ext →
     image_ext_of E u2 r2 = ext →
     makedirs E d st = (Ok tt, st1) →
     fs st1 !! p1 = None → fs st1 !! p2 = None →
     write_ok E p1 = true → write_ok E p2 = true →
     ∃ st',
       download_images_and_rewrite_paths E html base_url d slug assets st
       = (Ok (soup_str E html
                [mkImg (Some (path_join (path_join assets slug) (name +:+ ext)))
                       (img_attrs tag1);
                 mkImg (Some (path_join (path_join assets slug)
                                (name +:+ "_1" +:+ ext)))
                       (img_attrs tag2)]), st')
       ∧ fs st' = <[p2 := File (Text (body r2))]>
                    (<[p1 := File (Text (body r1))]> (fs st1))
       ∧ trace st' = trace st1 ++
           [EvLog INFO; EvGetImage u1; EvWrite p1; EvLog INFO;
            EvLog INFO; EvGetImage u2; EvWrite p2; EvLog INFO]) ∧
  (∀ d base u r st,
     ∃ k, unique_name d base (image_ext_of E u r) st
          = (Ok (candidate base (image_ext_of E u r) k), st)
          ∧ fs st !! path_join d (candidate base (image_ext_of E u r) k) = None
          ∧ ∀ i, i < k →
              is_Some (fs st !! path_join d
                         (candidate base (image_ext_of E u r) i))).
Proof.
  split; [| intros; apply unique_name_spec, image_ext_no_slash].
  intros html base_url d slug assets st st1 tag1 tag2 src1 src2 r1 r2 name ext
    u1 u2 p1 p2 Himgs Hs1 Hn1 Hs2 Hn2 Hd1 Hd2 Hg1 Hg2 Hb1 Hb2 Hsl1 Hsl2 He1 He2
    Hmk Hf1 Hf2 Hw1 Hw2.
  assert (∀ imgs, safe_filename_base_of E u1 imgs tag1 = name) as Hname1.
  { intros imgs. unfold safe_filename_base_of. cbv zeta. by rewrite Hb1. }
  assert (∀ imgs, safe_filename_base_of E u2 imgs tag2 = name) as Hname2.
  { intros imgs. unfold safe_filename_base_of. cbv zeta. by rewrite Hb2. }
  assert (Str.startswith "/" ext = false) as Hext.
  { rewrite <- He1. apply image_ext_no_slash. }
  assert (p1 ≠ p2) as Hp12.
  { intros Heq. apply (candidate_path_inj d name ext 0 1 Hext) in Heq. lia. }
  assert (candidate name ext 1 = name +:+ "_1" +:+ ext) as Hc1 by reflexivity.
  pose proof (localize_image_success E base_url d slug assets [tag1; tag2] tag1
                src1 r1 st1 0) as L1.
  cbv zeta in L1. change (urljoin E base_url src1) with u1 in L1.
  rewrite Hname1, He1 in L1. cbn [candidate] in L1. fold p1 in L1.
  specialize (L1 Hs1 Hn1 Hd1 Hg1 Hf1).
  unfold download_images_and_rewrite_paths. rewrite Himgs.
  unfold bind at 1. rewrite Hmk. cbn [localize_loop app].
  unfold bind at 1. unfold bind at 1. rewrite L1; [| intros i Hi; lia | done].
  cbv beta iota. unfold bind at 1.
  match goal with |- context [localize_image E _ _ _ _ ?imgs tag2 ?s] =>
    pose proof (localize_image_success E base_url d slug assets imgs tag2
                  src2 r2 s 1) as L2 end.
  cbv zeta in L2. change (urljoin E base_url src2) with u2 in L2.
  rewrite Hname2, He2, Hc1 in L2. fold p2 in L2.
  cbn [fs trace processed_urls_set] in L2.
  rewrite L2; try done.
  - unfold bind, ret. eexists. split; [reflexivity |]. split; [done |].
    cbn [trace]. by rewrite <- app_assoc.
  - by rewrite lookup_insert_ne.
  - intros i Hi. assert (i = 0) as -> by lia. cbn [candidate].
    fold p1. rewrite lookup_insert_eq. eauto.
Qed.

Lemma collision_gets_numeric_suffix_witness :
  ∃ st',
    download_images_and_rewrite_paths DemoCollision.world "<p><img><img></p>"
      "https://s.test/p/a" DemoCollision.dest_dir "post" "assets" Demo.st0
    = (Ok (soup_str DemoCollision.world "<p><img><img></p>"
             [mkImg (Some (path_join (path_join "assets" "post")
                             ("photo" +:+ ".png")))
                    (img_attrs DemoCollision.tag1);
              mkImg (Some (path_join (path_join "assets" "post")
                             ("photo" +:+ "_1" +:+ ".png")))
                    (img_attrs DemoCollision.tag2)]), st')
    ∧ fs st' = <[path_join DemoCollision.dest_dir ("photo" +:+ "_1" +:+ ".png")
                 := File (Text (body (mkResponse None "second")))]>
                 (<[path_join DemoCollision.dest_dir ("photo" +:+ ".png")
                    := File (Text (body (mkResponse (Some "image/png") "first")))]>
                    (fs DemoCollision.st1))
    ∧ trace st' = trace DemoCollision.st1 ++
        [EvLog INFO;
         EvGetImage (urljoin DemoCollision.world "https://s.test/p/a"
                       "https://cdn.test/a/photo.png");
         EvWrite (path_join DemoCollision.dest_dir ("photo" +:+ ".png"));
         EvLog INFO; EvLog INFO;
         EvGetImage (urljoin DemoCollision.world "https://s.test/p/a"
                       "https://cdn.test/b/Photo.png");
         EvWrite (path_join DemoCollision.dest_dir ("photo" +:+ "_1" +:+ ".png"));
         EvLog INFO].
Proof.
  destruct (collision_gets_numeric_suffix DemoCollision.world) as [Htwo _].
  apply (Htwo "<p><img><img></p>" "https://s.test/p/a" DemoCollision.dest_dir
           "post" "assets" Demo.st0 DemoCollision.st1
           DemoCollision.tag1 DemoCollision.tag2
           "https://cdn.test/a/photo.png" "https://cdn.test/b/Photo.png"
           (mkResponse (Some "image/png") "first") (mkResponse None "second")
           "photo" ".png"); vm_compute; reflexivity.
Defined.

(* ===================================================================== *)
(** * Archive walker: termination *)
(* ===================================================================== *)

(** A page that cannot be fetched ends the walk. *)
Lemma archive_page_step_raise E u page all e st :
  http_get_archive E (archive_url u page) = Raise e →
  ∃ st', archive_page_step E u page all st = (Ok Break, st').
Proof.
  intros Hget. unfold archive_page_step. cbv zeta.
  unfold try_except, bind, logging, emit, lift. rewrite Hget.
  destruct e as [status| | | | | | | |]; try by eexists.
  destruct (decide (status = 404%Z)); by eexists.
Qed.

(** A page that brings no new URL ends the walk. *)
Lemma archive_page_step_subset E u page all pg st :
  http_get_archive E (archive_url u page) = Ok pg →
  page_urls E u (links_of pg) ⊆ all →
  archive_page_step E u page all st
  = (Ok Break,
     add_events st [EvLog INFO; EvGetArchive (archive_url u page); EvLog INFO]).
Proof.
  intros Hget Hsub. unfold archive_page_step. cbv zeta.
  unfold try_except, bind, logging, emit, lift, ret. rewrite Hget.
  unfold add_events. cbn [fs trace processed_urls_set].
  destruct (links_of pg) as [|l ls] eqn:Hlinks.
  { cbn [fs trace processed_urls_set]. by rewrite <- !app_assoc. }
  destruct (decide (page_urls E u (l :: ls) = ∅)) as [? | Hcur].
  { cbn [fs trace processed_urls_set]. by rewrite <- !app_assoc. }
  destruct (decide (page_urls E u (l :: ls) ∖ all = ∅)) as [? | Hnew].
  { cbn [fs trace processed_urls_set]. by rewrite <- !app_assoc. }
  exfalso. apply Hnew. set_solver.
Qed.

(** Otherwise the walk goes on with the page's URLs added. *)
Lemma archive_page_step_cases E u page all st :
  ∃ st',
    archive_page_step E u page all st = (Ok Break, st') ∨
    ∃ pg, http_get_archive E (archive_url u page) = Ok pg
          ∧ archive_page_step E u page all st
            = (Ok (Continue (all ∪ page_urls E u (links_of pg) ∖ all)), st').
Proof.
  destruct (http_get_archive E (archive_url u page)) as [pg | e] eqn:Hget.
  - unfold archive_page_step. cbv zeta.
    unfold try_except, bind, logging, sleep, emit, lift, ret. rewrite Hget.
    destruct (links_of pg) as [|l ls] eqn:Hlinks; [eexists; by left |].
    destruct (decide (page_urls E u (l :: ls) = ∅)); [eexists; by left |].
    destruct (decide (page_urls E u (l :: ls) ∖ all = ∅)); [eexists; by left |].
    eexists. right. exists pg. by rewrite Hlinks.
  - destruct (archive_page_step_raise E u page all e st Hget) as [st' ->].
    exists st'. by left.
Qed.

(** If page [j] answers as an earlier page [i] did, the walk is over at
    page [j] at the latest. *)
Lemma walk_archive_reaches_repeat E u i j :
  i < j →
  http_get_archive E (archive_url u j) = http_get_archive E (archive_url u i) →
  ∀ d k all st,
    k + d = j →
    (i < k → ∀ pg, http_get_archive E (archive_url u i) = Ok pg →
                   page_urls E u (links_of pg) ⊆ all) →
    ∃ r st', walk_archive E (S d) u k all st = (Ok (Some r), st').
Proof.
  intros Hij Hsame. induction d as [|d IH]; intros k all st Hk Hinv.
  - assert (k = j) as -> by lia. simpl. unfold bind.
    destruct (http_get_archive E (archive_url u j)) as [pg | e] eqn:Hget.
    + rewrite (archive_page_step_subset E u j all pg st Hget); [by eexists _, _ |].
      apply Hinv; [done | by rewrite <- Hsame].
    + destruct (archive_page_step_raise E u j all e st Hget) as [st' ->].
      by eexists _, _.
  - cbn [walk_archive]. unfold bind at 1.
    destruct (archive_page_step_cases E u k all st)
      as (st' & [-> | (pg & Hget & ->)]).
    + by eexists _, _.
    + apply IH; [lia |]. intros Hik pg' Hget'.
      destruct (decide (i = k)) as [-> | Hne].
      * rewrite Hget in Hget'. injection Hget' as <-. intros x Hx.
        destruct (decide (x ∈ all)); set_solver.
      * etrans; [apply Hinv; [lia | done] | set_solver].
Qed.

(** C4: a fetched page whose post URLs are all known already ends the
    walk at once, whatever else the page holds; hence discovery returns
    on every pagination in which some page repeats an earlier one. *)
Theorem archive_walk_halts E substack_url :
  (∀ fuel page all pg st,
     http_get_archive E (archive_url substack_url page) = Ok pg →
     page_urls E substack_url (links_of pg) ⊆ all →
     walk_archive E (S fuel) substack_url page all st
     = (Ok (Some all),
        add_events st [EvLog INFO;
                       EvGetArchive (archive_url substack_url page);
                       EvLog INFO])) ∧
  (∀ i j,
     1 ≤ i → i < j →
     http_get_archive E (archive_url substack_url j)
     = http_get_archive E (archive_url substack_url i) →
     ∀ fuel st, j ≤ fuel →
       ∃ urls st', get_all_post_urls E fuel substack_url st
                   = (Ok (Some urls), st')).
Proof.
  split.
  - intros fuel page all pg st Hget Hsub. cbn [walk_archive]. unfold bind.
    by rewrite (archive_page_step_subset E substack_url page all pg st Hget Hsub).
  - intros i j Hi Hij Hsame fuel st Hfuel. unfold get_all_post_urls.
    assert (∀ f, j ≤ f → ∃ r st', walk_archive E f substack_url 1 ∅ st
                                   = (Ok (Some r), st')) as Hwalk.
    { intros f Hf.
      destruct (walk_archive_reaches_repeat E substack_url i j Hij Hsame
                  (j - 1) 1 ∅ st) as (r & st' & Hrun); [lia | intros; lia |].
      (* more fuel does not change the outcome *)
      assert (∀ n m k all s r' s', n ≤ m →
                walk_archive E n substack_url k all s = (Ok (Some r'), s') →
                walk_archive E m substack_url k all s = (Ok (Some r'), s'))
        as Hmono.
      { induction n as [|n IHn]; intros m k all s r' s' Hnm Hn.
        - simpl in Hn. unfold ret in Hn. discriminate.
        - destruct m as [|m]; [lia |]. cbn [walk_archive] in *.
          unfold bind in *.
          destruct (archive_page_step E substack_url k all s) as [[[a|]|e] s1];
            [| done | done].
          apply IHn; [lia | done]. }
      exists r, st'. apply (Hmono (S (j - 1))); [lia | done]. }
    destruct (Hwalk fuel Hfuel) as (r & st' & Hrun).
    unfold bind. rewrite Hrun. by eexists _, _.
Qed.

Lemma archive_walk_halts_witness :
  walk_archive DemoLog.world 1 "https://s.test/" 2 {[ "https://s.test/p/a"; "https://s.test/p/b" ]} Demo.st0
  = (Ok (Some {[ "https://s.test/p/a"; "https://s.test/p/b" ]}),
     add_events Demo.st0
       [EvLog INFO; EvGetArchive (archive_url "https://s.test/" 2); EvLog INFO])
  ∧ ∃ urls st', get_all_post_urls DemoLog.world 2 "https://s.test/" Demo.st0
                = (Ok (Some urls), st').
Proof.
  destruct (archive_walk_halts DemoLog.world "https://s.test/") as [Hstop Hterm].
  split.
  - apply (Hstop 0 2 _ (mkArchivePage [Some "/p/a"; Some "/p/b?utm=1"; None] [])).
    + reflexivity.
    + refine (bool_decide_unpack _ _). vm_compute. exact I.
  - apply (Hterm 1 2); [lia | lia | reflexivity | lia].
Defined.

(* ===================================================================== *)
(** * Posts without a published date *)
(* ===================================================================== *)

Lemma normalise_meta_date_ok E raw st :
  ∃ d st', normalise_meta_date E raw st = (Ok d, st').
Proof.
  unfold normalise_meta_date. repeat case_match; unfold_monad; by eexists _, _.
Qed.

(** The extractor never raises, and without a date in the structured
    data and in the meta elements the published date stays [None]. *)
Lemma extract_metadata_undated E html post_url st :
  dict_get (json_ld_fields E html) "datePublished" = JNull →
  meta_content (first_meta E html date_selectors) = None →
  ∃ m st', extract_metadata_from_post E html post_url st = (Ok m, st')
           ∧ published_date m = JNull.
Proof.
  unfold json_ld_fields, date_selectors. intros Hld Hmeta.
  unfold extract_metadata_from_post. cbv zeta.
  set (m0 := mkMeta JNull JNull JNull [] post_url).
  assert (∃ m1 st1,
            match soup_json_ld E html with
            | Some script =>
                try_except
                  (let* json_data_list := lift (parse_json_ld E script) in
                   ret (apply_json_ld (select_json_ld json_data_list) m0))
                  (λ _, logging WARNING >> ret m0)
            | None => ret m0
            end st = (Ok m1, st1) ∧ published_date m1 = JNull)
    as (m1 & st1 & Hrun & Hdate).
  { destruct (soup_json_ld E html) as [script|]; [| by eexists _, _].
    unfold try_except, bind, lift, ret.
    destruct (parse_json_ld E script) as [v | e].
    - eexists _, _. split; [done |]. unfold apply_json_ld.
      destruct (select_json_ld v); [done | by simpl in *].
    - unfold logging, emit. by eexists _, _. }
  unfold bind at 1. rewrite Hrun.
  unfold bind at 1.
  match goal with |- context [truthy (published_date ?m2)] =>
    assert (published_date m2 = JNull) as Hdate2
      by (repeat case_match; simpl; done) end.
  rewrite Hdate2. cbn [truthy]. rewrite Hmeta.
  unfold ret. eexists _, _. split; [done |]. simpl.
  by repeat case_match.
Qed.

Lemma resolve_title_date u m t st m' st' :
  resolve_title u m t st = (Ok m', st') → published_date m' = published_date m.
Proof.
  unfold resolve_title, py_len, with_title. intros H. run_inv H.
Qed.

Lemma prepare_post_undated E url out flag assets html st m c s st1 :
  http_get_post E url = Ok html →
  dict_get (json_ld_fields E html) "datePublished" = JNull →
  meta_content (first_meta E html date_selectors) = None →
  prepare_post E url out flag assets st = (Ok (m, c, s), st1) →
  published_date m = JNull.
Proof.
  intros Hget Hld Hmeta Hrun. unfold prepare_post in Hrun. cbv zeta in Hrun.
  apply bind_ok_inv in Hrun as (? & s1 & _ & Hrun).
  apply bind_ok_inv in Hrun as (? & s2 & _ & Hrun).
  apply bind_ok_inv in Hrun as (html' & s3 & Hl & Hrun).
  unfold lift in Hl. rewrite Hget in Hl. injection Hl as <- <-.
  apply bind_ok_inv in Hrun as (m1 & s4 & Hex & Hrun).
  destruct (extract_metadata_undated E html url s2 Hld Hmeta)
    as (m1' & s4' & Hex' & Hdate).
  rewrite Hex' in Hex. injection Hex as <- <-.
  apply bind_ok_inv in Hrun as (t & s5 & _ & Hrun).
  apply bind_ok_inv in Hrun as (m2 & s6 & Hres & Hrun).
  apply resolve_title_date in Hres.
  apply bind_ok_inv in Hrun as (? & s7 & _ & Hrun).
  apply bind_ok_inv in Hrun as (? & s8 & _ & Hrun).
  apply bind_ok_inv in Hrun as (? & s9 & _ & Hrun).
  unfold ret in Hrun. injection Hrun as <- _ _ _. congruence.
Qed.

(** [None.split('T')] is an AttributeError that [except ValueError]
    lets through: nothing is rendered. *)
Lemma render_post_undated E m c s out fmts st :
  published_date m = JNull →
  render_post E m c s out fmts st = (Raise AttributeError, st).
Proof.
  intros Hdate. unfold render_post, filename_date_prefix. cbv zeta.
  rewrite Hdate. reflexivity.
Qed.

Lemma prepare_post_keeps_fs E url out assets :
  preserves same_fs (prepare_post E url out false assets).
Proof.
  unfold prepare_post. cbv zeta.
  pose proof (preserves_extract_metadata E same_fs).
  pose proof (preserves_resolve_title same_fs).
  pose proof (preserves_slugify_value E same_fs).
  pres_auto.
Qed.

Lemma process_single_post_undated E url out fmts flag assets inc logp html st :
  http_get_post E url = Ok html →
  dict_get (json_ld_fields E html) "datePublished" = JNull →
  meta_content (first_meta E html date_selectors) = None →
  not_skipped inc url st →
  ∃ r1 st1,
    prepare_post E url out flag assets st = (r1, st1)
    ∧ (∀ m c s, r1 = Ok (m, c, s) →
         published_date m = JNull
         ∧ render_post E m c s out fmts st1 = (Raise AttributeError, st1))
    ∧ process_single_post E url out fmts flag assets inc logp st
      = (Ok false, add_events st1 [EvLog ERROR]).
Proof.
  intros Hget Hld Hmeta Hskip.
  destruct (prepare_post E url out flag assets st) as [r1 st1] eqn:Hprep.
  exists r1, st1. split; [done |].
  assert (∀ m c s, r1 = Ok (m, c, s) → published_date m = JNull) as Hdate.
  { intros m c s ->. by eapply prepare_post_undated. }
  split.
  - intros m c s Hr. split; [by eapply Hdate |].
    apply render_post_undated. by eapply Hdate.
  - unfold process_single_post. unfold bind at 1. unfold get_set.
    unfold not_skipped in Hskip. rewrite Hskip.
    unfold try_except, process_post_body. unfold bind at 1. rewrite Hprep.
    destruct r1 as [[[m c] s] | e].
    + unfold bind at 1. rewrite (render_post_undated E m c s out fmts st1);
        [done | by eapply Hdate].
    + done.
Qed.

(** C10: a post whose page yields no published date has
    metadata["published_date"] None; the file name date computation
    raises before any format is rendered; the error is caught at the post
    level, [process_single_post] returns False having done nothing beyond
    the preparation (fetch, extraction, image localization), the log is
    not updated, and the orchestrator counts the post as failed. *)
Theorem undated_post_fails E (a : args) url out fmts logp html st :
  http_get_post E url = Ok html →
  dict_get (json_ld_fields E html) "datePublished" = JNull →
  meta_content (first_meta E html date_selectors) = None →
  not_skipped (incremental a) url st →
  (∃ r1 st1,
     prepare_post E url out (download_images a) (assets_dir_name a) st = (r1, st1)
     ∧ (∀ m c s, r1 = Ok (m, c, s) →
          published_date m = JNull
          ∧ render_post E m c s out fmts st1 = (Raise AttributeError, st1))
     ∧ process_single_post E url out fmts (download_images a)
         (assets_dir_name a) (incremental a) logp st
       = (Ok false, add_events st1 [EvLog ERROR])
     ∧ processed_urls_set st1 = processed_urls_set st
     ∧ (download_images a = false → fs st1 = fs st)) ∧
  (∀ c, ∃ st', process_posts E a fmts out logp [url] c st
               = (Ok (count_failed c), st')).
Proof.
  intros Hget Hld Hmeta Hskip. split.
  - destruct (process_single_post_undated E url out fmts (download_images a)
                (assets_dir_name a) (incremental a) logp html st
                Hget Hld Hmeta Hskip) as (r1 & st1 & Hprep & Hrender & Hrun).
    exists r1, st1.
    split; [done |]. split; [done |]. split; [done |]. split.
    + by apply (preserves_prepare_post E same_set _ _ _ _ _ _ _ Hprep).
    + intros Hflag. rewrite Hflag in Hprep.
      by apply (prepare_post_keeps_fs E _ _ _ _ _ _ Hprep).
  - intros c. cbn [process_posts].
    unfold bind at 1. unfold logging at 1, emit at 1.
    unfold bind at 1. unfold get_set at 1. cbn [processed_urls_set].
    unfold not_skipped in Hskip. rewrite Hskip.
    destruct (process_single_post_undated E url out fmts (download_images a)
                (assets_dir_name a) (incremental a) logp html
                (mkState (fs st) (processed_urls_set st) (trace st ++ [EvLog INFO]))
                Hget Hld Hmeta Hskip) as (r1 & st1 & _ & _ & Hrun).
    unfold bind. rewrite Hrun. unfold ret. by eexists.
Qed.

Lemma undated_post_fails_witness :
  (∃ r1 st1,
     prepare_post DemoUndated.world "https://s.test/p/a" "out"
       (download_images DemoUndated.run) (assets_dir_name DemoUndated.run)
       Demo.st0 = (r1, st1)
     ∧ (∀ m c s, r1 = Ok (m, c, s) →
          published_date m = JNull
          ∧ render_post DemoUndated.world m c s "out" ["md"; "json"] st1
            = (Raise AttributeError, st1))
     ∧ process_single_post DemoUndated.world "https://s.test/p/a" "out"
         ["md"; "json"] (download_images DemoUndated.run)
         (assets_dir_name DemoUndated.run) (incremental DemoUndated.run)
         "out/.download_log.json" Demo.st0
       = (Ok false, add_events st1 [EvLog ERROR])
     ∧ processed_urls_set st1 = processed_urls_set Demo.st0
     ∧ (download_images DemoUndated.run = false → fs st1 = fs Demo.st0)) ∧
  (∀ c, ∃ st', process_posts DemoUndated.world DemoUndated.run ["md"; "json"]
                 "out" "out/.download_log.json" ["https://s.test/p/a"] c Demo.st0
               = (Ok (count_failed c), st')).
Proof.
  apply (undated_post_fails DemoUndated.world DemoUndated.run
           "https://s.test/p/a" "out" ["md"; "json"] "out/.download_log.json"
           "<p>text</p>" Demo.st0); reflexivity.
Defined.

(* ===================================================================== *)
(** * Failure isolation at the post level *)
(* ===================================================================== *)

Lemma process_single_post_ok E url out fmts flag assets inc logp st :
  ∃ b st', process_single_post E url out fmts flag assets inc logp st
           = (Ok b, st').
Proof.
  unfold process_single_post. unfold bind at 1. unfold get_set.
  destruct (inc && bool_decide (url ∈ processed_urls_set st)).
  - unfold_monad. by eexists _, _.
  - apply try_except_ok. intros e st1. unfold_monad. by eexists _, _.
Qed.


Lemma process_posts_total E a fmts out logp urls c st :
  ∃ c' st', process_posts E a fmts out logp urls c st = (Ok c', st')
            ∧ total c' = total c + length urls.
Proof.
  revert c st. induction urls as [|url urls IH]; intros c st.
  - exists c, st. split; [done |]. simpl. lia.
  - cbn [process_posts]. unfold bind at 1. unfold logging at 1, emit at 1.
    unfold bind at 1. unfold get_set at 1. cbn [processed_urls_set].
    destruct (incremental a && bool_decide (url ∈ processed_urls_set st)).
    + unfold bind at 1. unfold logging at 1, emit at 1.
      edestruct IH as (c' & st' & -> & Htotal). exists c', st'.
      split; [done |]. rewrite Htotal. unfold total. simpl. lia.
    + unfold bind at 1.
      edestruct (process_single_post_ok E url out fmts) as (b & st1 & ->).
      edestruct IH as (c' & st' & -> & Htotal). exists c', st'.
      split; [done |]. rewrite Htotal. unfold total. destruct b; simpl; lia.
Qed.




(* ===================================================================== *)
(** * Incremental log: when a post is recorded *)
(* ===================================================================== *)

Lemma write_file_ok_trace E p c st st' :
  write_file E p c st = (Ok tt, st') → trace st' = trace st ++ [EvWrite p].
Proof. unfold write_file. intros H. run_inv H. Qed.

(** A format the program writes itself: a render that returns has
    written the output file. *)
Lemma render_format_writes E m c out prefix slug fmt st st' :
  written_directly fmt →
  render_format E m c out prefix slug fmt st = (Ok tt, st') →
  ∃ evs, trace st' = trace st ++ evs
         ∧ EvWrite (output_path out prefix slug fmt) ∈ evs.
Proof.
  intros Hfmt Hrun. unfold render_format in Hrun. cbv zeta in Hrun.
  apply bind_ok_inv in Hrun as ([] & s1 & Hmk & Hrun).
  apply (preserves_makedirs E trace_extends) in Hmk as [evs1 Hevs1].
  assert (∃ payload, (write_file E (output_path out prefix slug fmt) payload
                      >> logging INFO) s1 = (Ok tt, st')) as [payload Hw].
  { unfold written_directly in Hfmt.
    repeat (apply elem_of_cons in Hfmt as [-> | Hfmt]);
      [| | | by apply elem_of_nil in Hfmt];
      repeat (case_decide; try done); by eexists. }
  apply bind_ok_inv in Hw as ([] & s2 & Hw & Hlog).
  apply write_file_ok_trace in Hw.
  unfold logging, emit in Hlog. injection Hlog as <-.
  exists (evs1 ++ [EvWrite (output_path out prefix slug fmt)] ++ [EvLog INFO]).
  split.
  - cbn [trace]. rewrite Hw, Hevs1. by rewrite <- !app_assoc.
  - set_solver.
Qed.

Lemma for_each_render_writes E m c out prefix slug fmts st st' :
  for_each (render_format E m c out prefix slug) fmts st = (Ok tt, st') →
  ∃ evs, trace st' = trace st ++ evs
         ∧ ∀ fmt, fmt ∈ fmts → written_directly fmt →
                  EvWrite (output_path out prefix slug fmt) ∈ evs.
Proof.
  revert st. induction fmts as [|fmt fmts IH]; intros st Hrun.
  - simpl in Hrun. unfold ret in Hrun. injection Hrun as <-.
    exists []. split; [by rewrite app_nil_r | intros fmt Hin; by apply elem_of_nil in Hin].
  - cbn [for_each] in Hrun.
    apply bind_ok_inv in Hrun as ([] & s1 & Hhead & Htail).
    destruct (IH _ Htail) as (evs2 & Hevs2 & Hall2).
    pose proof (preserves_render_format E trace_extends _ _ _ _ _ _ _ _ _ Hhead)
      as [evs1 Hevs1].
    exists (evs1 ++ evs2). split; [by rewrite Hevs2, Hevs1, app_assoc |].
    intros f Hin Hdirect. apply elem_of_cons in Hin as [-> | Hin].
    + destruct (render_format_writes E _ _ _ _ _ _ _ _ Hdirect Hhead)
        as (evs1' & Hevs1' & Hw).
      rewrite Hevs1 in Hevs1'. apply app_inv_head in Hevs1'. subst evs1'.
      set_solver.
    + specialize (Hall2 f Hin Hdirect). set_solver.
Qed.

Lemma render_post_writes E m c s out fmts st st' :
  render_post E m c s out fmts st = (Ok tt, st') →
  ∃ prefix slug evs,
    trace st' = trace st ++ evs
    ∧ ∀ fmt, fmt ∈ fmts → written_directly fmt →
             EvWrite (output_path out prefix slug fmt) ∈ evs.
Proof.
  intros Hrun. unfold render_post in Hrun.
  apply bind_ok_inv in Hrun as (prefix & s1 & Hdate & Hrun).
  apply bind_ok_inv in Hrun as (slug & s2 & Hslug & Hrun).
  apply (preserves_filename_date_prefix E trace_extends) in Hdate as [e1 He1].
  assert (trace_extends s1 s2) as [e2 He2].
  { destruct (truthy (title m)).
    - by apply (preserves_slugify_value E trace_extends) in Hslug.
    - unfold ret in Hslug. injection Hslug as _ <-. reflexivity. }
  destruct (for_each_render_writes E _ _ _ _ _ _ _ _ Hrun) as (e3 & He3 & Hall).
  exists prefix, slug, (e1 ++ e2 ++ e3).
  split; [by rewrite He3, He2, He1, <- !app_assoc |].
  intros fmt Hin Hdirect. specialize (Hall fmt Hin Hdirect). set_solver.
Qed.

(** C1, as the code has it: with incremental mode on, a URL enters the
    processed set (the set every save writes out in full) only after the
    loop over the formats has come to its end, so only when the output of
    every requested md, html and json format was written; a pdf or epub
    conversion that fails, or an unknown format name, is skipped and does
    not keep the URL out of the log. *)
Theorem recorded_only_after_all_formats E url out fmts flag assets logp st r st' :
  process_single_post E url out fmts flag assets true logp st = (r, st') →
  url ∉ processed_urls_set st →
  url ∈ processed_urls_set st' →
  ∃ prefix slug evs,
    trace st' = trace st ++ evs
    ∧ ∀ fmt, fmt ∈ fmts → written_directly fmt →
             EvWrite (output_path out prefix slug fmt) ∈ evs.
Proof.
  intros Hrun Hnot Hin. unfold process_single_post in Hrun.
  unfold bind at 1 in Hrun. unfold get_set in Hrun.
  rewrite bool_decide_eq_false_2 in Hrun by done. cbn [andb] in Hrun.
  (* the state the body ends in holds the URL as well *)
  assert (∃ rb sb, process_post_body E url out fmts flag assets true logp st
                   = (rb, sb)
                   ∧ processed_urls_set sb = processed_urls_set st'
                   ∧ trace_extends sb st') as (rb & sb & Hbody & Hset & Hext).
  { destruct (process_post_body E url out fmts flag assets true logp st)
      as [rb sb] eqn:Hbody.
    exists rb, sb. split; [done |]. unfold try_except in Hrun. rewrite Hbody in Hrun.
    destruct rb.
    - injection Hrun as _ <-. split; [done | reflexivity].
    - unfold_monad. injection Hrun as _ <-. split; [done | by exists [EvLog ERROR]]. }
  rewrite <- Hset in Hin. clear Hrun Hset.
  unfold process_post_body in Hbody.
  apply bind_inv in Hbody as [([[m c] s] & s1 & Hprep & Hbody) | (e & Hprep & _)].
  2: { apply (preserves_prepare_post E same_set) in Hprep.
       unfold same_set in Hprep. by rewrite Hprep in Hin. }
  pose proof (preserves_prepare_post E same_set _ _ _ _ _ _ _ Hprep) as Hset1.
  pose proof (preserves_prepare_post E trace_extends _ _ _ _ _ _ _ Hprep)
    as [e1 He1].
  apply bind_inv in Hbody as [([] & s2 & Hrender & Hbody) | (e & Hrender & _)].
  2: { apply (preserves_render_post E same_set) in Hrender.
       unfold same_set in *. rewrite Hrender, Hset1 in Hin. done. }
  destruct (render_post_writes E _ _ _ _ _ _ _ Hrender)
    as (prefix & slug & e2 & He2 & Hall).
  assert (trace_extends s2 sb) as [e3 He3].
  { eapply preserves_run; [| exact Hbody].
    pose proof (preserves_save_to_download_log E trace_extends). pres_auto. }
  destruct Hext as [e4 He4].
  exists prefix, slug, (e1 ++ e2 ++ e3 ++ e4).
  split; [by rewrite He4, He3, He2, He1, <- !app_assoc |].
  intros fmt Hfmt Hdirect. specialize (Hall fmt Hfmt Hdirect). set_solver.
Qed.

Lemma recorded_only_after_all_formats_witness :
  ∃ prefix slug evs,
    trace (process_single_post DemoLog.world "https://s.test/p/a" "out"
             ["md"; "pdf"] false "assets" true DemoLog.log_path Demo.st0).2
    = trace Demo.st0 ++ evs
    ∧ ∀ fmt, fmt ∈ ["md"; "pdf"] → written_directly fmt →
             EvWrite (output_path "out" prefix slug fmt) ∈ evs.
Proof.
  eapply (recorded_only_after_all_formats DemoLog.world "https://s.test/p/a"
            "out" ["md"; "pdf"] false "assets" DemoLog.log_path Demo.st0).
  - apply surjective_pairing.
  - vm_compute. set_solver.
  - refine (bool_decide_unpack _ _). vm_compute. exact I.
Defined.

(** C1 as stated fails: the pdf conversion fails, no pdf is produced, and
    the URL is recorded all the same. *)
Lemma recorded_despite_failed_format_counterexample :
  ¬ (DemoNoPandoc.url ∈ processed_urls_set DemoNoPandoc.outcome.2 →
     fs DemoNoPandoc.outcome.2 !! DemoNoPandoc.log_path
     = Some (File (Json (log_document {[ DemoNoPandoc.url ]}))) →
     is_file (fs DemoNoPandoc.outcome.2) "out/20230101_post.pdf" = true).
Proof.
  intros H.
  assert (is_file (fs DemoNoPandoc.outcome.2) "out/20230101_post.pdf" = false)
    as Hno by (vm_compute; reflexivity).
  rewrite H in Hno; [discriminate | |].
  - refine (bool_decide_unpack _ _). vm_compute. exact I.
  - vm_compute. reflexivity.
Qed.

(* ===================================================================== *)
(** * Incremental re-run *)
(* ===================================================================== *)

(** ** Computations that do not depend on the world *)

Lemma oblivious_ret {A} (a : A) : oblivious (ret a).
Proof. exists (Ok a), []. split; [done |]. intros st. by rewrite add_events_nil. Qed.

Lemma oblivious_raise {A} e : oblivious (@raise A e).
Proof. exists (Raise e), []. split; [done |]. intros st. by rewrite add_events_nil. Qed.

Lemma oblivious_lift {A} (x : result A) : oblivious (lift x).
Proof. exists x, []. split; [done |]. intros st. by rewrite add_events_nil. Qed.

Lemma oblivious_emit ev : not_post_fetch ev → oblivious (emit ev).
Proof. intros Hev. exists (Ok tt), [ev]. split; [by constructor | done]. Qed.

Lemma oblivious_logging lvl : oblivious (logging lvl).
Proof. by apply oblivious_emit. Qed.

Lemma oblivious_sleep : oblivious sleep.
Proof. by apply oblivious_emit. Qed.

Lemma oblivious_bind {A B} (m : M A) (k : A → M B) :
  oblivious m → (∀ a, oblivious (k a)) → oblivious (bind m k).
Proof.
  intros (r & evs & Hevs & Hm) Hk. destruct r as [a | e].
  - destruct (Hk a) as (r2 & evs2 & Hevs2 & Hka).
    exists r2, (evs ++ evs2). split; [by apply Forall_app |].
    intros st. unfold bind. by rewrite Hm, Hka, add_events_app.
  - exists (Raise e), evs. split; [done |]. intros st. unfold bind. by rewrite Hm.
Qed.

Lemma oblivious_try_except {A} (m : M A) (h : exn → M A) :
  oblivious m → (∀ e, oblivious (h e)) → oblivious (try_except m h).
Proof.
  intros (r & evs & Hevs & Hm) Hh. destruct r as [a | e].
  - exists (Ok a), evs. split; [done |]. intros st. unfold try_except.
    by rewrite Hm.
  - destruct (Hh e) as (r2 & evs2 & Hevs2 & Hhe).
    exists r2, (evs ++ evs2). split; [by apply Forall_app |].
    intros st. unfold try_except. by rewrite Hm, Hhe, add_events_app.
Qed.

Create HintDb obl discriminated.

#[global] Hint Resolve oblivious_ret oblivious_raise oblivious_lift
  oblivious_emit oblivious_logging oblivious_sleep : obl.
#[global] Hint Extern 0 (not_post_fetch _) => exact I : obl.

Ltac obl_step :=
  lazymatch goal with
  | |- oblivious (bind _ _) => apply oblivious_bind; [| intros ?]
  | |- oblivious (try_except _ _) => apply oblivious_try_except; [| intros ?]
  | |- oblivious (if ?b then _ else _) => destruct b
  | |- oblivious (match ?x with _ => _ end) => destruct x
  | |- oblivious (let _ := _ in _) => cbv zeta
  end.

Ltac obl_auto := repeat first [ solve [eauto with obl] | obl_step ].

Lemma oblivious_archive_page_step E u page all :
  oblivious (archive_page_step E u page all).
Proof. unfold archive_page_step. obl_auto. Qed.

Lemma oblivious_walk_archive E fuel u page all :
  oblivious (walk_archive E fuel u page all).
Proof.
  revert page all. induction fuel as [|fuel IH]; intros page all; simpl.
  - obl_auto.
  - pose proof (oblivious_archive_page_step E). obl_auto.
Qed.

Lemma oblivious_get_all_post_urls E fuel u :
  oblivious (get_all_post_urls E fuel u).
Proof. unfold get_all_post_urls. pose proof (oblivious_walk_archive E). obl_auto. Qed.

(** ** The file system under [makedirs], load and save *)

Lemma makedirs_existing E d st :
  fs st !! d = Some Dir → makedirs E d st = (Ok tt, st).
Proof. intros Hd. unfold makedirs. unfold_monad. by rewrite Hd. Qed.

Lemma makedirs_ok_dir E d st st' :
  makedirs E d st = (Ok tt, st') → fs st' !! d = Some Dir.
Proof.
  unfold makedirs. intros H. run_inv H. simpl. by rewrite lookup_insert_eq.
Qed.

Lemma set_of_raises v e : set_of v = Raise e → e = TypeError.
Proof. unfold set_of. intros H. repeat case_match; by simplify_eq. Qed.

(** What [load_download_log] returns is a matter of the file tree alone. *)
Lemma load_download_log_view E p st :
  load_download_log E p st
  = ((load_view E p (fs st)).1, add_events st (load_view E p (fs st)).2).
Proof.
  unfold load_download_log, load_view, json_load, path_exists.
  unfold bind, ret, raise, lift, try_except, logging, emit, get_fs.
  destruct (fs st !! p) as [[|[s|j]]|] eqn:Hl; simpl; rewrite ?Hl;
    try by rewrite add_events_nil.
  - destruct (json_loads E s) as [v|]; [| done].
    destruct v; simpl; try by rewrite add_events_nil.
    destruct (set_of _) as [|e] eqn:Hset; simpl; [by rewrite add_events_nil |].
    apply set_of_raises in Hset as ->. by rewrite add_events_nil.
  - destruct j; simpl; try by rewrite add_events_nil.
    destruct (set_of _) as [|e] eqn:Hset; simpl; [by rewrite add_events_nil |].
    apply set_of_raises in Hset as ->. by rewrite add_events_nil.
Qed.

Lemma load_view_quiet E p f : Forall not_post_fetch (load_view E p f).2.
Proof.
  unfold load_view. repeat case_match; simpl; by repeat constructor.
Qed.

Lemma str_members_strs (l : list string) :
  str_members (JStr <$> l) = list_to_set l.
Proof.
  unfold str_members. induction l as [|x l IH]; [done |].
  simpl. f_equal. exact IH.
Qed.

Lemma str_members_elements (s : gset string) :
  set_of (JArr (JStr <$> elements s)) = Ok s.
Proof.
  unfold set_of.
  assert (∀ l : list string, forallb hashable (JStr <$> l) = true) as ->.
  { induction l; [done | by simpl]. }
  by rewrite str_members_strs, list_to_set_elements_L.
Qed.

(** A log written by the program loads as the set it was written from. *)
Lemma log_document_loads E p (f : gmap string node) s :
  f !! p = Some (File (Json (log_document s))) → loads_as E p f s.
Proof.
  intros Hf. unfold loads_as, load_view. rewrite Hf. simpl.
  apply str_members_elements.
Qed.

Lemma save_to_download_log_ok E p u st st' :
  save_to_download_log E p u st = (Ok tt, st') →
  processed_urls_set st' = {[u]} ∪ processed_urls_set st
  ∧ fs st' !! p = Some (File (Json (log_document (processed_urls_set st')))).
Proof.
  unfold save_to_download_log, makedirs, write_file. intros H. run_inv H.
  all: simpl; by rewrite lookup_insert_eq.
Qed.

(** ** What one run leaves behind *)

#[global] Instance quietly_po : PreOrder quietly.
Proof.
  split.
  - intros st. split; [done | reflexivity].
  - intros a b c [F1 Q1] [F2 Q2]. split; [congruence | by etrans].
Qed.

Lemma quietly_add_events st evs :
  Forall not_post_fetch evs → quietly st (add_events st evs).
Proof. intros Hevs. split; [done |]. by exists evs. Qed.

(** An oblivious computation gives the same result from every state. *)
Lemma oblivious_det {A} (m : M A) st r st' :
  oblivious m → m st = (r, st') →
  ∀ st2, ∃ s2, m st2 = (r, s2) ∧ quietly st2 s2
               ∧ processed_urls_set s2 = processed_urls_set st2.
Proof.
  intros (r0 & evs & Hevs & Hm) Hrun st2. rewrite Hm in Hrun.
  injection Hrun as <- _. exists (add_events st2 evs).
  split; [apply Hm |]. split; [by apply quietly_add_events | done].
Qed.

Lemma process_single_post_true E url out fmts flag assets logp st st' :
  not_skipped true url st →
  process_single_post E url out fmts flag assets true logp st = (Ok true, st') →
  processed_urls_set st' = {[url]} ∪ processed_urls_set st
  ∧ loads_as E logp (fs st') (processed_urls_set st').
Proof.
  intros Hskip Hrun. unfold process_single_post in Hrun.
  unfold bind at 1 in Hrun. unfold get_set in Hrun.
  unfold not_skipped in Hskip. rewrite Hskip in Hrun.
  apply try_except_inv in Hrun as [(b & Hbody & Hb) | (e & s1 & _ & Hh)].
  2: { unfold_monad. discriminate. }
  unfold process_post_body in Hbody.
  apply bind_ok_inv in Hbody as ([[m c] s] & s1 & Hprep & Hbody).
  apply bind_ok_inv in Hbody as ([] & s2 & Hrender & Hbody).
  apply bind_ok_inv in Hbody as ([] & s3 & Hsleep & Hbody).
  apply bind_ok_inv in Hbody as ([] & s4 & Hsave & Hbody).
  unfold ret in Hbody. injection Hbody as _ <-.
  apply (preserves_prepare_post E same_set) in Hprep.
  apply (preserves_render_post E same_set) in Hrender.
  apply (preserves_sleep same_set) in Hsleep.
  apply save_to_download_log_ok in Hsave as [Hset Hfile].
  unfold same_set in *. split.
  - rewrite Hset. congruence.
  - by apply log_document_loads.
Qed.

Lemma process_posts_failed_mono E a fmts out logp urls c st c' st' :
  process_posts E a fmts out logp urls c st = (Ok c', st') →
  failed_downloads c ≤ failed_downloads c'.
Proof.
  revert c st. induction urls as [|url urls IH]; intros c st Hrun.
  - simpl in Hrun. unfold ret in Hrun. by injection Hrun as <- _.
  - cbn [process_posts] in Hrun.
    apply bind_ok_inv in Hrun as ([] & s1 & _ & Hrun).
    apply bind_ok_inv in Hrun as (processed & s2 & _ & Hrun).
    destruct (incremental a && bool_decide (url ∈ processed)).
    + apply bind_ok_inv in Hrun as ([] & s3 & _ & Hrun).
      apply IH in Hrun. simpl in Hrun. lia.
    + apply bind_ok_inv in Hrun as (b & s3 & _ & Hrun).
      apply IH in Hrun. destruct b; simpl in Hrun; lia.
Qed.

(** A run of the loop in which no post fails leaves the log file in
    step with the live set, and the set holds every URL of the loop. *)
Lemma process_posts_synced E a fmts out logp urls c st c' st' :
  incremental a = true →
  process_posts E a fmts out logp urls c st = (Ok c', st') →
  failed_downloads c' = failed_downloads c →
  loads_as E logp (fs st) (processed_urls_set st) →
  loads_as E logp (fs st') (processed_urls_set st')
  ∧ ∀ u, u ∈ urls → u ∈ processed_urls_set st'.
Proof.
  intros Hinc. revert c st.
  induction urls as [|url urls IH]; intros c st Hrun Hfail Hsync.
  - simpl in Hrun. unfold ret in Hrun. injection Hrun as _ <-.
    split; [done |]. intros u Hu. by apply elem_of_nil in Hu.
  - cbn [process_posts] in Hrun. rewrite Hinc in Hrun.
    unfold bind at 1 in Hrun. unfold logging at 1, emit at 1 in Hrun.
    unfold bind at 1 in Hrun. unfold get_set at 1 in Hrun.
    cbn [processed_urls_set andb] in Hrun.
    set (sl := mkState (fs st) (processed_urls_set st) (trace st ++ [EvLog INFO]))
      in *.
    destruct (bool_decide (url ∈ processed_urls_set st)) eqn:Hin.
    + apply bool_decide_eq_true in Hin.
      apply bind_ok_inv in Hrun as ([] & s3 & Hlog & Hrun).
      unfold logging, emit in Hlog. injection Hlog as <-.
      pose proof (preserves_process_posts E set_grows _ _ _ _ _ _ _ _ _ Hrun)
        as Hgrow.
      apply IH in Hrun as [Hsync' Hall]; [| done | done].
      split; [done |]. intros u Hu. apply elem_of_cons in Hu as [-> | Hu].
      * by apply Hgrow.
      * by apply Hall.
    + apply bind_ok_inv in Hrun as (b & s3 & Hpost & Hrun).
      pose proof (process_posts_failed_mono _ _ _ _ _ _ _ _ _ _ Hrun) as Hmono.
      destruct b; [| simpl in Hmono; lia].
      apply process_single_post_true in Hpost as [Hset Hsync3];
        [| unfold not_skipped, sl; cbn [processed_urls_set andb]; exact Hin].
      pose proof (preserves_process_posts E set_grows _ _ _ _ _ _ _ _ _ Hrun)
        as Hgrow.
      apply IH in Hrun as [Hsync' Hall]; [| done | done].
      split; [done |]. intros u Hu. apply elem_of_cons in Hu as [-> | Hu].
      * apply Hgrow. rewrite Hset. set_solver.
      * by apply Hall.
Qed.

(** A loop over URLs that are all in the set skips every one of them. *)
Lemma process_posts_all_skipped E a fmts out logp urls c st :
  incremental a = true →
  (∀ u, u ∈ urls → u ∈ processed_urls_set st) →
  ∃ st', process_posts E a fmts out logp urls c st
         = (Ok (mkCounts (successful_downloads c)
                         (skipped_downloads c + length urls)
                         (failed_downloads c)), st')
         ∧ quietly st st'
         ∧ processed_urls_set st' = processed_urls_set st.
Proof.
  intros Hinc. revert c st. induction urls as [|url urls IH]; intros c st Hall.
  - exists st. simpl. unfold ret. rewrite Nat.add_0_r. by destruct c.
  - set (s2 := add_events (add_events st [EvLog INFO]) [EvLog INFO]).
    destruct (IH (count_skipped c) s2) as (st' & Hrun & Hq & Hset).
    { intros u Hu. apply Hall. set_solver. }
    exists st'. split; [| split].
    + transitivity (process_posts E a fmts out logp urls (count_skipped c) s2).
      * cbn [process_posts]. rewrite Hinc.
        unfold bind, logging, emit, get_set. cbn [processed_urls_set andb].
        rewrite bool_decide_eq_true_2 by (apply Hall; set_solver).
        reflexivity.
      * rewrite Hrun. do 2 f_equal. unfold count_skipped. simpl. f_equal. lia.
    + etrans; [| exact Hq]. unfold s2. rewrite add_events_app.
      apply quietly_add_events. by repeat constructor.
    + by rewrite Hset.
Qed.

Lemma open_log_ok E a d st lf st' :
  incremental a = true →
  open_log E a d st = (Ok lf, st') →
  lf = log_file_of d ∧ fs st' = fs st
  ∧ loads_as E lf (fs st') (processed_urls_set st').
Proof.
  intros Hinc Hrun. unfold open_log in Hrun. rewrite Hinc in Hrun.
  unfold bind at 1 in Hrun. unfold put_set at 1 in Hrun.
  unfold bind at 1 in Hrun. unfold logging at 1, emit at 1 in Hrun.
  cbv zeta in Hrun. unfold bind at 1 in Hrun.
  rewrite load_download_log_view in Hrun. cbn [fs] in Hrun.
  unfold loads_as, log_file_of.
  destruct (load_view E (path_join d ".download_log.json") (fs st)) as [[s|e] evs]
    eqn:Hview; [| discriminate].
  unfold_monad. simpl in Hrun. injection Hrun as <- <-. simpl.
  by rewrite Hview.
Qed.

Lemma open_log_again E a d st s :
  incremental a = true →
  loads_as E (log_file_of d) (fs st) s →
  ∃ st', open_log E a d st = (Ok (log_file_of d), st')
         ∧ quietly st st' ∧ processed_urls_set st' = s.
Proof.
  intros Hinc Hloads. unfold loads_as, log_file_of in *.
  unfold open_log. rewrite Hinc.
  unfold bind at 1. unfold put_set at 1.
  unfold bind at 1. unfold logging at 1, emit at 1.
  cbv zeta. unfold bind at 1.
  rewrite load_download_log_view. cbn [fs].
  pose proof (load_view_quiet E (path_join d ".download_log.json") (fs st))
    as Hquiet.
  destruct (load_view E (path_join d ".download_log.json") (fs st)) as [r evs].
  simpl in Hloads, Hquiet. subst r.
  unfold_monad. simpl. eexists. split; [reflexivity |]. split; [| done].
  split; [done |]. simpl.
  exists ([EvLog INFO] ++ evs ++ [EvLog INFO]). split.
  - by rewrite <- !app_assoc.
  - repeat (apply Forall_app; split); by repeat constructor.
Qed.

(** Discovery and the loop over the posts: a first pass without a
    failure leaves the log in step with the set, and any later pass from
    the same file tree and set skips every post. *)
Lemma crawl_substack_rerun E fuel a fmts d logp u st c1 st1 :
  incremental a = true →
  crawl_substack E fuel a fmts d logp u st = (Ok (Some c1), st1) →
  failed_downloads c1 = 0 →
  loads_as E logp (fs st) (processed_urls_set st) →
  loads_as E logp (fs st1) (processed_urls_set st1)
  ∧ ∀ st2, processed_urls_set st2 = processed_urls_set st1 →
      ∃ c2 s2, crawl_substack E fuel a fmts d logp u st2 = (Ok (Some c2), s2)
               ∧ quietly st2 s2
               ∧ processed_urls_set s2 = processed_urls_set st2
               ∧ successful_downloads c2 = 0 ∧ failed_downloads c2 = 0.
Proof.
  intros Hinc Hrun Hfail Hsync. unfold crawl_substack in *.
  apply bind_ok_inv in Hrun as (found & s1 & Hfound & Hrun).
  pose proof (oblivious_det _ _ _ _ (oblivious_get_all_post_urls E fuel u) Hfound)
    as Hdet.
  destruct (Hdet st) as (s1' & Hfound' & [Hfs1 _] & Hset1).
  rewrite Hfound in Hfound'. injection Hfound' as <-.
  destruct found as [urls |]; [| unfold ret in Hrun; discriminate].
  apply bind_ok_inv in Hrun as ([] & s2 & Hlog & Hrun).
  unfold logging, emit in Hlog. injection Hlog as <-.
  destruct urls as [|url urls].
  - (* no post at all *)
    apply bind_ok_inv in Hrun as ([] & s3 & Hlog & Hrun).
    unfold logging, emit in Hlog. injection Hlog as <-.
    unfold ret in Hrun. injection Hrun as <- <-. cbn [fs processed_urls_set].
    split; [by rewrite Hfs1, Hset1 |].
    intros st2 Hset2. destruct (Hdet st2) as (s2 & Hg & Hq & Hs).
    exists no_counts, (add_events (add_events s2 [EvLog INFO]) [EvLog INFO]).
    unfold bind at 1. rewrite Hg. unfold bind, logging, emit, ret.
    split; [done |]. split; [| done].
    etrans; [exact Hq |]. rewrite add_events_app.
    apply quietly_add_events. by repeat constructor.
  - apply bind_ok_inv in Hrun as (c & s3 & Hposts & Hrun).
    apply bind_ok_inv in Hrun as ([] & s4 & Hlog & Hrun).
    unfold logging, emit in Hlog. injection Hlog as <-.
    apply bind_ok_inv in Hrun as ([] & s5 & Hlog & Hrun).
    unfold logging, emit in Hlog. injection Hlog as <-.
    unfold ret in Hrun. injection Hrun as <- <-. cbn [fs processed_urls_set].
    apply process_posts_synced in Hposts as [Hsync3 Hall]; [| done | done |].
    2: { cbn [fs processed_urls_set]. by rewrite Hfs1, Hset1. }
    split; [done |].
    intros st2 Hset2. destruct (Hdet st2) as (s2 & Hg & Hq & Hs).
    set (s2' := add_events s2 [EvLog INFO]).
    destruct (process_posts_all_skipped E a fmts d logp (url :: urls) no_counts
                s2' Hinc) as (s6 & Hskip & Hq6 & Hs6).
    { intros x Hx. cbn [s2' add_events processed_urls_set].
      rewrite Hs, Hset2. by apply Hall. }
    eexists _, (add_events (add_events s6 [EvLog INFO]) [EvLog INFO]).
    unfold bind at 1. rewrite Hg.
    unfold bind at 1. unfold logging at 1, emit at 1.
    fold (add_events s2 [EvLog INFO]). fold s2'.
    unfold bind at 1. rewrite Hskip. unfold bind, logging, emit, ret.
    split; [reflexivity |]. split; [| split; [| done]].
    + etrans; [exact Hq |]. etrans; [| etrans; [exact Hq6 |]].
      * apply quietly_add_events. by repeat constructor.
      * rewrite add_events_app. apply quietly_add_events. by repeat constructor.
    + cbn [add_events processed_urls_set]. by rewrite Hs6.
Qed.

Lemma oblivious_substack_output_dir E a idx u :
  oblivious (substack_output_dir E a idx u).
Proof. unfold substack_output_dir. obl_auto. Qed.

(** C3, as the code has it: when no post failed in a run with incremental
    mode on, a second run over the unchanged source requests no post (every
    discovered URL is found in the loaded set and skipped), and leaves the
    file tree, hence the persisted log, and the processed set as they
    were. *)
Theorem second_run_fetches_nothing E fuel a fmts idx u st0 c1 st1 :
  incremental a = true →
  process_substack E fuel a fmts idx u st0 = (Ok (Some c1), st1) →
  failed_downloads c1 = 0 →
  ∃ c2 st2,
    process_substack E fuel a fmts idx u st1 = (Ok (Some c2), st2)
    ∧ (∃ evs, trace st2 = trace st1 ++ evs ∧ Forall not_post_fetch evs)
    ∧ fs st2 = fs st1
    ∧ processed_urls_set st2 = processed_urls_set st1
    ∧ successful_downloads c2 = 0 ∧ failed_downloads c2 = 0.
Proof.
  intros Hinc Hrun Hfail. unfold process_substack in *.
  destruct (nonempty u) eqn:Hu; cbn [negb] in *.
  2: { (* an empty URL in the list: skipped *)
    unfold_monad. injection Hrun as <- <-.
    eexists _, _. split; [reflexivity |]. simpl.
    split; [exists [EvLog WARNING]; by repeat constructor | done]. }
  apply bind_ok_inv in Hrun as ([] & s1 & Hsep & Hrun).
  apply bind_ok_inv in Hrun as ([] & s2 & _ & Hrun).
  apply bind_ok_inv in Hrun as (d & s3 & Hdir & Hrun).
  apply bind_ok_inv in Hrun as ([] & s4 & Hmk & Hrun).
  cbv zeta in Hrun.
  apply bind_ok_inv in Hrun as ([] & s5 & Hl5 & Hrun).
  apply bind_ok_inv in Hrun as ([] & s6 & Hl6 & Hrun).
  apply bind_ok_inv in Hrun as ([] & s7 & Hl7 & Hrun).
  apply bind_ok_inv in Hrun as ([] & s8 & Hl8 & Hrun).
  apply bind_ok_inv in Hrun as (lf & s9 & Hopen & Hcrawl).
  (* the output directory is still there at the end of the first run *)
  assert (fs st1 !! d = Some Dir) as Hdir1.
  { apply makedirs_ok_dir in Hmk.
    apply (preserves_logging keeps_dirs) in Hl5, Hl6, Hl7, Hl8.
    apply (preserves_open_log E keeps_dirs) in Hopen.
    apply (preserves_crawl_substack E keeps_dirs) in Hcrawl.
    by apply Hcrawl, Hopen, Hl8, Hl7, Hl6, Hl5. }
  (* the log is in step with the set at the end of the first run *)
  apply open_log_ok in Hopen as (-> & _ & Hsync9); [| done].
  destruct (crawl_substack_rerun E _ _ _ _ _ _ _ _ _ Hinc Hcrawl Hfail Hsync9)
    as [Hsync1 Hagain].
  (* the second run *)
  assert (oblivious (if (0 <? idx)%nat then logging INFO else ret tt)) as Hobl
    by obl_auto.
  destruct (oblivious_det _ _ _ _ Hobl Hsep st1) as (t1 & Ht1 & Hq1 & _).
  unfold bind at 1. rewrite Ht1.
  unfold bind at 1. unfold logging at 1, emit at 1.
  set (t2 := mkState (fs t1) (processed_urls_set t1) (trace t1 ++ [EvLog INFO])).
  assert (quietly st1 t2) as Hq2.
  { etrans; [exact Hq1 |]. apply (quietly_add_events t1 [EvLog INFO]).
    by repeat constructor. }
  destruct (oblivious_det _ _ _ _ (oblivious_substack_output_dir E a idx u)
              Hdir t2) as (t3 & Ht3 & Hq3 & _).
  unfold bind at 1. rewrite Ht3.
  assert (quietly st1 t3) as Hq3' by (by etrans).
  unfold bind at 1. rewrite makedirs_existing by (by rewrite (proj1 Hq3')).
  cbv zeta.
  unfold bind at 1. unfold logging at 1, emit at 1.
  unfold bind at 1. unfold logging at 1, emit at 1.
  unfold bind at 1. unfold logging at 1, emit at 1.
  unfold bind at 1. unfold logging at 1, emit at 1.
  set (t7 := add_events (add_events (add_events (add_events t3 [EvLog INFO])
                                       [EvLog INFO]) [EvLog INFO]) [EvLog INFO]).
  change (mkState _ _ _) with t7.
  assert (quietly st1 t7) as Hq7.
  { etrans; [exact Hq3' |]. unfold t7. rewrite !add_events_app.
    apply quietly_add_events. by repeat constructor. }
  destruct (open_log_again E a d t7 (processed_urls_set st1) Hinc)
    as (t8 & Ht8 & Hq8 & Hs8).
  { by rewrite (proj1 Hq7). }
  unfold bind at 1. rewrite Ht8.
  destruct (Hagain t8 Hs8) as (c2 & t9 & Ht9 & Hq9 & Hs9 & Hsucc & Hfailed).
  exists c2, t9. split; [exact Ht9 |].
  assert (quietly st1 t9) as [Hfs Hquiet] by (etrans; [| exact Hq9]; by etrans).
  split; [exact Hquiet |]. split; [exact Hfs |].
  split; [congruence | done].
Qed.

Lemma second_run_fetches_nothing_witness :
  ∃ c2 st2,
    process_substack DemoLog.world 3 DemoRerun.run ["md"] 0 Demo.site
      DemoRerun.first.2 = (Ok (Some c2), st2)
    ∧ (∃ evs, trace st2 = trace DemoRerun.first.2 ++ evs
              ∧ Forall not_post_fetch evs)
    ∧ fs st2 = fs DemoRerun.first.2
    ∧ processed_urls_set st2 = processed_urls_set DemoRerun.first.2
    ∧ successful_downloads c2 = 0 ∧ failed_downloads c2 = 0.
Proof.
  apply (second_run_fetches_nothing DemoLog.world 3 DemoRerun.run ["md"] 0
           Demo.site Demo.st0 (mkCounts 2 0 0) DemoRerun.first.2).
  - reflexivity.
  - vm_compute. reflexivity.
  - reflexivity.
Defined.

(** C3 as stated fails: after a run in which the posts could not be
    fetched, the second run requests them again. *)
Lemma second_run_fetches_failed_posts_counterexample :
  ¬ Forall not_post_fetch (trace DemoRerun.offline_second.2).
Proof.
  intros H.
  assert (EvGetPost "https://s.test/p/a" ∈ trace DemoRerun.offline_second.2)
    as Hin.
  { vm_compute. set_solver. }
  by apply (proj1 (Forall_forall _ _) H) in Hin.
Qed.

(* ===================================================================== *)
(** * The incremental log, beyond the tolerant load *)
(* ===================================================================== *)

(** X1.  What [save_to_download_log] writes, [load_download_log] reads
    back: after a successful save the log file loads, without a warning,
    as the processed set with the new URL in it. *)
Theorem log_round_trip E log_file_path url st st' :
  save_to_download_log E log_file_path url st = (Ok tt, st') →
  load_download_log E log_file_path st'
  = (Ok ({[url]} ∪ processed_urls_set st), st').
Proof.
  intros Hsave.
  destruct (save_to_download_log_ok _ _ _ _ _ Hsave) as [Hset Hfile].
  rewrite load_download_log_view.
  unfold load_view. rewrite Hfile. unfold log_document. cbn [dict_get_default].
  rewrite decide_True by done.
  rewrite str_members_elements, add_events_nil, Hset. done.
Qed.

Lemma log_round_trip_witness :
  ∃ st', save_to_download_log DemoLog.world DemoLog.log_path
           "https://s.test/p/a" Demo.st0 = (Ok tt, st')
         ∧ load_download_log DemoLog.world DemoLog.log_path st'
           = (Ok ({[ "https://s.test/p/a" ]} ∪ processed_urls_set Demo.st0), st').
Proof.
  eexists. split; [vm_compute; reflexivity|].
  apply (log_round_trip DemoLog.world DemoLog.log_path "https://s.test/p/a"
           Demo.st0).
  vm_compute; reflexivity.
Defined.

(** X2.  A log file that parses as JSON but is not an object is not
    tolerated: the loader raises [AttributeError], and so does the set-up
    of an incremental run, after its first log line and before any
    request. *)
Theorem non_object_log_aborts E (a : args) current_output_dir s v st :
  fs st !! log_file_of current_output_dir = Some (File (Text s)) →
  json_loads E s = Some v →
  (∀ d, v ≠ JObj d) →
  incremental a = true →
  load_download_log E (log_file_of current_output_dir) st
  = (Raise AttributeError, st)
  ∧ open_log E a current_output_dir st
    = (Raise AttributeError, mkState (fs st) ∅ (trace st ++ [EvLog INFO])).
Proof.
  intros Hfile Hloads Hshape Hinc.
  assert (Hview : ∀ st1, fs st1 = fs st →
            load_download_log E (log_file_of current_output_dir) st1
            = (Raise AttributeError, st1)).
  { intros st1 Hfs. rewrite load_download_log_view. unfold load_view.
    rewrite Hfs, Hfile, Hloads.
    destruct v; try (by rewrite add_events_nil). by destruct (Hshape d). }
  split; [by apply Hview|].
  unfold open_log. rewrite Hinc. fold (log_file_of current_output_dir).
  unfold bind at 1. unfold put_set at 1.
  unfold bind at 1. unfold logging at 1, emit at 1. cbn [fs processed_urls_set trace].
  unfold bind at 1. rewrite Hview by done. done.
Qed.

Lemma non_object_log_aborts_witness :
  load_download_log DemoShape.world (log_file_of "out") DemoShape.listed
  = (Raise AttributeError, DemoShape.listed)
  ∧ open_log DemoShape.world DemoRerun.run "out" DemoShape.listed
    = (Raise AttributeError,
       mkState (fs DemoShape.listed) ∅ (trace DemoShape.listed ++ [EvLog INFO])).
Proof.
  apply (non_object_log_aborts DemoShape.world DemoRerun.run "out" "[]" (JArr [])).
  - vm_compute; reflexivity.
  - vm_compute; reflexivity.
  - intros d; discriminate.
  - reflexivity.
Defined.

(** X3.  The URL joins the live set before the log file is written
    (main.py 551-554): when the write fails, the save raises [OSError] and
    the set already holds the URL, while the file tree is as it was. *)
Theorem failed_save_keeps_url_in_memory E log_file_path url st :
  fs st !! path_dirname log_file_path = Some Dir →
  (write_ok E log_file_path = false ∨ fs st !! log_file_path = Some Dir) →
  save_to_download_log E log_file_path url st
  = (Raise OSError,
     mkState (fs st) ({[url]} ∪ processed_urls_set st) (trace st)).
Proof.
  intros Hdir Hw. unfold save_to_download_log.
  unfold bind at 1, get_set at 1. unfold bind at 1, put_set at 1.
  unfold bind at 1. rewrite makedirs_existing by done.
  unfold bind at 1, get_set at 1. cbn [fs processed_urls_set trace].
  unfold write_file, bind, get_fs. cbn [fs].
  destruct Hw as [Hw|Hw]; [|by rewrite Hw].
  rewrite Hw. by destruct (fs st !! log_file_path) as [[]|].
Qed.

Lemma failed_save_keeps_url_in_memory_witness :
  save_to_download_log DemoReadOnly.world DemoLog.log_path "https://s.test/p/a"
    DemoReadOnly.st_out
  = (Raise OSError,
     mkState (fs DemoReadOnly.st_out)
       ({[ "https://s.test/p/a" ]} ∪ processed_urls_set DemoReadOnly.st_out)
       (trace DemoReadOnly.st_out)).
Proof.
  apply (failed_save_keeps_url_in_memory DemoReadOnly.world DemoLog.log_path
           "https://s.test/p/a").
  - vm_compute; reflexivity.
  - left. vm_compute; reflexivity.
Defined.

(* ===================================================================== *)
(** * The metadata extractor as a whole *)
(* ===================================================================== *)

Lemma apply_json_ld_url d m : url (apply_json_ld d m) = url m.
Proof. by destruct d. Qed.

Lemma filter_nonempty_clean (l : list string) : "" ∉ List.filter nonempty l.
Proof.
  intros H%list_elem_of_In%filter_In. by destruct H.
Qed.

Lemma apply_json_ld_fields d m :
  d ≠ [] →
  title (apply_json_ld d m) = dict_get d "headline"
  ∧ published_date (apply_json_ld d m) = dict_get d "datePublished".
Proof. by destruct d. Qed.

(** The first stage of the extractor: the structured-data block. *)
Lemma json_ld_stage E html (m0 : metadata) st :
  match soup_json_ld E html with
  | Some script =>
      try_except
        (let* json_data_list := lift (parse_json_ld E script) in
         ret (apply_json_ld (select_json_ld json_data_list) m0))
        (λ e, logging WARNING >> ret m0)
  | None => ret m0
  end st
  = match soup_json_ld E html with
    | Some script =>
        match parse_json_ld E script with
        | Ok v => (Ok (apply_json_ld (select_json_ld v) m0), st)
        | Raise _ => (Ok m0, add_events st [EvLog WARNING])
        end
    | None => (Ok m0, st)
    end.
Proof.
  destruct (soup_json_ld E html) as [script|]; [|done].
  unfold try_except, bind, lift, ret, logging, emit.
  by destruct (parse_json_ld E script).
Qed.

(** X4.  The extractor never raises, whatever the page holds: it returns
    a record whose [url] is the post URL and whose tags are all non-empty,
    it leaves the file tree and the processed set alone, and its only
    effects are warnings. *)
Theorem extract_metadata_never_raises E html post_url st :
  ∃ m st',
    extract_metadata_from_post E html post_url st = (Ok m, st')
    ∧ url m = post_url
    ∧ ("" ∉ tags m)
    ∧ fs st' = fs st
    ∧ processed_urls_set st' = processed_urls_set st
    ∧ ∃ evs, trace st' = trace st ++ evs
             ∧ Forall (λ ev, ev = EvLog WARNING) evs.
Proof.
  unfold extract_metadata_from_post.
  unfold bind at 1. rewrite json_ld_stage.
  set (m0 := mkMeta JNull JNull JNull [] post_url).
  assert (∃ m1 st1 evs1,
    (match soup_json_ld E html with
    | Some script =>
        match parse_json_ld E script with
        | Ok v => (Ok (apply_json_ld (select_json_ld v) m0), st)
        | Raise _ => (Ok m0, add_events st [EvLog WARNING])
        end
    | None => (Ok m0, st)
    end) = (Ok m1, st1) ∧ url m1 = post_url ∧ st1 = add_events st evs1
    ∧ Forall (λ ev, ev = EvLog WARNING) evs1) as (m1 & st1 & evs1 & -> & Hu & -> & Hevs1).
  { destruct (soup_json_ld E html) as [script|];
      [destruct (parse_json_ld E script)|].
    - eexists _, _, []. rewrite add_events_nil, apply_json_ld_url. done.
    - eexists _, _, [_]. do 3 (split; [done|]). by repeat constructor.
    - eexists _, _, []. rewrite add_events_nil. done. }
  cbv zeta.
  set (m2 := if truthy (author m1) then m1 else _).
  assert (url m2 = post_url) as Hu2.
  { subst m2. destruct (truthy (author m1)); [done|]. by case_match. }
  clearbody m2. clear m1 Hu.
  unfold bind at 1.
  assert (∃ m3 evs3,
    (if truthy (published_date m2) then ret m2
     else match meta_content
                  (first_meta E html
                     [MetaArticlePublishedTime; MetaOgPublishedTime;
                      MetaCxensePublishTime]) with
          | Some c =>
              let* d := normalise_meta_date E c in
              ret (mkMeta (title m2) (author m2) (JStr d) (tags m2) (url m2))
          | None => ret m2
          end) (add_events st evs1)
    = (Ok m3, add_events st (evs1 ++ evs3)) ∧ url m3 = post_url
    ∧ Forall (λ ev, ev = EvLog WARNING) evs3) as (m3 & evs3 & -> & Hu3 & Hevs3).
  { destruct (truthy (published_date m2)).
    { eexists _, []. rewrite app_nil_r. done. }
    case_match; [|eexists _, []; rewrite app_nil_r; done].
    unfold normalise_meta_date, bind, ret, logging, emit.
    repeat case_match; simplify_eq.
    - eexists _, []. rewrite app_nil_r. done.
    - eexists _, []. rewrite app_nil_r. done.
    - eexists _, [_]. unfold add_events. cbn. rewrite <- (assoc_L (++)).
      do 2 (split; [done|]). by repeat constructor. }
  unfold ret. eexists _, _. split; [done|]. cbn.
  split; [done|]. split; [apply filter_nonempty_clean|].
  do 2 (split; [done|]).
  eexists. split; [done|]. by apply Forall_app.
Qed.

(** X5.  When the page carries a structured-data block that parses to a
    non-empty dictionary, the title is its headline, and a date it gives
    is kept as it stands: the meta elements are not consulted for them. *)
Theorem json_ld_takes_precedence E html post_url st m st' :
  extract_metadata_from_post E html post_url st = (Ok m, st') →
  json_ld_fields E html ≠ [] →
  title m = dict_get (json_ld_fields E html) "headline"
  ∧ (truthy (dict_get (json_ld_fields E html) "datePublished") = true →
     published_date m = dict_get (json_ld_fields E html) "datePublished"
     ∧ st' = st).
Proof.
  unfold extract_metadata_from_post, json_ld_fields.
  unfold bind at 1. rewrite json_ld_stage.
  destruct (soup_json_ld E html) as [script|]; [|done].
  destruct (parse_json_ld E script) as [v|]; [|done].
  intros Hrun Hne. cbv zeta in Hrun.
  set (m1 := apply_json_ld _ _) in Hrun.
  destruct (apply_json_ld_fields (select_json_ld v)
              (mkMeta JNull JNull JNull [] post_url) Hne) as [Ht1 Hp1].
  fold m1 in Ht1, Hp1.
  set (m2 := if truthy (author m1) then m1 else _) in Hrun.
  assert (title m2 = title m1 ∧ published_date m2 = published_date m1)
    as [Ht2 Hp2].
  { clear Hrun. subst m2. destruct (truthy (author m1)); [done|].
    by case_match. }
  rewrite <- Ht1, <- Hp1, <- Ht2, <- Hp2. clearbody m2. clear Ht1 Hp1 Ht2 Hp2.
  unfold bind at 1 in Hrun.
  destruct (truthy (published_date m2)) eqn:Hd.
  - unfold ret in Hrun. by simplify_eq.
  - split; [|done]. unfold normalise_meta_date, bind, ret, logging, emit in Hrun.
    repeat (case_match; simplify_eq); done.
Qed.

Lemma json_ld_takes_precedence_witness :
  title (mkMeta (JStr "T") (JStr "A") (JStr "2023-01-01T12:00:00Z")
           ["x"; "y"] "https://s.test/p/a")
  = dict_get (json_ld_fields DemoMeta.world "<html>") "headline"
  ∧ (truthy (dict_get (json_ld_fields DemoMeta.world "<html>") "datePublished")
     = true →
     published_date (mkMeta (JStr "T") (JStr "A") (JStr "2023-01-01T12:00:00Z")
                       ["x"; "y"] "https://s.test/p/a")
     = dict_get (json_ld_fields DemoMeta.world "<html>") "datePublished"
     ∧ Demo.st0 = Demo.st0).
Proof.
  apply (json_ld_takes_precedence DemoMeta.world "<html>" "https://s.test/p/a"
           Demo.st0).
  - vm_compute; reflexivity.
  - vm_compute; discriminate.
Defined.

(** X6.  Without usable structured data (no block, a block that does
    not parse, or one that holds no dictionary) the title stays [None] and
    the author is the content of the first of the meta elements
    [article:author_name], [author] that is there, if it has one. *)
Theorem no_json_ld_falls_back_to_meta E html post_url st m st' :
  json_ld_fields E html = [] →
  extract_metadata_from_post E html post_url st = (Ok m, st') →
  title m = JNull
  ∧ author m
    = match meta_content
              (first_meta E html [MetaArticleAuthorName; MetaNameAuthor]) with
      | Some c => JStr c
      | None => JNull
      end.
Proof.
  unfold extract_metadata_from_post, json_ld_fields.
  unfold bind at 1. rewrite json_ld_stage.
  intros Hnone Hrun.
  set (m0 := mkMeta JNull JNull JNull [] post_url) in *.
  assert (∃ st1,
    (match soup_json_ld E html with
     | Some script =>
         match parse_json_ld E script with
         | Ok v => (Ok (apply_json_ld (select_json_ld v) m0), st)
         | Raise _ => (Ok m0, add_events st [EvLog WARNING])
         end
     | None => (Ok m0, st)
     end) = (Ok m0, st1)) as [st1 Hst1].
  { clear Hrun. destruct (soup_json_ld E html) as [script|]; [|by eexists].
    destruct (parse_json_ld E script); [|by eexists].
    rewrite Hnone. by eexists. }
  rewrite Hst1 in Hrun. clear Hst1 Hnone. cbv zeta in Hrun.
  change (truthy (author m0)) with false in Hrun. cbv iota in Hrun.
  set (m2 := match meta_content _ with Some c => _ | None => m0 end) in Hrun.
  assert (title m2 = JNull
          ∧ author m2
            = match meta_content
                      (first_meta E html [MetaArticleAuthorName; MetaNameAuthor])
              with
              | Some c => JStr c
              | None => JNull
              end) as [Ht Ha].
  { clear Hrun. subst m2. by case_match. }
  rewrite <- Ha, <- Ht. clearbody m2. clear Ht Ha.
  unfold bind at 1 in Hrun.
  unfold normalise_meta_date, bind, ret, logging, emit in Hrun.
  repeat (case_match; simplify_eq); done.
Qed.

Lemma no_json_ld_falls_back_to_meta_witness :
  title (mkMeta JNull JNull (JStr "2023-01-01") [] "https://s.test/p/a") = JNull
  ∧ author (mkMeta JNull JNull (JStr "2023-01-01") [] "https://s.test/p/a")
    = match meta_content
              (first_meta DemoLog.world "<html>"
                 [MetaArticleAuthorName; MetaNameAuthor]) with
      | Some c => JStr c
      | None => JNull
      end.
Proof.
  apply (no_json_ld_falls_back_to_meta DemoLog.world "<html>"
           "https://s.test/p/a" Demo.st0 _ Demo.st0).
  - vm_compute; reflexivity.
  - vm_compute; reflexivity.
Defined.

(* ===================================================================== *)
(** * Title and date prefix *)
(* ===================================================================== *)

(** X7.  Whatever the extractor and the content extractor found, a title
    that comes out of the resolution is never empty, and nothing but the
    title is changed. *)
Theorem resolved_title_is_never_empty url m content_title st m' st' :
  resolve_title url m content_title st = (Ok m', st') →
  truthy (title m') = true ∧ m' = with_title m (title m').
Proof.
  unfold resolve_title, py_len, with_title, bind, ret, raise, logging, emit.
  intros Hrun.
  repeat (case_match; simplify_eq; cbn in * ); try done.
  all: by rewrite ?negb_false_iff, ?negb_true_iff in *.
Qed.

Lemma resolved_title_is_never_empty_witness :
  truthy (title (with_title (mkMeta JNull JNull JNull [] "u")
                   (JStr "Untitled Post"))) = true
  ∧ with_title (mkMeta JNull JNull JNull [] "u") (JStr "Untitled Post")
    = with_title (mkMeta JNull JNull JNull [] "u")
        (title (with_title (mkMeta JNull JNull JNull [] "u")
                  (JStr "Untitled Post"))).
Proof.
  apply (resolved_title_is_never_empty "u" (mkMeta JNull JNull JNull [] "u") ""
           Demo.st0 _ (add_events Demo.st0 [EvLog WARNING])).
  vm_compute; reflexivity.
Defined.

(** X8.  Between a title string from the metadata and the title the
    content extractor found, the longer one wins and the metadata title
    wins a tie; the resolution does not fail, and the result is shorter
    than neither.  Only when both are empty is it "Untitled Post". *)
Theorem resolve_title_prefers_longer url m s content_title st :
  title m = JStr s →
  ∃ s' st',
    resolve_title url m content_title st = (Ok (with_title m (JStr s')), st')
    ∧ String.length s ≤ String.length s'
    ∧ String.length content_title ≤ String.length s'
    ∧ (if decide (s = "" ∧ content_title = "") then s' = "Untitled Post"
       else if decide (String.length s < String.length content_title)
            then s' = content_title else s' = s).
Proof.
  intros Ht. unfold resolve_title, py_len. rewrite Ht.
  unfold nonempty. cbn [truthy].
  destruct s as [|c s]; destruct content_title as [|c' t];
    cbn [bool_decide negb andb decide_rel]; unfold bind, ret, logging, emit.
  - eexists _, _. split; [done|]. cbn. rewrite decide_True by done.
    repeat split; lia.
  - eexists _, _. split; [done|]. cbn.
    rewrite decide_False by (by intros [_ ?]).
    rewrite decide_True by lia. repeat split; lia.
  - eexists _, _. split; [done|]. cbn.
    rewrite decide_False by (by intros [? _]).
    rewrite decide_False by lia. repeat split; lia.
  - destruct (String.length (String c s) <? String.length (String c' t))
      eqn:Hlt.
    + apply Nat.ltb_lt in Hlt. eexists _, _. split; [done|].
      rewrite decide_False by (by intros [? _]).
      rewrite decide_True by done. repeat split; lia.
    + apply Nat.ltb_ge in Hlt. eexists _, _. split; [done|].
      rewrite decide_False by (by intros [? _]).
      rewrite decide_False by lia. repeat split; lia.
Qed.

Lemma resolve_title_prefers_longer_witness :
  ∃ s' st',
    resolve_title "u" (mkMeta (JStr "Short") JNull JNull [] "u")
      "Short: the long form" Demo.st0
    = (Ok (with_title (mkMeta (JStr "Short") JNull JNull [] "u") (JStr s')), st')
    ∧ String.length "Short" ≤ String.length s'
    ∧ String.length "Short: the long form" ≤ String.length s'
    ∧ (if decide ("Short" = "" ∧ "Short: the long form" = "")
       then s' = "Untitled Post"
       else if decide (String.length "Short"
                       < String.length "Short: the long form")
            then s' = "Short: the long form" else s' = "Short").
Proof.
  apply (resolve_title_prefers_longer "u"
           (mkMeta (JStr "Short") JNull JNull [] "u") "Short").
  reflexivity.
Defined.

(** X9.  The date prefix of the file names exists exactly when the
    published date is a string: any string gives a prefix (parsed,
    stripped of its dashes, or today's date), any other value raises
    [AttributeError], and the file tree and the processed set are not
    touched either way. *)
Theorem date_prefix_needs_a_string E m st :
  (∀ s, published_date m = JStr s →
        ∃ prefix st', filename_date_prefix E m st = (Ok prefix, st')
                      ∧ (st' = st ∨ st' = add_events st [EvLog WARNING])) ∧
  ((∀ s, published_date m ≠ JStr s) →
   filename_date_prefix E m st = (Raise AttributeError, st)).
Proof.
  unfold filename_date_prefix, try_except, bind, ret, raise, logging, emit.
  split.
  - intros s ->. repeat case_match; simplify_eq; eexists _, _; eauto.
  - intros Hns. destruct (published_date m) eqn:Hp; try done.
    by destruct (Hns s).
Qed.

Lemma date_prefix_needs_a_string_witness :
  (∃ prefix st',
     filename_date_prefix DemoLog.world
       (mkMeta JNull JNull (JStr "2023-01-01") [] "u") Demo.st0
     = (Ok prefix, st')
     ∧ (st' = Demo.st0 ∨ st' = add_events Demo.st0 [EvLog WARNING])) ∧
  filename_date_prefix DemoLog.world (mkMeta JNull JNull JNull [] "u") Demo.st0
  = (Raise AttributeError, Demo.st0).
Proof.
  split.
  - apply (proj1 (date_prefix_needs_a_string DemoLog.world
                    (mkMeta JNull JNull (JStr "2023-01-01") [] "u") Demo.st0)
             "2023-01-01").
    reflexivity.
  - apply (proj2 (date_prefix_needs_a_string DemoLog.world
                    (mkMeta JNull JNull JNull [] "u") Demo.st0)).
    intros s; discriminate.
Defined.

(* ===================================================================== *)
(** * The archive walker: what it returns *)
(* ===================================================================== *)

Lemma split_hd_no_sep sep s : has_char sep (hd "" (Str.split sep s)) = false.
Proof.
  induction s as [|c s IH]; [done|]. cbn [Str.split].
  destruct (decide (c = sep)) as [->|Hne]; [done|].
  destruct (Str.split sep s) as [|w ws]; cbn in *.
  - by rewrite bool_decide_eq_false_2.
  - by rewrite bool_decide_eq_false_2.
Qed.

Lemma elem_of_page_urls E u links x :
  x ∈ page_urls E u links ↔
  ∃ href, Some href ∈ links ∧ nonempty href = true
          ∧ is_post_link E u (urljoin E u href) = true
          ∧ x = hd "" (Str.split "?" (urljoin E u href)).
Proof.
  unfold page_urls. rewrite elem_of_list_to_set, list_elem_of_omap. split.
  - intros ([href|] & Hin & Hx); [|done].
    destruct (nonempty href) eqn:Hne; [|done].
    destruct (is_post_link E u (urljoin E u href)) eqn:Hpl; [|done].
    simplify_eq. by exists href.
  - intros (href & Hin & Hne & Hpl & ->). exists (Some href).
    by rewrite Hne, Hpl.
Qed.

Lemma union_difference_absorb (X Y : gset string) : X ∪ Y ∖ X = X ∪ Y.
Proof. apply set_eq. intros x. destruct (decide (x ∈ X)); set_solver. Qed.

(** One turn of the loop, by what the page holds: it stops when the page
    adds nothing (or cannot be had), else it goes on with the union. *)
Lemma archive_page_step_exact E u page all st :
  ∃ st',
    (archive_page_step E u page all st = (Ok Break, st')
     ∧ page_set E u page ⊆ all) ∨
    (archive_page_step E u page all st
     = (Ok (Continue (all ∪ page_set E u page)), st')
     ∧ ¬ page_set E u page ⊆ all).
Proof.
  unfold archive_page_step, page_set.
  unfold try_except, bind, logging, sleep, emit, lift, ret.
  destruct (http_get_archive E (archive_url u page)) as [pg|e].
  - destruct (links_of pg) as [|l ls] eqn:Hl.
    { eexists. left. split; [done|]. set_solver. }
    rewrite <- Hl. clear Hl.
    destruct (decide (page_urls E u (links_of pg) = ∅)) as [Hc|Hc].
    { eexists. left. split; [done|]. set_solver. }
    destruct (decide (page_urls E u (links_of pg) ∖ all = ∅)) as [Hn|Hn].
    { eexists. left. split; [done|]. set_solver. }
    eexists. right. rewrite union_difference_absorb. split; [done|].
    intros Hsub. apply Hn. set_solver.
  - destruct e; try destruct (decide (status = 404%Z));
      eexists; left; (split; [done|set_solver]).
Qed.

Lemma pages_from_snoc E u k n :
  pages_from E u k (S n) = pages_from E u k n ∪ page_set E u (k + n).
Proof.
  revert k. induction n as [|n IH]; intros k.
  - cbn. rewrite Nat.add_0_r. set_solver.
  - change (pages_from E u k (S (S n)))
      with (page_set E u k ∪ pages_from E u (S k) (S n)).
    rewrite IH. cbn [pages_from].
    replace (S k + n) with (k + S n) by lia. set_solver.
Qed.

(** The loop, by what the pages hold. *)
Lemma walk_archive_exact E fuel u page all st r st' :
  walk_archive E fuel u page all st = (Ok (Some r), st') →
  ∃ n, n < fuel
       ∧ r = all ∪ pages_from E u page n
       ∧ page_set E u (page + n) ⊆ r
       ∧ ∀ i, i < n →
           ¬ page_set E u (page + i) ⊆ all ∪ pages_from E u page i.
Proof.
  revert page all st. induction fuel as [|fuel IH]; intros page all st Hrun.
  { cbn in Hrun. unfold ret in Hrun. done. }
  cbn [walk_archive] in Hrun. unfold bind at 1 in Hrun.
  destruct (archive_page_step_exact E u page all st)
    as [st1 [[Hstep Hsub]|[Hstep Hnew]]]; rewrite Hstep in Hrun.
  - unfold ret in Hrun. simplify_eq. exists 0.
    rewrite Nat.add_0_r. cbn [pages_from].
    split; [lia|]. split; [set_solver|]. split; [set_solver|]. lia.
  - apply IH in Hrun as (n & Hn & -> & Hstop & Hmin). exists (S n).
    split; [lia|]. cbn [pages_from].
    split; [set_solver|].
    split. { replace (page + S n) with (S page + n) by lia. set_solver. }
    intros [|i] Hi.
    + rewrite Nat.add_0_r. cbn [pages_from]. set_solver.
    + replace (page + S i) with (S page + i) by lia. cbn [pages_from].
      intros Hsub. apply (Hmin i); [lia|]. set_solver.
Qed.

Lemma elem_of_pages_from E u k n x :
  x ∈ pages_from E u k n ↔ ∃ i, i < n ∧ x ∈ page_set E u (k + i).
Proof.
  revert k. induction n as [|n IH]; intros k.
  - cbn. split; [set_solver|]. intros (i & ? & _). lia.
  - cbn [pages_from]. rewrite elem_of_union, IH. split.
    + intros [Hx|(i & Hi & Hx)].
      * exists 0. rewrite Nat.add_0_r. split; [lia|done].
      * exists (S i). replace (k + S i) with (S k + i) by lia.
        split; [lia|done].
    + intros ([|i] & Hi & Hx).
      * left. by rewrite Nat.add_0_r in Hx.
      * right. exists i. replace (S k + i) with (k + S i) by lia.
        split; [lia|done].
Qed.

(** X10.  What discovery returns has no duplicates, and every URL in it
    was made from an anchor of an archive page that was fetched: the
    anchor's target, resolved against the source, passed the post-link
    filter, and the URL is that target cut at its first question mark, so
    that it carries no query string. *)
Theorem discovered_urls_are_post_links E fuel substack_url urls st st' :
  get_all_post_urls E fuel substack_url st = (Ok (Some urls), st') →
  NoDup urls
  ∧ ∀ x, x ∈ urls →
      has_char "?" x = false
      ∧ ∃ page pg href,
          http_get_archive E (archive_url substack_url page) = Ok pg
          ∧ Some href ∈ links_of pg
          ∧ is_post_link E substack_url (urljoin E substack_url href) = true
          ∧ x = hd "" (Str.split "?" (urljoin E substack_url href)).
Proof.
  unfold get_all_post_urls. intros Hrun.
  apply bind_ok_inv in Hrun as (r & st1 & Hwalk & Hret).
  unfold ret in Hret. destruct r as [r|]; simplify_eq/=.
  split; [apply NoDup_elements|].
  intros x Hx%elem_of_elements.
  apply walk_archive_exact in Hwalk as (n & _ & -> & _).
  rewrite elem_of_union, elem_of_pages_from in Hx.
  destruct Hx as [Hx|(i & _ & Hx)]; [set_solver|].
  unfold page_set in Hx.
  destruct (http_get_archive E (archive_url substack_url (1 + i)))
    as [pg|] eqn:Hpg; [|set_solver].
  apply elem_of_page_urls in Hx as (href & Hin & _ & Hpl & ->).
  split; [apply split_hd_no_sep|]. by exists (1 + i), pg, href.
Qed.

Lemma discovered_urls_are_post_links_witness :
  NoDup ["https://s.test/p/a"; "https://s.test/p/b"]
  ∧ ∀ x, x ∈ ["https://s.test/p/a"; "https://s.test/p/b"] →
      has_char "?" x = false
      ∧ ∃ page pg href,
          http_get_archive DemoLog.world (archive_url "https://s.test/" page)
          = Ok pg
          ∧ Some href ∈ links_of pg
          ∧ is_post_link DemoLog.world "https://s.test/"
              (urljoin DemoLog.world "https://s.test/" href) = true
          ∧ x = hd "" (Str.split "?"
                         (urljoin DemoLog.world "https://s.test/" href)).
Proof.
  apply (discovered_urls_are_post_links DemoLog.world 2 "https://s.test/" _
           Demo.st0
           (add_events Demo.st0
              [EvLog INFO; EvGetArchive "https://s.test//archive?page=1";
               EvLog INFO; EvSleep;
               EvLog INFO; EvGetArchive "https://s.test//archive?page=2";
               EvLog INFO])).
  vm_compute; reflexivity.
Defined.



(** X12.  A request for an archive page that fails ends the walk
    without an exception and without losing what the pages before it
    gave; the failure is reported at level INFO for a 404 and at level
    ERROR for anything else.  When it is the first page, discovery
    returns the empty list. *)
Theorem failed_archive_page_ends_walk E fuel substack_url page all e st :
  http_get_archive E (archive_url substack_url page) = Raise e →
  walk_archive E (S fuel) substack_url page all st
  = (Ok (Some all),
     add_events st [EvLog INFO; EvGetArchive (archive_url substack_url page);
                    EvLog (archive_failure_level e)])
  ∧ (page = 1 →
     get_all_post_urls E (S fuel) substack_url st
     = (Ok (Some []),
        add_events st [EvLog INFO; EvGetArchive (archive_url substack_url 1);
                       EvLog (archive_failure_level e)])).
Proof.
  intros Hfail.
  assert (Hwalk : ∀ all',
    walk_archive E (S fuel) substack_url page all' st
    = (Ok (Some all'),
       add_events st [EvLog INFO; EvGetArchive (archive_url substack_url page);
                      EvLog (archive_failure_level e)])).
  { intros all'. cbn [walk_archive]. unfold archive_page_step.
    unfold try_except, bind, logging, emit, lift, ret. rewrite Hfail.
    unfold add_events, archive_failure_level.
    destruct e; [destruct (decide (status = 404%Z))|..];
      cbn; by rewrite <- !(assoc_L (++)). }
  split; [apply Hwalk|].
  intros ->. unfold get_all_post_urls, bind. rewrite Hwalk.
  unfold ret. cbn. by rewrite elements_empty.
Qed.

Lemma failed_archive_page_ends_walk_witness :
  walk_archive DemoMissing.world 1 "https://s.test/" 1 ∅ Demo.st0
  = (Ok (Some ∅),
     add_events Demo.st0
       [EvLog INFO; EvGetArchive (archive_url "https://s.test/" 1);
        EvLog (archive_failure_level (HTTPError 404))])
  ∧ (1 = 1 →
     get_all_post_urls DemoMissing.world 1 "https://s.test/" Demo.st0
     = (Ok (Some []),
        add_events Demo.st0
          [EvLog INFO; EvGetArchive (archive_url "https://s.test/" 1);
           EvLog (archive_failure_level (HTTPError 404))])).
Proof.
  apply (failed_archive_page_ends_walk DemoMissing.world 0 "https://s.test/" 1 ∅
           (HTTPError 404) Demo.st0).
  reflexivity.
Defined.

(* ===================================================================== *)
(** * The asset localizer: what it leaves alone *)
(* ===================================================================== *)

#[global] Instance fs_grows_po : PreOrder fs_grows.
Proof.
  split.
  - intros st. unfold fs_grows. done.
  - intros st1 st2 st3 H12 H23. unfold fs_grows in *. by etrans.
Qed.

#[global] Instance fs_grows_emit : EmitFrame fs_grows.
Proof. intros st ev _. unfold fs_grows. done. Qed.

Lemma makedirs_grows E d : preserves fs_grows (makedirs E d).
Proof.
  intros st r st' Hrun. unfold makedirs, fs_grows in *.
  unfold bind, get_fs, put_fs, emit, ret, raise in Hrun.
  destruct (fs st !! d) as [[]|] eqn:Hd; simplify_eq; try done.
  destruct (mkdir_ok E d); simplify_eq; [|done].
  cbn. by apply insert_subseteq.
Qed.

Lemma write_file_fresh_grows E p c st r st' :
  fs st !! p = None → write_file E p c st = (r, st') → fs_grows st st'.
Proof.
  intros Hp Hrun. unfold write_file, fs_grows in *.
  unfold bind, get_fs, put_fs, emit, ret, raise in Hrun. rewrite Hp in Hrun.
  destruct (write_ok E p); simplify_eq; [|done].
  cbn. by apply insert_subseteq.
Qed.

Lemma localize_image_grows E b d s a imgs tag :
  preserves fs_grows (localize_image E b d s a imgs tag).
Proof.
  unfold localize_image.
  destruct (img_src tag) as [src|]; [|pres_auto].
  destruct (negb (nonempty src)); [pres_auto|].
  refine (preserves_try_except _ _ _ _ _); [|intros ?; pres_auto].
  cbv zeta. destruct (Str.startswith "data:" (urljoin E b src)); [pres_auto|].
  pres_step; [pres_auto|]. pres_step; [pres_auto|].
  refine (preserves_bind _ _ _ _ _); [pres_auto|intros img_response].
  intros st r st' Hrun.
  destruct (unique_name_spec d
              (safe_filename_base_of E (urljoin E b src) imgs tag)
              (image_ext_of E (urljoin E b src) img_response) st
              (image_ext_no_slash _ _ _)) as (k & Hname & Hfree & _).
  unfold bind at 1 in Hrun. rewrite Hname in Hrun.
  apply bind_inv in Hrun as [(? & st1 & Hw & Hrest)|(e & Hw & _)].
  - etrans; [by eapply write_file_fresh_grows|].
    revert Hrest. apply preserves_run. pres_auto.
  - by eapply write_file_fresh_grows.
Qed.

Lemma localize_loop_grows E b d s a done todo :
  preserves fs_grows (localize_loop E b d s a done todo).
Proof.
  revert done. induction todo as [|tag todo IH]; intros done; cbn [localize_loop].
  - pres_auto.
  - pres_step; [apply localize_image_grows|apply IH].
Qed.

(** X13.  The asset localizer never overwrites, changes or removes
    anything that is already in the file tree: it creates the asset
    directory when it is missing and writes every image under a name that
    is free.  This holds whatever the requests answer, and also when the
    directory cannot be made or a write fails. *)
Theorem localizer_never_overwrites E html base_url dest_dir slug assets st
    p n :
  fs st !! p = Some n →
  fs (download_images_and_rewrite_paths E html base_url dest_dir slug assets
        st).2 !! p = Some n.
Proof.
  assert (preserves fs_grows
            (download_images_and_rewrite_paths E html base_url dest_dir slug
               assets)) as Hpres.
  { unfold download_images_and_rewrite_paths. cbv zeta.
    destruct (soup_images E html); [pres_auto|].
    pres_step; [apply makedirs_grows|].
    pres_step; [apply localize_loop_grows|pres_auto]. }
  intros Hp.
  destruct (download_images_and_rewrite_paths E html base_url dest_dir slug
              assets st) as [r st'] eqn:Hrun.
  apply Hpres in Hrun. unfold fs_grows in Hrun. cbn.
  by eapply lookup_weaken.
Qed.

Lemma localizer_never_overwrites_witness :
  fs (download_images_and_rewrite_paths DemoCollision.world
        "<p><img><img></p>" "https://s.test/p/a" DemoCollision.dest_dir "post"
        "assets" DemoOccupied.st_taken).2
     !! "out/assets/post/photo.png"
  = Some (File (Text "kept")).
Proof.
  apply (localizer_never_overwrites DemoCollision.world "<p><img><img></p>"
           "https://s.test/p/a" DemoCollision.dest_dir "post" "assets"
           DemoOccupied.st_taken).
  vm_compute; reflexivity.
Defined.

(** What one turn of the loop may do to a tag. *)
Lemma localize_image_shape E b d s a imgs tag st tag' st' :
  localize_image E b d s a imgs tag st = (Ok tag', st') →
  img_attrs tag' = img_attrs tag
  ∧ (img_src tag' = img_src tag
     ∨ ∃ name, img_src tag' = Some (path_join (path_join a s) name)).
Proof.
  unfold localize_image, write_file.
  unfold try_except, bind, logging, emit, lift, ret, raise, get_fs, put_fs.
  intros Hrun.
  repeat (case_match; simplify_eq; cbn in * ); eauto.
Qed.

Lemma localize_loop_shape E b d s a done todo st imgs st' :
  localize_loop E b d s a done todo st = (Ok imgs, st') →
  ∃ tail,
    imgs = done ++ tail
    ∧ Forall2 (λ tag tag',
                 img_attrs tag' = img_attrs tag
                 ∧ (img_src tag' = img_src tag
                    ∨ ∃ name,
                        img_src tag' = Some (path_join (path_join a s) name)))
        todo tail.
Proof.
  revert done st. induction todo as [|tag todo IH]; intros done st Hrun;
    cbn [localize_loop] in Hrun.
  - unfold ret in Hrun. simplify_eq. exists []. by rewrite app_nil_r.
  - apply bind_ok_inv in Hrun as (tag' & st1 & Himg & Hrest).
    apply IH in Hrest as (tail & -> & Htail).
    exists (tag' :: tail). rewrite <- (assoc_L (++)). split; [done|].
    constructor; [|done]. by eapply localize_image_shape.
Qed.

(** X14.  Once the asset directory is there, the localizer does not
    fail, whatever happens to the single images, and what it hands to the
    serializer are the tags of the fragment, as many and in the same
    order: each keeps its other attributes, and its [src] is either what
    it was or a path below [assets/slug]. *)
Theorem localizer_rewrites_only_src E html base_url dest_dir slug assets st st1 :
  soup_images E html ≠ [] →
  makedirs E dest_dir st = (Ok tt, st1) →
  ∃ imgs st',
    download_images_and_rewrite_paths E html base_url dest_dir slug assets st
    = (Ok (soup_str E html imgs), st')
    ∧ Forall2 (λ tag tag',
                 img_attrs tag' = img_attrs tag
                 ∧ (img_src tag' = img_src tag
                    ∨ ∃ name,
                        img_src tag'
                        = Some (path_join (path_join assets slug) name)))
        (soup_images E html) imgs.
Proof.
  intros Himgs Hdir. unfold download_images_and_rewrite_paths. cbv zeta.
  destruct (soup_images E html) as [|tag tags] eqn:Hfound; [done|].
  unfold bind at 1. rewrite Hdir.
  destruct (localize_loop_ok E base_url dest_dir slug assets [] (tag :: tags)
              st1) as (imgs & st' & Hloop).
  unfold bind at 1. rewrite Hloop. unfold ret.
  exists imgs, st'. split; [done|].
  apply localize_loop_shape in Hloop as (tail & -> & Htail). done.
Qed.

Lemma localizer_rewrites_only_src_witness :
  ∃ imgs st',
    download_images_and_rewrite_paths DemoCollision.world "<p><img><img></p>"
      "https://s.test/p/a" DemoCollision.dest_dir "post" "assets" Demo.st0
    = (Ok (soup_str DemoCollision.world "<p><img><img></p>" imgs), st')
    ∧ Forall2 (λ tag tag',
                 img_attrs tag' = img_attrs tag
                 ∧ (img_src tag' = img_src tag
                    ∨ ∃ name,
                        img_src tag'
                        = Some (path_join (path_join "assets" "post") name)))
        (soup_images DemoCollision.world "<p><img><img></p>") imgs.
Proof.
  apply (localizer_rewrites_only_src DemoCollision.world "<p><img><img></p>"
           "https://s.test/p/a" DemoCollision.dest_dir "post" "assets" Demo.st0
           DemoCollision.st1).
  - vm_compute; discriminate.
  - vm_compute; reflexivity.
Defined.

(* ===================================================================== *)
(** * Rendering: which paths it touches, and how a conversion ends *)
(* ===================================================================== *)

Section Touches.

Context (E : Env) (P : string → Prop).

#[global] Instance touches_only_po : PreOrder (touches_only P).
Proof.
  split.
  - by intros st p _.
  - intros st1 st2 st3 H12 H23 p Hp. by rewrite H23, H12.
Qed.

#[global] Instance touches_only_emit : EmitFrame (touches_only P).
Proof. by intros st ev _ p _. Qed.

Lemma touches_write_file p c :
  P p → preserves (touches_only P) (write_file E p c).
Proof.
  intros HP st r st' Hrun q Hq. unfold write_file in Hrun.
  unfold bind, get_fs, put_fs, emit, ret, raise in Hrun.
  repeat (case_match; simplify_eq); try done.
  all: cbn; apply lookup_insert_ne; by intros ->.
Qed.

Lemma touches_remove p : P p → preserves (touches_only P) (remove p).
Proof.
  intros HP st r st' Hrun q Hq. unfold remove in Hrun.
  unfold bind, get_fs, put_fs, emit, ret, raise in Hrun.
  repeat (case_match; simplify_eq); try done.
  cbn. apply lookup_delete_ne. by intros ->.
Qed.

Lemma touches_convert_file i f o :
  P o → preserves (touches_only P) (convert_file E i f o).
Proof.
  intros HP st r st' Hrun q Hq. unfold convert_file in Hrun.
  unfold bind, get_fs, put_fs, emit, ret, raise, lift in Hrun.
  cbn in Hrun.
  repeat (case_match; simplify_eq); try done.
  all: cbn; apply lookup_insert_ne; by intros ->.
Qed.

End Touches.

(** X15.  Once the directory of the output file is there, one render
    of a format touches nothing in the file tree but the output file and
    the temporary HTML file: every other path is afterwards what it was,
    for every format name and whether the render succeeds, is skipped or
    raises. *)
Theorem render_touches_only_its_paths E m html output_dir prefix slug fmt st
    p :
  fs st !! path_dirname (output_path output_dir prefix slug fmt) = Some Dir →
  ¬ render_paths output_dir prefix slug fmt p →
  fs (render_format E m html output_dir prefix slug fmt st).2 !! p
  = fs st !! p.
Proof.
  intros Hdir Hp.
  destruct (render_format E m html output_dir prefix slug fmt st)
    as [r st'] eqn:Hrun.
  cbn [snd]. unfold render_format in Hrun. cbv zeta in Hrun.
  fold (output_path output_dir prefix slug fmt) in Hrun.
  unfold bind at 1 in Hrun. rewrite (makedirs_existing _ _ _ Hdir) in Hrun.
  set (P := render_paths output_dir prefix slug fmt) in *.
  pose proof (touches_write_file E P).
  pose proof (touches_remove P).
  pose proof (touches_convert_file E P).
  assert (P (output_path output_dir prefix slug fmt)) by (by left).
  assert (P (temp_html_path_of output_dir prefix slug)) by (by right).
  revert p Hp. change (touches_only P st st').
  repeat (destruct (decide _) in Hrun);
    try (eapply (preserves_run (touches_only P)); [|exact Hrun];
         by pres_auto).
  unfold bind at 1 in Hrun. rewrite (makedirs_existing _ _ _ Hdir) in Hrun.
  eapply (preserves_run (touches_only P)); [|exact Hrun].
  unfold render_pandoc. cbv zeta. pres_auto.
Qed.

Lemma render_touches_only_its_paths_witness :
  fs (render_format DemoLog.world (mkMeta (JStr "Post") JNull
        (JStr "2023-01-01") [] "https://s.test/p/a") "<p>text</p>" "out"
        "20230101" "post" "pdf" DemoPlain.st_notes).2
     !! "notes"
  = fs DemoPlain.st_notes !! "notes".
Proof.
  apply (render_touches_only_its_paths DemoLog.world).
  - vm_compute; reflexivity.
  - vm_compute. intros [H|H]; discriminate H.
Defined.

Lemma write_file_ok E p c st :
  fs st !! p ≠ Some Dir → write_ok E p = true →
  write_file E p c st
  = (Ok tt, mkState (<[p := File c]> (fs st)) (processed_urls_set st)
              (trace st ++ [EvWrite p])).
Proof.
  intros Hp Hw. unfold write_file, bind, get_fs, put_fs, emit, ret, raise.
  rewrite Hw. by destruct (fs st !! p) as [[]|].
Qed.

Lemma cleanup_existing t c st :
  nonempty t = true → fs st !! t = Some (File c) →
  (let* ex := path_exists t in
   if nonempty t && ex then remove t else ret tt) st
  = (Ok tt, mkState (delete t (fs st)) (processed_urls_set st)
              (trace st ++ [EvRemove t])).
Proof.
  intros Hne Ht. unfold path_exists, remove, bind, get_fs, put_fs, emit, ret.
  rewrite Hne, Ht. cbn. by rewrite ?Ht.
Qed.

Lemma app_inj_l s t1 t2 : s +:+ t1 = s +:+ t2 → t1 = t2.
Proof.
  induction s as [|c s IH]; [by rewrite !app_nil_l|].
  rewrite !app_cons. intros [=]. auto.
Qed.

(** The output file and the temporary HTML file are never the same path. *)
Lemma output_path_not_temp o prefix slug fmt :
  output_path o prefix slug fmt ≠ temp_html_path_of o prefix slug.
Proof.
  unfold output_path, temp_html_path_of. intros Heq.
  apply path_join_inj in Heq.
  - apply app_inj_l in Heq. apply app_inj_l in Heq. apply app_inj_l in Heq.
    discriminate Heq.
  - destruct prefix as [|c prefix]; [by rewrite !app_nil_l|].
    by rewrite !app_cons.
Qed.

(** X16.  When the conversion raises, the pdf/epub render still returns
    normally: the failure is logged, the temporary HTML file is removed
    again, no output file is written, and the post goes on to its next
    format.  The file tree ends as it began (less a stale file at the
    temporary path). *)
Theorem failed_conversion_is_cleaned_up E m html output_dir prefix slug fmt
    filepath e st :
  fs st !! temp_html_path_of output_dir prefix slug ≠ Some Dir →
  write_ok E (temp_html_path_of output_dir prefix slug) = true →
  pandoc E (pandoc_document E m html) fmt = Raise e →
  render_pandoc E m html output_dir prefix slug fmt filepath st
  = (Ok tt,
     mkState (delete (temp_html_path_of output_dir prefix slug) (fs st))
       (processed_urls_set st)
       (trace st ++ failed_render_events
                      (temp_html_path_of output_dir prefix slug) fmt filepath e)).
Proof.
  intros Hfree Hw Hfail. unfold render_pandoc. cbv zeta.
  set (temp := temp_html_path_of output_dir prefix slug) in *.
  pose proof (temp_html_path_nonempty output_dir prefix slug) as Hne.
  fold temp in Hne.
  unfold try_except. unfold bind at 1.
  rewrite (write_file_ok _ _ _ _ Hfree Hw).
  unfold bind at 1. unfold convert_file.
  unfold bind at 1, emit at 1. unfold bind at 1, get_fs at 1.
  cbn [fs processed_urls_set trace]. rewrite lookup_insert_eq.
  unfold bind at 1, lift at 1. rewrite Hfail.
  unfold bind at 1, logging at 1, emit at 1.
  cbn [fs processed_urls_set trace].
  unfold bind at 1.
  set (st2 := mkState _ _ _).
  assert (∃ evs, (match e with
                  | PandocFailure true => logging ERROR
                  | _ => ret tt
                  end) st2 = (Ok tt, add_events st2 evs)
                 ∧ evs = match e with
                         | PandocFailure true => [EvLog ERROR]
                         | _ => []
                         end) as (evs & -> & Hevs).
  { destruct e as [| | | | | | |[]|];
      (eexists; split; [|reflexivity]); by rewrite ?add_events_nil. }
  rewrite (cleanup_existing temp (Text (pandoc_document E m html))); [|done|].
  - subst st2. cbn [add_events fs processed_urls_set trace].
    rewrite delete_insert_eq. unfold failed_render_events. rewrite <- Hevs.
    by rewrite <- !(assoc_L (++)).
  - subst st2. cbn. by rewrite lookup_insert_eq.
Qed.

Lemma failed_conversion_is_cleaned_up_witness :
  render_pandoc DemoNoPandoc.world
    (mkMeta (JStr "Post") JNull (JStr "2023-01-01") [] "https://s.test/p/a")
    "<p>text</p>" "out" "20230101" "post" "pdf" "out/20230101_post.pdf"
    Demo.st0
  = (Ok tt,
     mkState (delete (temp_html_path_of "out" "20230101" "post") (fs Demo.st0))
       (processed_urls_set Demo.st0)
       (trace Demo.st0
        ++ failed_render_events (temp_html_path_of "out" "20230101" "post")
             "pdf" "out/20230101_post.pdf" (PandocFailure false))).
Proof.
  apply (failed_conversion_is_cleaned_up DemoNoPandoc.world).
  - vm_compute; discriminate.
  - vm_compute; reflexivity.
  - vm_compute; reflexivity.
Defined.

(** X17.  When the conversion succeeds and its output can be written,
    the pdf/epub render adds exactly one file, the output file with the
    converted document, and removes the temporary HTML file it made. *)
Theorem successful_conversion_leaves_one_file E m html output_dir prefix slug
    fmt out st :
  fs st !! temp_html_path_of output_dir prefix slug ≠ Some Dir →
  write_ok E (temp_html_path_of output_dir prefix slug) = true →
  pandoc E (pandoc_document E m html) fmt = Ok out →
  fs st !! output_path output_dir prefix slug fmt ≠ Some Dir →
  write_ok E (output_path output_dir prefix slug fmt) = true →
  render_pandoc E m html output_dir prefix slug fmt
    (output_path output_dir prefix slug fmt) st
  = (Ok tt,
     mkState (<[output_path output_dir prefix slug fmt := File (Text out)]>
                (delete (temp_html_path_of output_dir prefix slug) (fs st)))
       (processed_urls_set st)
       (trace st ++
        [EvWrite (temp_html_path_of output_dir prefix slug);
         EvPandoc (temp_html_path_of output_dir prefix slug) fmt
           (output_path output_dir prefix slug fmt);
         EvWrite (output_path output_dir prefix slug fmt);
         EvLog INFO;
         EvRemove (temp_html_path_of output_dir prefix slug)])).
Proof.
  intros Hfree Hw Hok Hout Hwout. unfold render_pandoc. cbv zeta.
  pose proof (output_path_not_temp output_dir prefix slug fmt) as Hdiff.
  set (temp := temp_html_path_of output_dir prefix slug) in *.
  set (path := output_path output_dir prefix slug fmt) in *.
  pose proof (temp_html_path_nonempty output_dir prefix slug) as Hne.
  fold temp in Hne.
  unfold try_except. unfold bind at 1.
  rewrite (write_file_ok _ _ _ _ Hfree Hw).
  unfold bind at 1. unfold convert_file.
  unfold bind at 1, emit at 1. unfold bind at 1, get_fs at 1.
  cbn [fs processed_urls_set trace]. rewrite lookup_insert_eq.
  unfold bind at 1, lift at 1. rewrite Hok.
  rewrite lookup_insert_ne by done. rewrite Hwout.
  assert (match fs st !! path with
          | Some Dir => raise (PandocFailure false)
          | _ => put_fs (<[path := File (Text out)]>
                           (<[temp := File (Text (pandoc_document E m html))]>
                              (fs st))) >> emit (EvWrite path)
          end
          = (put_fs (<[path := File (Text out)]>
                       (<[temp := File (Text (pandoc_document E m html))]>
                          (fs st))) >> emit (EvWrite path))) as ->.
  { by destruct (fs st !! path) as [[]|]. }
  unfold bind at 1, put_fs at 1, emit at 1.
  cbn [fs processed_urls_set trace].
  unfold bind at 1, logging at 1, emit at 1.
  cbn [fs processed_urls_set trace].
  rewrite (cleanup_existing temp (Text (pandoc_document E m html))); [|done|].
  - cbn [fs processed_urls_set trace].
    rewrite delete_insert_ne by done. rewrite delete_insert_eq.
    by rewrite <- !(assoc_L (++)).
  - cbn. rewrite lookup_insert_ne by done. by rewrite lookup_insert_eq.
Qed.

Lemma successful_conversion_leaves_one_file_witness :
  render_pandoc DemoLog.world
    (mkMeta (JStr "Post") JNull (JStr "2023-01-01") [] "https://s.test/p/a")
    "<p>text</p>" "out" "20230101" "post" "pdf"
    (output_path "out" "20230101" "post" "pdf") Demo.st0
  = (Ok tt,
     mkState (<[output_path "out" "20230101" "post" "pdf"
                := File (Text "binary")]>
                (delete (temp_html_path_of "out" "20230101" "post")
                   (fs Demo.st0)))
       (processed_urls_set Demo.st0)
       (trace Demo.st0 ++
        [EvWrite (temp_html_path_of "out" "20230101" "post");
         EvPandoc (temp_html_path_of "out" "20230101" "post") "pdf"
           (output_path "out" "20230101" "post" "pdf");
         EvWrite (output_path "out" "20230101" "post" "pdf");
         EvLog INFO;
         EvRemove (temp_html_path_of "out" "20230101" "post")])).
Proof.
  apply (successful_conversion_leaves_one_file DemoLog.world).
  - vm_compute; discriminate.
  - vm_compute; reflexivity.
  - vm_compute; reflexivity.
  - vm_compute; discriminate.
  - vm_compute; reflexivity.
Defined.

(* ===================================================================== *)
(** * The run as a whole *)
(* ===================================================================== *)

(** Relations that tolerate the writes of the program and the removal of
    a temporary HTML file are kept by every function, up to [cli]. *)
Section WriteFrames.

Context (E : Env) (R : relation state) `{!PreOrder R} `{!EmitFrame R}
  `{!PostFrame R} `{!SetFrame R} `{!GrowFrame R}.

Hypothesis keeps_makedirs : ∀ p, preserves R (makedirs E p).
Hypothesis keeps_write_file : ∀ p c, preserves R (write_file E p c).
Hypothesis keeps_convert_file : ∀ i f o, preserves R (convert_file E i f o).
Hypothesis keeps_remove_temp :
  ∀ o p s, preserves R (remove (temp_html_path_of o p s)).

Lemma writes_localize_image b d s a imgs tag :
  preserves R (localize_image E b d s a imgs tag).
Proof.
  unfold localize_image. pose proof (preserves_unique_name R). pres_auto.
Qed.

Lemma writes_localize_loop b d s a done todo :
  preserves R (localize_loop E b d s a done todo).
Proof.
  revert done. induction todo as [|tag todo IH]; intros done; simpl.
  - pres_auto.
  - pose proof writes_localize_image. pres_auto.
Qed.

Lemma writes_download_images html b d s a :
  preserves R (download_images_and_rewrite_paths E html b d s a).
Proof.
  unfold download_images_and_rewrite_paths.
  pose proof writes_localize_loop. pres_auto.
Qed.

Lemma writes_prepare_post u o flag a :
  preserves R (prepare_post E u o flag a).
Proof.
  unfold prepare_post.
  pose proof (preserves_extract_metadata E R).
  pose proof (preserves_resolve_title R).
  pose proof (preserves_slugify_value E R).
  pose proof writes_download_images.
  pres_auto.
Qed.

Lemma writes_save_to_download_log p u :
  preserves R (save_to_download_log E p u).
Proof.
  intros st r st' H. unfold save_to_download_log in H.
  unfold bind at 1 in H. unfold get_set at 1 in H.
  unfold bind at 1 in H. unfold put_set at 1 in H.
  etrans; [apply (grow_frame st u) |].
  eapply preserves_run; [| exact H]. pres_auto.
Qed.

Lemma writes_render_pandoc m html o p s fmt path :
  preserves R (render_pandoc E m html o p s fmt path).
Proof. unfold render_pandoc. pres_auto. Qed.

Lemma writes_render_format m html o p s fmt :
  preserves R (render_format E m html o p s fmt).
Proof. unfold render_format. pose proof writes_render_pandoc. pres_auto. Qed.

Lemma writes_render_post m html slug o fmts :
  preserves R (render_post E m html slug o fmts).
Proof.
  unfold render_post.
  pose proof (preserves_filename_date_prefix E R).
  pose proof (preserves_slugify_value E R).
  pose proof writes_render_format. pres_auto.
Qed.

Lemma writes_process_single_post u o fmts flag a inc logp :
  preserves R (process_single_post E u o fmts flag a inc logp).
Proof.
  unfold process_single_post, process_post_body.
  pose proof writes_prepare_post. pose proof writes_render_post.
  pose proof writes_save_to_download_log. pres_auto.
Qed.

Lemma writes_process_posts a fmts o logp urls c :
  preserves R (process_posts E a fmts o logp urls c).
Proof.
  revert c. induction urls as [|u urls IH]; intros c; simpl.
  - pres_auto.
  - pose proof writes_process_single_post. pres_auto.
Qed.

Lemma writes_process_substack fuel a fmts idx u :
  preserves R (process_substack E fuel a fmts idx u).
Proof.
  unfold process_substack, substack_output_dir, open_log, crawl_substack.
  pose proof (preserves_load_download_log E R).
  pose proof (preserves_get_all_post_urls E R).
  pose proof writes_process_posts. pres_auto.
Qed.

Lemma writes_cli_loop fuel a fmts idx urls :
  preserves R (cli_loop E fuel a fmts idx urls).
Proof.
  revert idx. induction urls as [|u urls IH]; intros idx; simpl.
  - pres_auto.
  - pose proof writes_process_substack. pres_auto.
Qed.

Lemma writes_cli fuel a : preserves R (cli E fuel a).
Proof. unfold cli. pose proof writes_cli_loop. pres_auto. Qed.

End WriteFrames.

#[global] Instance keeps_paths_po : PreOrder keeps_paths.
Proof.
  split.
  - by intros st p _ ?.
  - intros st1 st2 st3 H12 H23 p Hp ?. apply H23, H12; done.
Qed.
#[global] Instance keeps_paths_emit : EmitFrame keeps_paths.
Proof. by intros st ev _ p _ ?. Qed.
#[global] Instance keeps_paths_post : PostFrame keeps_paths.
Proof. by intros st u p _ ?. Qed.
#[global] Instance keeps_paths_set : SetFrame keeps_paths.
Proof. by intros st s p _ ?. Qed.
#[global] Instance keeps_paths_grow : GrowFrame keeps_paths.
Proof. by intros st u p _ ?. Qed.

Lemma keeps_paths_insert (f : gmap string node) n p s t s' t' :
  keeps_paths (mkState f s t) (mkState (<[p := n]> f) s' t').
Proof.
  intros q _ Hq. cbn in *. destruct (decide (p = q)) as [->|Hne].
  - rewrite lookup_insert_eq. eauto.
  - by rewrite lookup_insert_ne.
Qed.

Lemma keeps_paths_same (f : gmap string node) s t s' t' :
  keeps_paths (mkState f s t) (mkState f s' t').
Proof. by intros q _ Hq. Qed.

Lemma keeps_paths_makedirs E p : preserves keeps_paths (makedirs E p).
Proof.
  intros [f s t] r st' Hrun. unfold makedirs in Hrun.
  unfold bind, get_fs, put_fs, emit, ret, raise in Hrun. cbn in Hrun.
  repeat (case_match; simplify_eq);
    first [apply keeps_paths_same | apply keeps_paths_insert].
Qed.

Lemma keeps_paths_write_file E p c : preserves keeps_paths (write_file E p c).
Proof.
  intros [f s t] r st' Hrun. unfold write_file in Hrun.
  unfold bind, get_fs, put_fs, emit, ret, raise in Hrun. cbn in Hrun.
  repeat (case_match; simplify_eq);
    first [apply keeps_paths_same | apply keeps_paths_insert].
Qed.

Lemma keeps_paths_convert_file E i f o :
  preserves keeps_paths (convert_file E i f o).
Proof.
  intros [f0 s t] r st' Hrun. unfold convert_file in Hrun.
  unfold bind, get_fs, put_fs, emit, ret, raise, lift in Hrun. cbn in Hrun.
  repeat (case_match; simplify_eq);
    first [apply keeps_paths_same | apply keeps_paths_insert].
Qed.

Lemma keeps_paths_remove_temp o p s :
  preserves keeps_paths (remove (temp_html_path_of o p s)).
Proof.
  intros [f s0 t] r st' Hrun. unfold remove in Hrun.
  unfold bind, get_fs, put_fs, emit, ret, raise in Hrun. cbn in Hrun.
  repeat (case_match; simplify_eq); try apply keeps_paths_same.
  intros q Hq ?. cbn in *. rewrite lookup_delete_ne; [done|].
  intros <-. apply Hq. by exists o, p, s.
Qed.

Lemma temp_html_is_long p : is_temp_html p → 10 ≤ String.length p.
Proof.
  intros (o & pr & sl & ->). unfold temp_html_path_of.
  etrans; [|apply path_join_length]. rewrite !length_app. cbn. lia.
Qed.

(** X18.  A whole run loses nothing that was in the file tree: a
    directory is still a directory afterwards, and any path that was
    there is still there (a file may have been rewritten), unless it has
    the shape of a temporary HTML file.  This holds for every outcome of
    the run, an exception included. *)
Theorem run_loses_no_path E fuel a st p :
  (fs st !! p = Some Dir → fs (cli E fuel a st).2 !! p = Some Dir) ∧
  (¬ is_temp_html p → is_Some (fs st !! p) →
   is_Some (fs (cli E fuel a st).2 !! p)).
Proof.
  destruct (cli E fuel a st) as [r st'] eqn:Hrun. cbn. split.
  - revert p. change (keeps_dirs st st'). revert Hrun. apply preserves_run.
    apply writes_cli; try apply _; intros; eauto with pres typeclass_instances.
  - revert p. change (keeps_paths st st'). revert Hrun. apply preserves_run.
    apply writes_cli; try apply _.
    + apply keeps_paths_makedirs.
    + apply keeps_paths_write_file.
    + apply keeps_paths_convert_file.
    + apply keeps_paths_remove_temp.
Qed.

Lemma run_loses_no_path_witness :
  fs (cli DemoLog.world 3 DemoRerun.run DemoPlain.st_notes).2 !! "out"
  = Some Dir
  ∧ is_Some (fs (cli DemoLog.world 3 DemoRerun.run DemoPlain.st_notes).2
             !! "notes").
Proof.
  split.
  - apply (proj1 (run_loses_no_path DemoLog.world 3 DemoRerun.run
                    DemoPlain.st_notes "out")).
    vm_compute; reflexivity.
  - apply (proj2 (run_loses_no_path DemoLog.world 3 DemoRerun.run
                    DemoPlain.st_notes "notes")).
    + intros H%temp_html_is_long. vm_compute in H. lia.
    + vm_compute. eauto.
Defined.

(* ===================================================================== *)
(** * Without the incremental log *)
(* ===================================================================== *)

Lemma post_requests_quiet evs :
  Forall not_post_fetch evs → post_requests evs = [].
Proof.
  induction 1 as [|ev evs Hev _ IH]; [done|].
  unfold post_requests in *. cbn. rewrite IH. by destruct ev.
Qed.

Lemma no_post_fetched_requests st st' :
  no_post_fetched st st' →
  post_requests (trace st') = post_requests (trace st).
Proof.
  intros (evs & -> & Hevs). unfold post_requests. rewrite omap_app.
  pose proof (post_requests_quiet evs Hevs) as Hq. unfold post_requests in Hq.
  by rewrite Hq, app_nil_r.
Qed.

#[global] Instance no_post_fetched_grow : GrowFrame no_post_fetched.
Proof. intros st u. exists []. simpl. by rewrite app_nil_r. Qed.

(** A post that is not skipped is requested first; what follows keeps
    any relation the other effects keep. *)
Lemma process_single_post_after_request E (R : relation state) `{!PreOrder R}
    `{!EmitFrame R} `{!FsFrame R} url out fmts flag assets inc logp st r st' :
  (inc = true → GrowFrame R) →
  not_skipped inc url st →
  process_single_post E url out fmts flag assets inc logp st = (r, st') →
  R (add_events st [EvLog INFO; EvGetPost url]) st'.
Proof.
  intros Hgrow Hskip. unfold not_skipped in Hskip.
  unfold process_single_post. unfold bind at 1, get_set at 1.
  rewrite Hskip. intros Hrun.
  assert (∀ x st1,
    process_post_body E url out fmts flag assets inc logp st = (x, st1) →
    R (add_events st [EvLog INFO; EvGetPost url]) st1) as Hbody.
  { clear Hrun. intros x st1 Hrun.
    unfold process_post_body, prepare_post in Hrun. cbv zeta in Hrun.
    pose proof (preserves_extract_metadata E R).
    pose proof (preserves_resolve_title R).
    pose proof (preserves_slugify_value E R).
    pose proof (preserves_download_images E R).
    pose proof (preserves_render_post E R).
    apply bind_inv in Hrun as [(y & s1 & Hprep & Hafter)|(e & Hprep & _)].
    - unfold bind at 1 in Hprep. unfold logging at 1, emit at 1 in Hprep.
      unfold bind at 1 in Hprep. unfold emit at 1 in Hprep.
      cbn [fs processed_urls_set trace] in Hprep.
      rewrite <- (assoc_L (++)) in Hprep. unfold add_events.
      etrans.
      + eapply (preserves_run R); [|exact Hprep]. pres_auto.
      + eapply (preserves_run R); [|exact Hafter]. destruct y as [[m c] s].
        destruct inc; [pose proof (Hgrow eq_refl)|].
        * pose proof (preserves_save_to_download_log E R). pres_auto.
        * pres_auto.
    - unfold bind at 1 in Hprep. unfold logging at 1, emit at 1 in Hprep.
      unfold bind at 1 in Hprep. unfold emit at 1 in Hprep.
      cbn [fs processed_urls_set trace] in Hprep.
      rewrite <- (assoc_L (++)) in Hprep. unfold add_events.
      eapply (preserves_run R); [|exact Hprep]. pres_auto. }
  apply try_except_inv in Hrun as [(x & Hrun & _)|(e & st1 & Hrun & Hh)].
  - by eapply Hbody.
  - etrans; [by eapply Hbody|].
    eapply (preserves_run R); [|exact Hh]. pres_auto.
Qed.

(** X19.  Without the incremental mode nothing is skipped: the loop
    over the posts requests every URL it is given, once and in order,
    whether the posts before it succeeded or failed; it counts none as
    skipped and never touches the processed set. *)
Theorem plain_run_requests_every_post E a fmts out logp urls c st :
  incremental a = false →
  ∃ c' st',
    process_posts E a fmts out logp urls c st = (Ok c', st')
    ∧ post_requests (trace st') = post_requests (trace st) ++ urls
    ∧ skipped_downloads c' = skipped_downloads c
    ∧ processed_urls_set st' = processed_urls_set st.
Proof.
  intros Hinc.
  destruct (process_posts_total E a fmts out logp urls c st)
    as (c' & st' & Hrun & _).
  exists c', st'. split; [done|].
  revert c st Hrun. induction urls as [|u urls IH]; intros c st Hrun.
  - cbn in Hrun. unfold ret in Hrun. simplify_eq. by rewrite app_nil_r.
  - cbn [process_posts] in Hrun. rewrite Hinc in Hrun. cbn [andb] in Hrun.
    unfold bind at 1 in Hrun. unfold logging at 1, emit at 1 in Hrun.
    unfold bind at 1 in Hrun. unfold get_set at 1 in Hrun.
    apply bind_ok_inv in Hrun as (b & st1 & Hpost & Hrest).
    pose proof (process_single_post_after_request E no_post_fetched
                  _ _ _ _ _ false _ _ _ _ ltac:(done) ltac:(done) Hpost)
      as Hq%no_post_fetched_requests.
    pose proof (process_single_post_after_request E same_set
                  _ _ _ _ _ false _ _ _ _ ltac:(done) ltac:(done) Hpost) as Hs.
    unfold same_set in Hs. cbn in Hq, Hs.
    apply IH in Hrest as (Hreq & Hskip & Hset).
    rewrite Hreq, Hq, Hset, Hs, Hskip.
    split; [|by destruct b].
    unfold post_requests. rewrite !omap_app. cbn.
    by rewrite <- !(assoc_L (++)).
Qed.

Lemma plain_run_requests_every_post_witness :
  ∃ c' st',
    process_posts DemoOffline.world DemoPlain.run ["md"] "out" ""
      ["https://s.test/p/a"; "https://s.test/p/b"] no_counts Demo.st0
    = (Ok c', st')
    ∧ post_requests (trace st')
      = post_requests (trace Demo.st0)
        ++ ["https://s.test/p/a"; "https://s.test/p/b"]
    ∧ skipped_downloads c' = skipped_downloads no_counts
    ∧ processed_urls_set st' = processed_urls_set Demo.st0.
Proof.
  apply (plain_run_requests_every_post DemoOffline.world DemoPlain.run).
  reflexivity.
Defined.

(** X20.  In incremental mode a post that is reported as done is on
    disk as done: when [process_single_post] returns [True] for a URL that
    was not yet in the processed set, the set has gained exactly that URL
    and the log file, read back by the loader, gives that very set. *)
Theorem successful_post_is_persisted E url out fmts flag assets logp st st' :
  url ∉ processed_urls_set st →
  process_single_post E url out fmts flag assets true logp st = (Ok true, st') →
  processed_urls_set st' = {[url]} ∪ processed_urls_set st
  ∧ (load_download_log E logp st').1 = Ok (processed_urls_set st').
Proof.
  intros Hnew Hrun.
  destruct (process_single_post_true E url out fmts flag assets logp st st')
    as [Hset Hload]; [|done|].
  { unfold not_skipped. cbn. by apply bool_decide_eq_false_2. }
  split; [done|]. by rewrite load_download_log_view.
Qed.

Lemma successful_post_is_persisted_witness :
  processed_urls_set
    (process_single_post DemoLog.world "https://s.test/p/a" "out" ["md"] false
       "assets" true DemoLog.log_path Demo.st0).2
  = {[ "https://s.test/p/a" ]} ∪ processed_urls_set Demo.st0
  ∧ (load_download_log DemoLog.world DemoLog.log_path
       (process_single_post DemoLog.world "https://s.test/p/a" "out" ["md"]
          false "assets" true DemoLog.log_path Demo.st0).2).1
    = Ok (processed_urls_set
            (process_single_post DemoLog.world "https://s.test/p/a" "out"
               ["md"] false "assets" true DemoLog.log_path Demo.st0).2).
Proof.
  apply (successful_post_is_persisted DemoLog.world "https://s.test/p/a" "out"
           ["md"] false "assets" DemoLog.log_path Demo.st0).
  - vm_compute. set_solver.
  - vm_compute; reflexivity.
Defined.

(* ===================================================================== *)
(** * The configuration loader *)
(* ===================================================================== *)

Lemma dict_get_set d k v k' :
  dict_get (dict_set d k v) k' = if decide (k = k') then v else dict_get d k'.
Proof.
  induction d as [|[k0 v0] d IH]; cbn.
  - by destruct (decide (k = k')).
  - destruct (decide (k0 = k)) as [->|Hne]; cbn.
    + by destruct (decide (k = k')).
    + rewrite IH. destruct (decide (k0 = k')) as [->|]; [|done].
      by rewrite decide_False.
Qed.

Lemma dict_set_keys d k v k' :
  k' ∈ (dict_set d k v).*1 ↔ k' = k ∨ k' ∈ d.*1.
Proof.
  induction d as [|[k0 v0] d IH]; cbn.
  - set_solver.
  - destruct (decide (k0 = k)) as [->|Hne]; cbn; set_solver.
Qed.

Lemma dict_merge_keys a b k :
  k ∈ (dict_merge a b).*1 ↔ k ∈ a.*1 ∨ k ∈ b.*1.
Proof.
  unfold dict_merge. revert a. induction b as [|[k0 v0] b IH]; intros a; cbn.
  - set_solver.
  - rewrite IH, dict_set_keys. set_solver.
Qed.

Lemma dict_get_merge a b k :
  NoDup b.*1 →
  dict_get (dict_merge a b) k
  = if decide (k ∈ b.*1) then dict_get b k else dict_get a k.
Proof.
  unfold dict_merge. revert a.
  induction b as [|[k0 v0] b IH]; intros a Hnd; cbn.
  - rewrite decide_False; [done|]. set_solver.
  - apply NoDup_cons in Hnd as [Hk0 Hnd]. rewrite IH by done.
    rewrite dict_get_set.
    destruct (decide (k0 = k)) as [->|Hne].
    + rewrite decide_False by done. rewrite decide_True; [done|]. set_solver.
    + destruct (decide (k ∈ b.*1)) as [Hin|Hout].
      * rewrite decide_True; [done|]. set_solver.
      * rewrite decide_False; [done|]. set_solver.
Qed.

(** X21.  A configuration file that holds a mapping is laid over the
    defaults: a key of the file has the file's value, any other key has
    its default, and the keys of the result are those of the defaults and
    of the file.  Nothing is logged. *)
Theorem config_file_overrides_defaults yaml_safe_load p c d st :
  nonempty p = true →
  fs st !! p = Some (File c) →
  yaml_safe_load c = YamlDoc (JObj d) →
  d ≠ [] →
  NoDup d.*1 →
  ∃ cfg,
    load_config yaml_safe_load (Some p) st = (Ok cfg, st)
    ∧ (∀ k, dict_get cfg k
            = if decide (k ∈ d.*1) then dict_get d k
              else dict_get DEFAULT_CONFIG k)
    ∧ (∀ k, k ∈ cfg.*1 ↔ k ∈ DEFAULT_CONFIG.*1 ∨ k ∈ d.*1).
Proof.
  intros Hp Hfile Hyaml Hd Hnd. exists (dict_merge DEFAULT_CONFIG d).
  split; [|split].
  - unfold load_config, path_exists, bind, get_fs, ret.
    rewrite Hp, Hfile. rewrite bool_decide_eq_true_2 by eauto.
    cbn. rewrite Hfile, Hyaml. by destruct d.
  - intros k. by apply dict_get_merge.
  - intros k. apply dict_merge_keys.
Qed.

Lemma config_file_overrides_defaults_witness :
  ∃ cfg,
    load_config DemoConfig.parse (Some "config.yaml") DemoConfig.st_config
    = (Ok cfg, DemoConfig.st_config)
    ∧ (∀ k, dict_get cfg k
            = if decide (k ∈ [("formats", JArr [JStr "pdf"])].*1)
              then dict_get [("formats", JArr [JStr "pdf"])] k
              else dict_get DEFAULT_CONFIG k)
    ∧ (∀ k, k ∈ cfg.*1
            ↔ k ∈ DEFAULT_CONFIG.*1 ∨ k ∈ [("formats", JArr [JStr "pdf"])].*1).
Proof.
  apply (config_file_overrides_defaults DemoConfig.parse "config.yaml"
           (Text "formats: [pdf]")).
  - reflexivity.
  - vm_compute; reflexivity.
  - reflexivity.
  - discriminate.
  - vm_compute. repeat constructor. set_solver.
Defined.

(** X22.  Whatever the loader makes of the configuration file,
    [load_config] leaves the file tree alone; a configuration it returns
    has every key of the defaults, so that no later lookup of such a key
    falls back on its default argument; and when it raises, it is with
    [TypeError] (a document that is neither empty nor a mapping), with
    [OSError] (the path is a directory), or with what the loader itself
    raised and the handler for [yaml.YAMLError] lets through. *)
Theorem loaded_config_has_every_default yaml_safe_load config_path st :
  fs (load_config yaml_safe_load config_path st).2 = fs st
  ∧ match (load_config yaml_safe_load config_path st).1 with
    | Ok cfg => ∀ k, k ∈ DEFAULT_CONFIG.*1 → k ∈ cfg.*1
    | Raise e =>
        e = TypeError ∨ e = OSError ∨ ∃ c, yaml_safe_load c = YamlRaises e
    end.
Proof.
  destruct (load_config yaml_safe_load config_path st) as [r st'] eqn:Hrun.
  cbn [fst snd].
  unfold load_config, path_exists, bind, get_fs, ret, raise, logging, emit
    in Hrun.
  repeat (case_match; simplify_eq); cbn; (split; [done|]); eauto.
  all: intros k Hk; apply dict_merge_keys; by left.
Qed.

(** X23.  A configuration file that is missing, or that is not valid
    YAML, gives exactly the defaults and no exception; the second is
    reported at level ERROR. *)
Theorem unusable_config_gives_defaults yaml_safe_load p st :
  (fs st !! p = None →
   load_config yaml_safe_load (Some p) st = (Ok DEFAULT_CONFIG, st)) ∧
  (∀ c, nonempty p = true →
        fs st !! p = Some (File c) →
        yaml_safe_load c = YamlError →
        load_config yaml_safe_load (Some p) st
        = (Ok DEFAULT_CONFIG, add_events st [EvLog ERROR])).
Proof.
  unfold load_config, path_exists, bind, get_fs, ret, logging, emit. split.
  - intros Hnone. rewrite Hnone.
    rewrite bool_decide_eq_false_2 by (by intros [? ?]).
    by rewrite andb_false_r.
  - intros c Hp Hfile Hbad. rewrite Hp, Hfile.
    rewrite bool_decide_eq_true_2 by eauto. cbn. by rewrite Hfile, Hbad.
Qed.

Lemma unusable_config_gives_defaults_witness :
  load_config DemoConfig.parse (Some "config.yaml") Demo.st0
  = (Ok DEFAULT_CONFIG, Demo.st0)
  ∧ load_config DemoConfig.parse (Some "config.yaml") DemoConfig.st_garbled
    = (Ok DEFAULT_CONFIG, add_events DemoConfig.st_garbled [EvLog ERROR]).
Proof.
  split.
  - apply (proj1 (unusable_config_gives_defaults DemoConfig.parse
                    "config.yaml" Demo.st0)).
    vm_compute; reflexivity.
  - apply (proj2 (unusable_config_gives_defaults DemoConfig.parse
                    "config.yaml" DemoConfig.st_garbled) (Text ": :")).
    + reflexivity.
    + vm_compute; reflexivity.
    + reflexivity.
Defined.

(* ===================================================================== *)
(** * The processed set during the loop over the posts *)
(* ===================================================================== *)

Lemma save_adds_url E p u st r st' :
  save_to_download_log E p u st = (r, st') →
  processed_urls_set st' = {[u]} ∪ processed_urls_set st.
Proof.
  intros Hrun. unfold save_to_download_log in Hrun.
  unfold bind at 1 in Hrun. unfold get_set at 1 in Hrun.
  unfold bind at 1 in Hrun. unfold put_set at 1 in Hrun.
  change ({[u]} ∪ processed_urls_set st)
    with (processed_urls_set
            (mkState (fs st) ({[u]} ∪ processed_urls_set st) (trace st))).
  change (same_set
            (mkState (fs st) ({[u]} ∪ processed_urls_set st) (trace st)) st').
  eapply (preserves_run same_set); [|exact Hrun]. pres_auto.
Qed.

Lemma process_post_body_set E url out fmts flag assets inc logp st x st1 :
  process_post_body E url out fmts flag assets inc logp st = (x, st1) →
  processed_urls_set st1 = processed_urls_set st
  ∨ processed_urls_set st1 = {[url]} ∪ processed_urls_set st.
Proof.
  unfold process_post_body. intros Hrun.
  apply bind_inv in Hrun as [(y & s1 & Hprep & Hrun)|(e & Hprep & _)].
  2: { left. revert Hprep. apply (preserves_run same_set).
       apply preserves_prepare_post; apply _. }
  apply (preserves_run same_set) in Hprep;
    [|apply preserves_prepare_post; apply _].
  unfold same_set in Hprep. rewrite <- Hprep. clear Hprep.
  destruct y as [[m c] s].
  apply bind_inv in Hrun as [(? & s2 & Hrender & Hrun)|(e & Hrender & _)].
  2: { left. revert Hrender. apply (preserves_run same_set).
       apply preserves_render_post; apply _. }
  apply (preserves_run same_set) in Hrender;
    [|apply preserves_render_post; apply _].
  unfold same_set in Hrender. rewrite <- Hrender. clear Hrender.
  unfold bind at 1 in Hrun. unfold sleep at 1, emit at 1 in Hrun.
  set (s3 := mkState _ _ _) in Hrun.
  change (processed_urls_set s2) with (processed_urls_set s3).
  clearbody s3.
  apply bind_inv in Hrun as [(? & s4 & Hsave & Hrun)|(e & Hsave & _)].
  - unfold ret in Hrun. simplify_eq. destruct inc.
    + right. by eapply save_adds_url.
    + left. unfold ret in Hsave. by simplify_eq.
  - destruct inc.
    + right. by eapply save_adds_url.
    + left. unfold ret in Hsave. by simplify_eq.
Qed.

Lemma process_single_post_set E url out fmts flag assets inc logp st r st' :
  process_single_post E url out fmts flag assets inc logp st = (r, st') →
  processed_urls_set st' = processed_urls_set st
  ∨ processed_urls_set st' = {[url]} ∪ processed_urls_set st.
Proof.
  unfold process_single_post. unfold bind at 1, get_set at 1.
  destruct (inc && bool_decide (url ∈ processed_urls_set st)).
  - unfold bind, logging, emit, ret. intros ?. simplify_eq. by left.
  - intros Hrun.
    apply try_except_inv in Hrun as [(x & Hrun & _)|(e & st1 & Hrun & Hh)].
    + by eapply process_post_body_set.
    + unfold bind, logging, emit, ret in Hh. simplify_eq. cbn.
      by eapply process_post_body_set.
Qed.

Lemma process_posts_set E a fmts out logp urls c st r st' :
  process_posts E a fmts out logp urls c st = (r, st') →
  processed_urls_set st ⊆ processed_urls_set st'
  ∧ processed_urls_set st' ⊆ processed_urls_set st ∪ list_to_set urls.
Proof.
  revert c st. induction urls as [|u urls IH]; intros c st Hrun.
  - cbn in Hrun. unfold ret in Hrun. simplify_eq. set_solver.
  - cbn [process_posts] in Hrun.
    unfold bind at 1 in Hrun. unfold logging at 1, emit at 1 in Hrun.
    unfold bind at 1 in Hrun. unfold get_set at 1 in Hrun.
    cbn [fs processed_urls_set trace] in Hrun.
    set (st0 := mkState _ _ _) in Hrun.
    change (processed_urls_set st) with (processed_urls_set st0) in Hrun |- *.
    clearbody st0.
    destruct (incremental a && bool_decide (u ∈ processed_urls_set st0)).
    + unfold bind at 1 in Hrun. unfold logging at 1, emit at 1 in Hrun.
      apply IH in Hrun as [Hlo Hhi]. cbn in Hlo, Hhi.
      split; [done|]. cbn [list_to_set]. set_solver.
    + apply bind_inv in Hrun as [(b & st1 & Hpost & Hrun)|(e & Hpost & _)].
      * apply process_single_post_set in Hpost. apply IH in Hrun as [Hlo Hhi].
        cbn [list_to_set].
        destruct Hpost as [Hs|Hs]; rewrite Hs in *; set_solver.
      * apply process_single_post_set in Hpost. cbn [list_to_set].
        destruct Hpost as [Hs|Hs]; rewrite Hs; set_solver.
Qed.

(** X24.  The loop over the posts drops no URL from the processed set,
    and what it adds are URLs of the posts it was given: the set it ends
    with lies between the set it began with and that set joined with the
    URLs.  This holds for every outcome and in both modes. *)
Theorem processed_set_gains_only_given_urls E a fmts out logp urls c st :
  processed_urls_set st
  ⊆ processed_urls_set (process_posts E a fmts out logp urls c st).2
  ∧ processed_urls_set (process_posts E a fmts out logp urls c st).2
    ⊆ processed_urls_set st ∪ list_to_set urls.
Proof.
  destruct (process_posts E a fmts out logp urls c st) as [r st'] eqn:Hrun.
  by eapply process_posts_set.
Qed.

(* ===================================================================== *)
(** * The feed script: the file name of an entry *)
(* ===================================================================== *)

Lemma has_char_app c s t :
  has_char c (s +:+ t) = has_char c s || has_char c t.
Proof.
  induction s as [|a s IH]; [by rewrite app_nil_l|].
  rewrite app_cons. cbn. by rewrite IH, orb_assoc.
Qed.

Lemma has_char_replace_other c old new s :
  has_char c new = false →
  has_char c s = false →
  has_char c (Str.replace old new s) = false.
Proof.
  intros Hnew. induction s as [|a s IH]; [done|]. cbn.
  intros [Ha Hs]%orb_false_iff.
  destruct (decide (a = old)).
  - rewrite has_char_app, Hnew. by apply IH.
  - cbn. rewrite Ha. by apply IH.
Qed.

Lemma has_char_replace_gone old new s :
  has_char old new = false →
  has_char old (Str.replace old new s) = false.
Proof.
  intros Hnew. induction s as [|a s IH]; [done|]. cbn.
  destruct (decide (a = old)) as [->|Hne].
  - by rewrite has_char_app, Hnew.
  - cbn. by rewrite bool_decide_eq_false_2.
Qed.

Lemma has_char_rev_app c s t :
  has_char c (String.rev_app s t) = has_char c s || has_char c t.
Proof.
  revert t. induction s as [|a s IH]; intros t; [done|].
  cbn. rewrite IH. cbn. by destruct (bool_decide (a = c)), (has_char c s).
Qed.

Lemma has_char_rev c s : has_char c (String.rev s) = has_char c s.
Proof. unfold String.rev. by rewrite has_char_rev_app, orb_false_r. Qed.

Lemma has_char_lstrip c s :
  has_char c s = false → has_char c (Str.lstrip s) = false.
Proof.
  induction s as [|a s IH]; [done|]. cbn.
  destruct (Str.is_space a); [|done]. intros [_ Hs]%orb_false_iff. auto.
Qed.

Lemma has_char_strip c s :
  has_char c s = false → has_char c (Str.strip s) = false.
Proof.
  intros Hs. unfold Str.strip.
  rewrite has_char_rev. apply has_char_lstrip.
  rewrite has_char_rev. by apply has_char_lstrip.
Qed.

Lemma has_char_take c n s :
  has_char c s = false → has_char c (Str.take n s) = false.
Proof.
  revert s. induction n as [|n IH]; intros [|a s]; try done. cbn.
  intros [Ha Hs]%orb_false_iff. rewrite Ha. by apply IH.
Qed.

Lemma take_length n s : String.length (Str.take n s) ≤ n.
Proof.
  revert s. induction n as [|n IH]; intros [|a s]; cbn; try lia.
  specialize (IH s). lia.
Qed.

(** X25.  The slug the feed script makes of an entry's title has at
    most 100 characters and holds neither a slash nor a space, whatever
    the title; so the file of the entry lies directly in the save
    directory, under a name that ends in the slug, a dot and the
    extension. *)
Theorem feed_slug_is_one_path_component title :
  String.length (Feed.slug title) ≤ 100
  ∧ has_char "/" (Feed.slug title) = false
  ∧ has_char " " (Feed.slug title) = false
  ∧ ∀ save_dir ext,
      save_dir ≠ "" → Str.startswith "/" (String.rev save_dir) = false →
      Feed.filepath save_dir title ext
      = save_dir +:+ "/" +:+ Feed.slug title +:+ "." +:+ ext.
Proof.
  unfold Feed.slug. split; [apply take_length|]. split; [|split].
  - apply has_char_take, has_char_strip. by apply has_char_replace_gone.
  - apply has_char_take, has_char_strip, has_char_replace_other; [done|].
    by apply has_char_replace_gone.
  - intros save_dir ext Hne Hslash. unfold Feed.filepath, path_join.
    fold (Feed.slug title).
    assert (Str.startswith "/" (Feed.slug title +:+ "." +:+ ext) = false)
      as ->.
    { assert (has_char "/" (Feed.slug title) = false) as Hno.
      { unfold Feed.slug.
        apply has_char_take, has_char_strip. by apply has_char_replace_gone. }
      destruct (Feed.slug title) as [|a s]; [by rewrite app_nil_l|].
      rewrite app_cons. cbn in *. apply orb_false_iff in Hno as [Ha _].
      apply bool_decide_eq_false in Ha.
      rewrite andb_true_r. apply bool_decide_eq_false. by intros <-. }
    rewrite Hslash. rewrite bool_decide_eq_false_2 by done. done.
Qed.

Lemma feed_slug_is_one_path_component_witness :
  Feed.filepath "substack_posts" "On war / and peace" "md"
  = "substack_posts" +:+ "/" +:+ Feed.slug "On war / and peace" +:+ "." +:+ "md".
Proof.
  apply (proj2 (proj2 (proj2
           (feed_slug_is_one_path_component "On war / and peace")))).
  - discriminate.
  - vm_compute; reflexivity.
Defined.

(* ===================================================================== *)
(** * With the incremental log: what is requested *)
(* ===================================================================== *)

(** X26.  In incremental mode the loop over the posts requests only
    posts that are new: the posts it requests are, in order, some of the
    URLs it was given, and none of them was in the processed set when the
    loop began. *)
Theorem incremental_run_requests_only_new_posts E a fmts out logp urls c st r
    st' :
  incremental a = true →
  process_posts E a fmts out logp urls c st = (r, st') →
  ∃ requested,
    post_requests (trace st') = post_requests (trace st) ++ requested
    ∧ sublist requested urls
    ∧ ∀ u, u ∈ requested → u ∉ processed_urls_set st.
Proof.
  intros Hinc. revert c st. induction urls as [|u urls IH]; intros c st Hrun.
  - cbn in Hrun. unfold ret in Hrun. simplify_eq. exists [].
    rewrite app_nil_r. split; [done|]. split; [done|]. set_solver.
  - cbn [process_posts] in Hrun. rewrite Hinc in Hrun. cbn [andb] in Hrun.
    unfold bind at 1 in Hrun. unfold logging at 1, emit at 1 in Hrun.
    unfold bind at 1 in Hrun. unfold get_set at 1 in Hrun.
    cbn [fs processed_urls_set trace] in Hrun.
    set (st0 := mkState _ _ _) in Hrun.
    assert (post_requests (trace st0) = post_requests (trace st)) as Hreq0.
    { subst st0. unfold post_requests. cbn. rewrite omap_app. cbn.
      by rewrite app_nil_r. }
    change (processed_urls_set st) with (processed_urls_set st0) in Hrun |- *.
    rewrite <- Hreq0. clear Hreq0. clearbody st0.
    destruct (bool_decide (u ∈ processed_urls_set st0)) eqn:Hin.
    + unfold bind at 1 in Hrun. unfold logging at 1, emit at 1 in Hrun.
      apply IH in Hrun as (l & Hreq & Hsub & Hnew). exists l.
      split; [|split; [by apply sublist_cons|done]].
      rewrite Hreq. unfold post_requests. cbn. rewrite omap_app. cbn.
      by rewrite app_nil_r.
    + apply bool_decide_eq_false in Hin.
      assert (∃ x st1,
        process_single_post E u out fmts (download_images a)
          (assets_dir_name a) true logp st0 = (x, st1)
        ∧ ∃ l, post_requests (trace st') = post_requests (trace st1) ++ l
               ∧ sublist l urls
               ∧ ∀ v, v ∈ l → v ∉ processed_urls_set st1)
        as (x & st1 & Hpost & l & Hreq & Hsub & Hnew).
      { apply bind_inv in Hrun as [(b & st1 & Hpost & Hrun)|(e & Hpost & Hr)].
        - exists (Ok b), st1. split; [done|]. by eapply IH.
        - exists (Raise e), st'. split; [done|]. exists [].
          rewrite app_nil_r. split; [done|]. split; [apply sublist_nil_l|].
          set_solver. }
      pose proof (process_single_post_after_request E no_post_fetched
                    _ _ _ _ _ true _ _ _ _ _
                    ltac:(unfold not_skipped; cbn;
                          by apply bool_decide_eq_false_2) Hpost)
        as Hq%no_post_fetched_requests.
      apply process_single_post_set in Hpost.
      exists (u :: l). split; [|split].
      * rewrite Hreq, Hq. unfold post_requests. cbn. rewrite omap_app. cbn.
        by rewrite <- (assoc_L (++)).
      * by apply sublist_skip.
      * intros v [->|Hv]%elem_of_cons; [done|].
        apply Hnew in Hv. destruct Hpost as [Hs|Hs]; rewrite Hs in Hv;
          set_solver.
Qed.

Lemma incremental_run_requests_only_new_posts_witness :
  ∃ requested,
    post_requests
      (trace (process_posts DemoLog.world DemoRerun.run ["md"] "out"
                DemoLog.log_path ["https://s.test/p/a"; "https://s.test/p/b"]
                no_counts DemoSeen.st_seen).2)
    = post_requests (trace DemoSeen.st_seen) ++ requested
    ∧ sublist requested ["https://s.test/p/a"; "https://s.test/p/b"]
    ∧ ∀ u, u ∈ requested → u ∉ processed_urls_set DemoSeen.st_seen.
Proof.
  apply (incremental_run_requests_only_new_posts DemoLog.world DemoRerun.run
           ["md"] "out" DemoLog.log_path _ no_counts DemoSeen.st_seen
           (process_posts DemoLog.world DemoRerun.run ["md"] "out"
              DemoLog.log_path ["https://s.test/p/a"; "https://s.test/p/b"]
              no_counts DemoSeen.st_seen).1).
  - reflexivity.
  - vm_compute; reflexivity.
Defined.

(* ===================================================================== *)
(** * A log of the wrong shape *)
(* ===================================================================== *)

Lemma load_view_non_object E p (f : gmap string node) s v :
  f !! p = Some (File (Text s)) →
  json_loads E s = Some v →
  (∀ d, v ≠ JObj d) →
  load_view E p f = (Raise AttributeError, []).
Proof.
  intros Hfile Hloads Hshape. unfold load_view. rewrite Hfile, Hloads.
  destruct v; try done. by destruct (Hshape d).
Qed.

(** C7, where the code departs from it: a log file that parses as JSON
    but does not hold an object does block the run.  For a run over one
    source in incremental mode whose output directory holds such a log,
    [cli] raises [AttributeError] after its opening log lines, before any
    request, with the file tree as it was. *)
Theorem wrong_shaped_log_blocks_run E fuel (a : args) u s v st :
  substack_urls a = [u] →
  nonempty u = true →
  incremental a = true →
  fs st !! output_dir a = Some Dir →
  fs st !! log_file_of (output_dir a) = Some (File (Text s)) →
  json_loads E s = Some v →
  (∀ d, v ≠ JObj d) →
  cli E fuel a st
  = (Raise AttributeError,
     mkState (fs st) ∅ (trace st ++ replicate 8 (EvLog INFO))).
Proof.
  intros Hurls Hu Hinc Hdir Hfile Hloads Hshape.
  unfold cli. rewrite Hurls. cbn [cli_loop].
  unfold process_substack, substack_output_dir, open_log.
  rewrite Hurls, Hu, Hinc. cbn [negb length Nat.ltb Nat.leb].
  fold (log_file_of (output_dir a)).
  assert (∀ st1, fs st1 = fs st →
            makedirs E (output_dir a) st1 = (Ok tt, st1)) as Hmk.
  { intros st1 Hfs. apply makedirs_existing. by rewrite Hfs. }
  assert (∀ st1, fs st1 = fs st →
            load_download_log E (log_file_of (output_dir a)) st1
            = (Raise AttributeError, st1)) as Hload.
  { intros st1 Hfs. rewrite load_download_log_view, Hfs.
    rewrite (load_view_non_object E _ _ s v) by done.
    by rewrite add_events_nil. }
  unfold bind, logging, emit, ret, put_set.
  cbn [fs processed_urls_set trace].
  rewrite Hmk by done. cbn [fs processed_urls_set trace].
  rewrite Hload by done.
  by rewrite <- !(assoc_L (++)).
Qed.

Lemma wrong_shaped_log_blocks_run_witness :
  cli DemoShape.world 3 DemoRerun.run DemoShape.st_run
  = (Raise AttributeError,
     mkState (fs DemoShape.st_run) ∅
       (trace DemoShape.st_run ++ replicate 8 (EvLog INFO))).
Proof.
  apply (wrong_shaped_log_blocks_run DemoShape.world 3 DemoRerun.run
           Demo.site "[]" (JArr [])).
  - reflexivity.
  - reflexivity.
  - reflexivity.
  - vm_compute; reflexivity.
  - vm_compute; reflexivity.
  - vm_compute; reflexivity.
  - intros d; discriminate.
Defined.

(* ===================================================================== *)
(** * The published date on the two paths of the extractor *)
(* ===================================================================== *)

(** The timestamp of the example block of C2, found in a meta element
    instead of the structured data, is reduced to its date (main.py
    186-197), which the structured-data path (main.py 163) does not do. *)
Lemma sibling_meta_path_normalises_date :
  extract_metadata_from_post DemoSibling.world "<html>" "https://s.test/p/a"
    Demo.st0
  = (Ok (mkMeta JNull JNull (JStr "2023-01-01") [] "https://s.test/p/a"),
     Demo.st0).
Proof. vm_compute; reflexivity. Qed.
